(** * A shallow embedding of the C runtime-bug detector

    The development follows the TypeScript sources:
    - [detectors/standalone_ast_variable_detector.ts]
      (uninitialised use, wild and null pointer dereference);
    - the library detector (header table, header spelling, edit distance);
    - the command line front end ([printIssues]);
    - [heuristic_test.ts] (format-string checks of the heuristic engine).

    JavaScript strings are modelled as [string]: a sequence of code units
    below 256.  Arrays are lists, read with stdpp's lookup [l !! i]
    ([None] is JavaScript's [undefined]); a [Set] used for membership only
    is a [gset]; an object literal used as a table is a [gmap] together with
    the properties every object inherits.  A call that throws is [None] in
    the option monad ([x ← e; k]). *)

From Stdlib Require Import Ascii Arith Bool Lia.
From stdpp Require Import base option list strings gmap.

(** ** Strings *)

Module JsString.

(** [WhiteSpace] and [LineTerminator] of ECMAScript, restricted to code
    units below 256: TAB, LF, VT, FF, CR, SP and NBSP.  This is the set
    that [String.prototype.trim] strips and that [\s] matches. *)
Definition isWhiteSpace (c : ascii) : bool :=
  let n := nat_of_ascii c in
  ((9 <=? n) && (n <=? 13)) || (n =? 32) || (n =? 160).

(** [\w] : ASCII letters, digits and underscore. *)
Definition isWordChar (c : ascii) : bool :=
  let n := nat_of_ascii c in
  ((48 <=? n) && (n <=? 57)) || ((65 <=? n) && (n <=? 90))
  || ((97 <=? n) && (n <=? 122)) || (n =? 95).

Fixpoint trimStart (s : string) : string :=
  match s with
  | String c s' => if isWhiteSpace c then trimStart s' else s
  | EmptyString => EmptyString
  end.

Definition rev (s : string) : string :=
  String.string_of_list_ascii (List.rev (String.list_ascii_of_string s)).

Definition trimEnd (s : string) : string := rev (trimStart (rev s)).

Definition trim (s : string) : string := trimEnd (trimStart s).

(** [s.startsWith(p)] *)
Fixpoint startsWith (p s : string) : bool :=
  match p, s with
  | EmptyString, _ => true
  | String a p', String b s' => if Ascii.eqb a b then startsWith p' s' else false
  | String _ _, EmptyString => false
  end.

(** [s.slice(n)] for [0 <= n]. *)
Fixpoint slice (s : string) (n : nat) : string :=
  match n, s with
  | 0, _ => s
  | S n', String _ s' => slice s' n'
  | S _, EmptyString => EmptyString
  end.

(** First position at which [p] occurs in [s]. *)
Fixpoint search (p s : string) : option nat :=
  if startsWith p s then Some 0
  else match s with
       | EmptyString => None
       | String _ s' => S <$> search p s'
       end.

(** [s.indexOf(p, from)]; [None] is the result [-1].  The start position
    is clamped to the length of [s], as in ECMAScript. *)
Definition indexOf (s p : string) (from : nat) : option nat :=
  let start := Nat.min from (String.length s) in
  (fun k => start + k) <$> search p (slice s start).

(** [s.includes(p)] *)
Definition includes (s p : string) : bool :=
  match search p s with Some _ => true | None => false end.

(** [toLowerCase] on code units below 256: A-Z, and the Latin-1 capitals
    U+00C0..U+00DE except the multiplication sign U+00D7. *)
Definition lowerChar (c : ascii) : ascii :=
  let n := nat_of_ascii c in
  if ((65 <=? n) && (n <=? 90))
     || ((192 <=? n) && (n <=? 222) && negb (n =? 215))
  then ascii_of_nat (n + 32) else c.

Fixpoint toLowerCase (s : string) : string :=
  match s with
  | EmptyString => EmptyString
  | String c s' => String (lowerChar c) (toLowerCase s')
  end.

(** [sourceCode.split(/\r?\n/)] *)
Fixpoint splitLines_from (s : string) (piece : list ascii) : list string :=
  match s with
  | EmptyString => [String.string_of_list_ascii (List.rev piece)]
  | String c rest =>
      if Ascii.eqb c "010"%char
      then String.string_of_list_ascii (List.rev piece) :: splitLines_from rest []
      else
        match rest with
        | String c' rest' =>
            if Ascii.eqb c "013"%char && Ascii.eqb c' "010"%char
            then String.string_of_list_ascii (List.rev piece) :: splitLines_from rest' []
            else splitLines_from rest (c :: piece)
        | EmptyString => splitLines_from rest (c :: piece)
        end
  end.

Definition splitLines (sourceCode : string) : list string :=
  splitLines_from sourceCode [].

(** Last position at which [p] occurs in [s]: [s.lastIndexOf(p)]. *)
Fixpoint lastIndexOf (s p : string) : option nat :=
  match s with
  | EmptyString => if startsWith p s then Some 0 else None
  | String _ s' =>
      match lastIndexOf s' p with
      | Some k => Some (S k)
      | None => if startsWith p s then Some 0 else None
      end
  end.

(** The first [n] code units. *)
Fixpoint take (s : string) (n : nat) : string :=
  match n, s with
  | S n', String c s' => String c (take s' n')
  | _, _ => EmptyString
  end.

(** [s.slice(from, to)] for [0 <= from] and [0 <= to]. *)
Definition sliceTo (s : string) (from to : nat) : string :=
  take (slice s from) (to - from).

(** The longest prefix whose code units satisfy [f]. *)
Fixpoint takeWhile (f : ascii → bool) (s : string) : string :=
  match s with
  | String c s' => if f c then String c (takeWhile f s') else EmptyString
  | EmptyString => EmptyString
  end.

Fixpoint dropWhile (f : ascii → bool) (s : string) : string :=
  match s with
  | String c s' => if f c then dropWhile f s' else s
  | EmptyString => EmptyString
  end.

Fixpoint all (f : ascii → bool) (s : string) : bool :=
  match s with
  | String c s' => f c && all f s'
  | EmptyString => true
  end.

(** [s.split(p)[0]] for a pattern [p] that is not empty. *)
Definition beforeFirst (s p : string) : string :=
  match search p s with
  | Some k => take s k
  | None => s
  end.

Definition isEmpty (s : string) : bool :=
  match s with EmptyString => true | String _ _ => false end.

(** The double quote, which a string literal here cannot hold. *)
Definition dquote : ascii := "034"%char.

End JsString.

(** ** The parser adapter

    [core/ast_parser] is imported by the detectors but is not among the
    sources.  Its types are taken from the data model of the specification,
    with the field names the detectors use, and a parsed tree is
    represented by what the extraction operations return on it. *)

(** Modelled from the spec: the position of a declaration, call, include,
    usage or dereference (section 3); the detectors read its [row], counted
    from 0, and its [column]. *)
Record Position := { row : nat; column : nat }.

(** Modelled from the spec: "VariableDeclaration: {name, declaredType,
    isPointer, isInitialized (mutable), isParameter, scopeKey, position}";
    the detectors and [debug_ast.ts] call the fields [type] and [scope]. *)
Record VariableDeclaration := {
  name : string;
  type : string;
  isPointer : bool;
  isInitialized : bool;
  isParameter : bool;
  scope : string;
  position : Position
}.

(** Modelled from the spec: "FunctionCall: {calleeName, position}"; the
    detector reads [call.name] and [call.position]. *)
Record FunctionCall := { call_name : string; call_position : Position }.

(** Modelled from the spec: "IncludeDirective: {headerName, isSystemHeader,
    position}". *)
Record IncludeDirective := {
  headerName : string;
  isSystemHeader : bool;
  include_position : Position
}.

(** Modelled from the spec: the tree produced by [CASTParser.parse], which is
    not among the sources.  Section 4.1 gives the parser "pure,
    deterministic extraction operations over the tree: declarations, calls,
    includes, usages(name), dereferences(name)"; a tree is the record of
    their results. *)
Record ASTNode := {
  extractVariableDeclarations : list VariableDeclaration;
  findVariableUsages : string → list Position;
  findPointerDereferences : string → list Position;
  extractIncludeDirectives : list IncludeDirective;
  extractFunctionCalls : list FunctionCall
}.

(** ** Issues *)

(** The text of an issue.  The sources build it from a fixed template (in
    Chinese) and the names spliced into it; each constructor is one template
    and carries what is spliced in. *)
Inductive Message :=
  | UsedBeforeInit (variable : string)
      (* variable '<name>' is used before it is initialised *)
  | WildDereference (pointer : string)
      (* potential wild pointer dereference: pointer '<name>' is not initialised *)
  | NullDereference (pointer : string)
      (* potential null pointer dereference: pointer '<name>' may be NULL *)
  | NeedsHeader (function : string) (headers : list string)
      (* function '<name>' needs the header: h1 or h2 ... *)
  | SuspiciousHeader (header : string) (suggestion : option string)
      (* suspicious header name: <h>[, did you mean <s>?] *)
  | TooFewArguments (isScanf : bool)
      (* printf/scanf: fewer arguments than conversion specifiers *)
  | TooManyArguments (isScanf : bool)
      (* printf/scanf: more arguments than conversion specifiers *)
  | ScanfNeedsAddress
      (* scanf: pass the address of the argument (&var) *)
  | OtherMessage (text : string).
      (* any other text *)

(** The object literal the detectors push. *)
Record DetectorIssue := {
  d_file : string;
  d_line : nat;
  d_column : nat;
  d_category : string;
  d_message : Message;
  d_severity : nat;
  d_codeLine : string
}.

(** [sourceLines[r] || ''] *)
Definition codeLineAt (sourceLines : list string) (r : nat) : string :=
  default "" (sourceLines !! r).

(** ** The variable detector *)

Module VariableDetector.
Import JsString.

(** The regular expression [^(=|[\+\-\*\/\%]?=)]. *)
Definition isCompoundOperatorChar (c : ascii) : bool :=
  (Ascii.eqb c "+" || Ascii.eqb c "-" || Ascii.eqb c "*"
   || Ascii.eqb c "/" || Ascii.eqb c "%")%char.

Definition startsWithAssignment (s : string) : bool :=
  match s with
  | String a rest =>
      if Ascii.eqb a "="%char then true
      else match rest with
           | String b _ => isCompoundOperatorChar a && Ascii.eqb b "="%char
           | EmptyString => false
           end
  | EmptyString => false
  end.

Definition isAssignmentTarget (line variableName : string) (column : nat) : bool :=
  match indexOf line variableName column with
  | None => false
  | Some varIndex =>
      let afterVar := trim (slice line (varIndex + String.length variableName)) in
      startsWithAssignment afterVar
  end.

(** [isStructField]: the lines [max(0, lineNumber - 5) .. lineNumber - 1]
    are read and trimmed one after the other; reading a line that does not
    exist throws. *)
Fixpoint isStructField_from (sourceLines : list string) (i n : nat) : option bool :=
  match n with
  | 0 => Some false
  | S n' =>
      l ← sourceLines !! i;
      let line := trim l in
      if includes line "typedef struct" || includes line "struct "
      then Some true
      else isStructField_from sourceLines (S i) n'
  end.

Definition isStructField (sourceLines : list string) (lineNumber : nat) : option bool :=
  let start := lineNumber - 5 in
  isStructField_from sourceLines start (lineNumber - start).

Definition markInitialized (v : VariableDeclaration) : VariableDeclaration :=
  {| name := name v; type := type v; isPointer := isPointer v;
     isInitialized := true; isParameter := isParameter v;
     scope := scope v; position := position v |}.

Definition uninitializedIssue (filePath : string) (sourceLines : list string)
    (variable : VariableDeclaration) (usage : Position) : DetectorIssue :=
  {| d_file := filePath; d_line := row usage + 1; d_column := column usage;
     d_category := "Uninitialized";
     d_message := UsedBeforeInit (name variable);
     d_severity := 1;
     d_codeLine := codeLineAt sourceLines (row usage) |}.

Definition wildPointerIssue (filePath : string) (sourceLines : list string)
    (variable : VariableDeclaration) (deref : Position) : DetectorIssue :=
  {| d_file := filePath; d_line := row deref + 1; d_column := column deref;
     d_category := "NullPointer";
     d_message := WildDereference (name variable);
     d_severity := 0;
     d_codeLine := codeLineAt sourceLines (row deref) |}.

Definition nullPointerIssue (filePath : string) (sourceLines : list string)
    (pointer : VariableDeclaration) (deref : Position) : DetectorIssue :=
  {| d_file := filePath; d_line := row deref + 1; d_column := column deref;
     d_category := "NullPointer";
     d_message := NullDereference (name pointer);
     d_severity := 0;
     d_codeLine := codeLineAt sourceLines (row deref) |}.

Section CheckVariableUsage.
Variables (sourceLines : list string) (filePath : string).

(** The first loop of [checkVariableUsage].  The state is the declaration
    object, whose [isInitialized] the loop sets, and the issue array. *)
Fixpoint usageLoop (usages : list Position) (variable : VariableDeclaration)
    (issues : list DetectorIssue) : option (VariableDeclaration * list DetectorIssue) :=
  match usages with
  | [] => Some (variable, issues)
  | usage :: rest =>
      if row usage =? row (position variable) then usageLoop rest variable issues
      else
        line ← sourceLines !! row usage;
        if isAssignmentTarget line (name variable) (column usage)
        then usageLoop rest (markInitialized variable) issues
        else usageLoop rest variable
               (issues ++ [uninitializedIssue filePath sourceLines variable usage])
  end.

(** The second loop: the declaration is no longer written. *)
Fixpoint dereferenceLoop (dereferences : list Position) (variable : VariableDeclaration)
    (issues : list DetectorIssue) : list DetectorIssue :=
  match dereferences with
  | [] => issues
  | deref :: rest =>
      if row deref =? row (position variable) then dereferenceLoop rest variable issues
      else if isPointer variable && negb (isInitialized variable)
      then dereferenceLoop rest variable
             (issues ++ [wildPointerIssue filePath sourceLines variable deref])
      else dereferenceLoop rest variable issues
  end.

(** [checkVariableUsage] returns the issues; the declaration object it
    was given is returned with them, as the caller sees it afterwards. *)
Definition checkVariableUsage (ast : ASTNode) (variable : VariableDeclaration)
    : option (VariableDeclaration * list DetectorIssue) :=
  if isInitialized variable || isParameter variable then Some (variable, [])
  else
    structField ← isStructField sourceLines (row (position variable));
    if (structField : bool) then Some (variable, [])
    else
      let usages := findVariableUsages ast (name variable) in
      let dereferences := findPointerDereferences ast (name variable) in
      '(variable', issues) ← usageLoop usages variable [];
      Some (variable', dereferenceLoop dereferences variable' issues).

End CheckVariableUsage.

(** The regular expression [=\s*(NULL|0)\b], tested anywhere in the line. *)
Definition atWordEnd (s : string) : bool :=
  match s with
  | EmptyString => true
  | String c _ => negb (isWordChar c)
  end.

Definition nullAfterEquals (s : string) : bool :=
  let t := trimStart s in
  (startsWith "NULL" t && atWordEnd (slice t 4))
  || (startsWith "0" t && atWordEnd (slice t 1)).

Fixpoint isNullInitialized (line : string) : bool :=
  match line with
  | EmptyString => false
  | String c rest =>
      (Ascii.eqb c "="%char && nullAfterEquals rest) || isNullInitialized rest
  end.

(** [isNullInitialized(sourceLines[r])]: [RegExp.prototype.test] converts
    its argument to a string, so a missing line is tested as the text
    "undefined". *)
Definition isNullInitializedAt (sourceLines : list string) (r : nat) : bool :=
  match sourceLines !! r with
  | Some line => isNullInitialized line
  | None => isNullInitialized "undefined"
  end.

Section CheckNullPointerDereference.
Variables (sourceLines : list string) (filePath : string).

Definition isNullPointer (decl : VariableDeclaration) : bool :=
  isPointer decl && isNullInitializedAt sourceLines (row (position decl)).

(** The inner loop, over the dereferences of one pointer. *)
Fixpoint nullDereferenceLoop (dereferences : list Position)
    (pointer : VariableDeclaration) (issues : list DetectorIssue) : list DetectorIssue :=
  match dereferences with
  | [] => issues
  | deref :: rest =>
      if row (position pointer) <? row deref
      then nullDereferenceLoop rest pointer
             (issues ++ [nullPointerIssue filePath sourceLines pointer deref])
      else nullDereferenceLoop rest pointer issues
  end.

(** The outer loop, over the pointers whose declaration line assigns
    NULL or 0. *)
Fixpoint nullPointerLoop (ast : ASTNode) (nullPointers : list VariableDeclaration)
    (issues : list DetectorIssue) : list DetectorIssue :=
  match nullPointers with
  | [] => issues
  | pointer :: rest =>
      nullPointerLoop ast rest
        (nullDereferenceLoop (findPointerDereferences ast (name pointer)) pointer issues)
  end.

Definition checkNullPointerDereference (ast : ASTNode) : list DetectorIssue :=
  let declarations := extractVariableDeclarations ast in
  let nullPointers := List.filter isNullPointer declarations in
  nullPointerLoop ast nullPointers [].

End CheckNullPointerDereference.

(** [groupVariablesByScope]: a [Map] keeps its keys in insertion order, so
    the grouping is an association list. *)
Fixpoint groupInsert (decl : VariableDeclaration)
    (grouped : list (string * list VariableDeclaration))
    : list (string * list VariableDeclaration) :=
  match grouped with
  | [] => [(scope decl, [decl])]
  | (s, decls) :: rest =>
      if String.eqb s (scope decl) then (s, decls ++ [decl]) :: rest
      else (s, decls) :: groupInsert decl rest
  end.

Definition groupVariablesByScope (declarations : list VariableDeclaration)
    : list (string * list VariableDeclaration) :=
  fold_left (fun grouped decl => groupInsert decl grouped) declarations [].

(** The loop of [analyzeFile] over the declarations.  When
    [checkVariableUsage] throws, the [catch] of [analyzeFile] keeps the
    issues pushed so far; [false] records that the [try] block was left. *)
Fixpoint variablesLoop (sourceLines : list string) (filePath : string) (ast : ASTNode)
    (variables : list VariableDeclaration) (issues : list DetectorIssue)
    : list DetectorIssue * bool :=
  match variables with
  | [] => (issues, true)
  | variable :: rest =>
      match checkVariableUsage sourceLines filePath ast variable with
      | Some (_, variableIssues) =>
          variablesLoop sourceLines filePath ast rest (issues ++ variableIssues)
      | None => (issues, false)
      end
  end.

(** [analyzeFile]; [parse] is the parser, [None] when it throws. *)
Definition analyzeFile (parse : string → option ASTNode)
    (filePath sourceCode : string) : list DetectorIssue :=
  let sourceLines := splitLines sourceCode in
  match parse sourceCode with
  | None => []
  | Some ast =>
      let declarations := extractVariableDeclarations ast in
      let variablesByScope := groupVariablesByScope declarations in
      match variablesLoop sourceLines filePath ast
              (concat (snd <$> variablesByScope)) [] with
      | (issues, true) =>
          issues ++ checkNullPointerDereference sourceLines filePath ast
      | (issues, false) => issues
      end
  end.

End VariableDetector.

(** ** The library detector *)

Module LibraryDetector.
Import JsString.

(** The object literal [STANDARD_LIBRARY_FUNCTIONS]: its own properties. *)
Definition standardLibraryEntries : list (string * list string) :=
  [ ("printf", ["stdio.h"]); ("scanf", ["stdio.h"]);
    ("fprintf", ["stdio.h"]); ("fscanf", ["stdio.h"]);
    ("sprintf", ["stdio.h"]); ("sscanf", ["stdio.h"]);
    ("fopen", ["stdio.h"]); ("fclose", ["stdio.h"]);
    ("fread", ["stdio.h"]); ("fwrite", ["stdio.h"]);
    ("fgets", ["stdio.h"]); ("fputs", ["stdio.h"]);
    ("getchar", ["stdio.h"]); ("putchar", ["stdio.h"]);
    ("fgetc", ["stdio.h"]); ("fputc", ["stdio.h"]); ("fseek", ["stdio.h"]);
    ("ftell", ["stdio.h"]); ("rewind", ["stdio.h"]); ("feof", ["stdio.h"]);
    ("ferror", ["stdio.h"]); ("perror", ["stdio.h"]);
    ("malloc", ["stdlib.h"]); ("calloc", ["stdlib.h"]);
    ("realloc", ["stdlib.h"]); ("free", ["stdlib.h"]);
    ("exit", ["stdlib.h"]); ("abort", ["stdlib.h"]);
    ("atexit", ["stdlib.h"]); ("atoi", ["stdlib.h"]);
    ("atof", ["stdlib.h"]); ("atol", ["stdlib.h"]);
    ("strtol", ["stdlib.h"]); ("strtod", ["stdlib.h"]);
    ("rand", ["stdlib.h"]); ("srand", ["stdlib.h"]);
    ("system", ["stdlib.h"]); ("getenv", ["stdlib.h"]);
    ("qsort", ["stdlib.h"]); ("bsearch", ["stdlib.h"]);
    ("abs", ["stdlib.h"]); ("labs", ["stdlib.h"]); ("div", ["stdlib.h"]);
    ("ldiv", ["stdlib.h"]); ("strlen", ["string.h"]);
    ("strcpy", ["string.h"]); ("strncpy", ["string.h"]);
    ("strcat", ["string.h"]); ("strncat", ["string.h"]);
    ("strcmp", ["string.h"]); ("strncmp", ["string.h"]);
    ("strchr", ["string.h"]); ("strrchr", ["string.h"]);
    ("strstr", ["string.h"]); ("strtok", ["string.h"]);
    ("memcpy", ["string.h"]); ("memmove", ["string.h"]);
    ("memcmp", ["string.h"]); ("memchr", ["string.h"]);
    ("memset", ["string.h"]); ("sin", ["math.h"]); ("cos", ["math.h"]);
    ("tan", ["math.h"]); ("asin", ["math.h"]); ("acos", ["math.h"]);
    ("atan", ["math.h"]); ("atan2", ["math.h"]); ("sinh", ["math.h"]);
    ("cosh", ["math.h"]); ("tanh", ["math.h"]); ("exp", ["math.h"]);
    ("log", ["math.h"]); ("log10", ["math.h"]); ("pow", ["math.h"]);
    ("sqrt", ["math.h"]); ("ceil", ["math.h"]); ("floor", ["math.h"]);
    ("fabs", ["math.h"]); ("ldexp", ["math.h"]); ("frexp", ["math.h"]);
    ("modf", ["math.h"]); ("fmod", ["math.h"]); ("isalpha", ["ctype.h"]);
    ("isdigit", ["ctype.h"]); ("isalnum", ["ctype.h"]);
    ("isspace", ["ctype.h"]); ("islower", ["ctype.h"]);
    ("isupper", ["ctype.h"]); ("isprint", ["ctype.h"]);
    ("iscntrl", ["ctype.h"]); ("ispunct", ["ctype.h"]);
    ("isxdigit", ["ctype.h"]); ("tolower", ["ctype.h"]);
    ("toupper", ["ctype.h"]); ("time", ["time.h"]); ("clock", ["time.h"]);
    ("ctime", ["time.h"]); ("asctime", ["time.h"]);
    ("localtime", ["time.h"]); ("gmtime", ["time.h"]);
    ("mktime", ["time.h"]); ("strftime", ["time.h"]);
    ("difftime", ["time.h"]); ("assert", ["assert.h"]);
    ("va_start", ["stdarg.h"]); ("va_arg", ["stdarg.h"]);
    ("va_end", ["stdarg.h"]); ("va_copy", ["stdarg.h"]);
    ("setjmp", ["setjmp.h"]); ("longjmp", ["setjmp.h"]);
    ("signal", ["signal.h"]); ("raise", ["signal.h"]);
    ("setlocale", ["locale.h"]); ("localeconv", ["locale.h"]) ].

Definition STANDARD_LIBRARY_FUNCTIONS : gmap string (list string) :=
  list_to_map standardLibraryEntries.

(** The table is a plain object, so [STANDARD_LIBRARY_FUNCTIONS[key]] also
    finds what every object inherits from [Object.prototype]: functions,
    and an object for [__proto__]. *)
Definition objectPrototypeProperties : list string :=
  [ "constructor"; "__defineGetter__"; "__defineSetter__"; "hasOwnProperty";
    "__lookupGetter__"; "__lookupSetter__"; "isPrototypeOf";
    "propertyIsEnumerable"; "toString"; "valueOf"; "__proto__";
    "toLocaleString" ].

Inductive TableValue :=
  | HeaderArray (requiredHeaders : list string)
  | InheritedValue
  | UndefinedValue.

Definition tableGet (key : string) : TableValue :=
  match STANDARD_LIBRARY_FUNCTIONS !! key with
  | Some requiredHeaders => HeaderArray requiredHeaders
  | None =>
      if bool_decide (key ∈ objectPrototypeProperties) then InheritedValue
      else UndefinedValue
  end.

Definition headerIssue (filePath : string) (sourceLines : list string)
    (call : FunctionCall) (requiredHeaders : list string) : DetectorIssue :=
  {| d_file := filePath; d_line := row (call_position call) + 1;
     d_column := column (call_position call);
     d_category := "Header";
     d_message := NeedsHeader (call_name call) requiredHeaders;
     d_severity := 1;
     d_codeLine := codeLineAt sourceLines (row (call_position call)) |}.

(** The loop of [analyzeFile] over the calls.  An array is truthy, and so
    is an inherited value; the latter has no [some] method, the call
    throws, and the [catch] of [analyzeFile] returns the issues pushed so
    far. *)
Fixpoint callLoop (filePath : string) (sourceLines : list string)
    (includedHeaders : gset string) (functionCalls : list FunctionCall)
    (issues : list DetectorIssue) : list DetectorIssue :=
  match functionCalls with
  | [] => issues
  | call :: rest =>
      match tableGet (call_name call) with
      | UndefinedValue => callLoop filePath sourceLines includedHeaders rest issues
      | InheritedValue => issues
      | HeaderArray requiredHeaders =>
          let hasRequiredHeader :=
            existsb (fun header => bool_decide (header ∈ includedHeaders))
                    requiredHeaders in
          if hasRequiredHeader
          then callLoop filePath sourceLines includedHeaders rest issues
          else callLoop filePath sourceLines includedHeaders rest
                 (issues ++ [headerIssue filePath sourceLines call requiredHeaders])
      end
  end.

Definition includedHeadersOf (includes : list IncludeDirective) : gset string :=
  list_to_set (headerName <$> includes).

Definition analyzeFile (parse : string → option ASTNode)
    (filePath sourceCode : string) : list DetectorIssue :=
  let sourceLines := splitLines sourceCode in
  match parse sourceCode with
  | None => []
  | Some ast =>
      let includes := extractIncludeDirectives ast in
      let includedHeaders := includedHeadersOf includes in
      callLoop filePath sourceLines includedHeaders (extractFunctionCalls ast) []
  end.

(** *** Edit distance *)

(** [matrix[i][j]] *)
Definition cell (matrix : list (list nat)) (i j : nat) : option nat :=
  r ← matrix !! i; r !! j.

(** [matrix[i][j] = v].  Row [i] has to exist.  Writing inside the row
    replaces, writing at its length appends; a write further out would
    leave holes, which the matrix of numbers cannot hold. *)
Definition setCell (matrix : list (list nat)) (i j v : nat) : option (list (list nat)) :=
  r ← matrix !! i;
  if j <? length r then Some (<[i := <[j := v]> r]> matrix)
  else if j =? length r then Some (<[i := r ++ [v]]> matrix)
  else None.

(** A [for] loop whose body may fail. *)
Fixpoint forEach {S A : Type} (body : S → A → option S) (items : list A) (s : S)
    : option S :=
  match items with
  | [] => Some s
  | x :: rest => s' ← body s x; forEach body rest s'
  end.

(** [s.charAt(i) === t.charAt(j)]; outside the string [charAt] is the
    empty string. *)
Definition sameCharAt (s : string) (i : nat) (t : string) (j : nat) : bool :=
  bool_decide (String.get i s = String.get j t).

(** The body of the two nested loops. *)
Definition fillCell (str1 str2 : string) (matrix : list (list nat)) (i j : nat)
    : option (list (list nat)) :=
  if sameCharAt str2 (i - 1) str1 (j - 1)
  then
    diagonal ← cell matrix (i - 1) (j - 1);
    setCell matrix i j diagonal
  else
    substitution ← cell matrix (i - 1) (j - 1);
    insertion ← cell matrix i (j - 1);
    deletion ← cell matrix (i - 1) j;
    setCell matrix i j
      (Nat.min (substitution + 1) (Nat.min (insertion + 1) (deletion + 1))).

Definition levenshteinDistance (str1 str2 : string) : option nat :=
  let len1 := String.length str1 in
  let len2 := String.length str2 in
  (* matrix[i] = [i], for i = 0 .. len2 *)
  let matrix := fold_left (fun m i => m ++ [[i]]) (seq 0 (S len2)) [] in
  (* matrix[0][j] = j, for j = 0 .. len1 *)
  matrix ← forEach (fun m j => setCell m 0 j j) (seq 0 (S len1)) matrix;
  matrix ← forEach (fun m i =>
              forEach (fun m j => fillCell str1 str2 m i j) (seq 1 len1) m)
            (seq 1 len2) matrix;
  cell matrix len2 len1.

(** *** Header spelling *)

(** The [Set] of standard headers, in insertion order. *)
Definition standardHeaders : list string :=
  [ "stdio.h"; "stdlib.h"; "string.h"; "math.h"; "ctype.h";
    "time.h"; "assert.h"; "limits.h"; "float.h"; "stdarg.h";
    "setjmp.h"; "signal.h"; "errno.h"; "locale.h"; "stddef.h";
    "stdint.h"; "stdbool.h"; "inttypes.h"; "wchar.h"; "wctype.h";
    "iso646.h"; "complex.h"; "fenv.h"; "tgmath.h" ].

(** [distance < bestDistance], where [bestDistance] starts as [Infinity]
    ([None]). *)
Definition belowBest (distance : nat) (bestDistance : option nat) : bool :=
  match bestDistance with
  | None => true
  | Some best => distance <? best
  end.

(** The loop of [suggestCorrectHeader].  A distance that is not a number
    compares false. *)
Fixpoint suggestLoop (lowerHeader : string) (standards : list string)
    (bestMatch : option string) (bestDistance : option nat) : option string :=
  match standards with
  | [] => bestMatch
  | standard :: rest =>
      match levenshteinDistance lowerHeader (toLowerCase standard) with
      | Some distance =>
          if belowBest distance bestDistance && (distance <=? 2)
          then suggestLoop lowerHeader rest (Some standard) (Some distance)
          else suggestLoop lowerHeader rest bestMatch bestDistance
      | None => suggestLoop lowerHeader rest bestMatch bestDistance
      end
  end.

Definition suggestCorrectHeader (headerName : string) (standardHeaders : list string)
    : option string :=
  let lowerHeader := toLowerCase headerName in
  suggestLoop lowerHeader standardHeaders None None.

(** [if (suggestion)]: [null] and the empty string are falsy. *)
Definition truthy (suggestion : option string) : option string :=
  match suggestion with
  | Some EmptyString => None
  | other => other
  end.

Definition headerSpellingIssue (filePath : string) (sourceLines : list string)
    (include : IncludeDirective) (suggestion : option string) : DetectorIssue :=
  {| d_file := filePath; d_line := row (include_position include) + 1;
     d_column := column (include_position include);
     d_category := "HeaderSpelling";
     d_message := SuspiciousHeader (headerName include) (truthy suggestion);
     d_severity := 2;
     d_codeLine := codeLineAt sourceLines (row (include_position include)) |}.

Fixpoint includeLoop (filePath : string) (sourceLines : list string)
    (includes : list IncludeDirective) (issues : list DetectorIssue)
    : list DetectorIssue :=
  match includes with
  | [] => issues
  | include :: rest =>
      if isSystemHeader include
         && negb (bool_decide (headerName include ∈ standardHeaders))
      then
        let suggestion := suggestCorrectHeader (headerName include) standardHeaders in
        includeLoop filePath sourceLines rest
          (issues ++ [headerSpellingIssue filePath sourceLines include suggestion])
      else includeLoop filePath sourceLines rest issues
  end.

Definition checkHeaderSpelling (parse : string → option ASTNode)
    (filePath sourceCode : string) : list DetectorIssue :=
  let sourceLines := splitLines sourceCode in
  match parse sourceCode with
  | None => []
  | Some ast => includeLoop filePath sourceLines (extractIncludeDirectives ast) []
  end.

End LibraryDetector.

(** ** The command line front end *)

(** The [Issue] type of the front end and of the heuristic engine, as
    [heuristic_test.ts] declares it. *)
Record Issue := {
  file : string;
  line : nat;
  category : string;
  message : Message;
  codeLine : string
}.

Module Cli.
Import JsString.

(** What [console.log] is given: the two lines printed per issue. *)
Inductive ConsoleLine :=
  | IssueLine (relativePath : string) (line : nat) (category : string)
      (message : Message)
      (* <relativePath>:<line>: [<category>] <message> *)
  | CodeLine (codeLine : string).
      (* four blanks, then the code line *)

(** The predicate given to [issues.filter]. *)
Definition keepIssue (issue : Issue) : bool :=
  if includes (file issue) "avl_tree.c"
  then
    if (line issue =? 7) || (line issue =? 8) || (line issue =? 16)
    then false else true
  else true.

(** [printIssues]; [relative] is [path.relative(process.cwd(), _)]. *)
Definition printIssues (relative : string → string) (issues : list Issue)
    : list ConsoleLine :=
  let filteredIssues := List.filter keepIssue issues in
  flat_map (fun issue =>
              [ IssueLine (relative (file issue)) (line issue)
                          (category issue) (message issue);
                CodeLine (codeLine issue) ])
           filteredIssues.

End Cli.

(** ** The heuristic engine ([heuristic_test.ts]) *)

Module Heuristic.
Import JsString.

Record VariableInfo := {
  name : string;
  typeName : string;
  isPointer : bool;
  isInitialized : bool;
  firstUseLine : option nat
}.

(** [looksAssignmentTo]: the regular expression
    [(^|[^=<>!])NAME\s*([-+*/]?=)], where [NAME] is an identifier. *)
Definition isComparisonChar (c : ascii) : bool :=
  (Ascii.eqb c "=" || Ascii.eqb c "<" || Ascii.eqb c ">" || Ascii.eqb c "!")%char.

Definition assignmentFollows (s : string) : bool :=
  match trimStart s with
  | String a rest =>
      if Ascii.eqb a "="%char then true
      else match rest with
           | String b _ =>
               (Ascii.eqb a "-" || Ascii.eqb a "+" || Ascii.eqb a "*"
                || Ascii.eqb a "/")%char && Ascii.eqb b "="%char
           | EmptyString => false
           end
  | EmptyString => false
  end.

(** [atStart] tells whether the position is the start of the line,
    [previous] is the code unit before it. *)
Fixpoint looksAssignmentTo_from (name : string) (atStart : bool) (previous : ascii)
    (s : string) : bool :=
  ((atStart || negb (isComparisonChar previous))
   && startsWith name s && assignmentFollows (slice s (String.length name)))
  || match s with
     | EmptyString => false
     | String c s' => looksAssignmentTo_from name false c s'
     end.

Definition looksAssignmentTo (line name : string) : bool :=
  looksAssignmentTo_from name true "000"%char line.

(** [formatSpecCount]: a percent sign followed by a percent sign skips
    both, any other percent sign counts. *)
Fixpoint formatSpecCount (fmt : string) : nat :=
  match fmt with
  | EmptyString => 0
  | String c rest =>
      if Ascii.eqb c "%"%char
      then match rest with
           | String c' rest' =>
               if Ascii.eqb c' "%"%char then formatSpecCount rest'
               else S (formatSpecCount rest)
           | EmptyString => S (formatSpecCount rest)
           end
      else formatSpecCount rest
  end.

(** [getArgsFromCall]: the state of its loop. *)
Record SplitState := {
  depth : nat;
  buf : string;
  inStr : bool;
  q : string;
  parts : list string
}.

Definition push (buf : string) (c : ascii) : string := buf +:+ String c "".

Definition splitStep (st : SplitState) (c : ascii) : SplitState :=
  if inStr st
  then {| depth := depth st; buf := push (buf st) c;
          inStr := negb (String.eqb (String c "") (q st));
          q := q st; parts := parts st |}
  else if Ascii.eqb c dquote || Ascii.eqb c "'"%char
  then {| depth := depth st; buf := push (buf st) c; inStr := true;
          q := String c ""; parts := parts st |}
  else if Ascii.eqb c "("%char
  then {| depth := S (depth st); buf := push (buf st) c; inStr := false;
          q := q st; parts := parts st |}
  else if Ascii.eqb c ")"%char
  then {| depth := depth st - 1; buf := push (buf st) c; inStr := false;
          q := q st; parts := parts st |}
  else if Ascii.eqb c ","%char && (depth st =? 0)
  then {| depth := depth st; buf := ""; inStr := false;
          q := q st; parts := parts st ++ [trim (buf st)] |}
  else {| depth := depth st; buf := push (buf st) c; inStr := false;
          q := q st; parts := parts st |}.

Definition getArgsFromCall (line : string) : list string :=
  match search "(" line, lastIndexOf line ")" with
  | Some lp, Some rp =>
      if rp <=? lp then []
      else
        let inside := sliceTo line (lp + 1) rp in
        let st := fold_left splitStep (String.list_ascii_of_string inside)
                    {| depth := 0; buf := ""; inStr := false; q := ""; parts := [] |} in
        if isEmpty (trim (buf st)) then parts st
        else parts st ++ [trim (buf st)]
  | _, _ => []
  end.

(** [getNameFromExpr]: the first identifier of the expression, after an
    ampersand in front has been removed; the empty string if none. *)
Definition isIdentifierStart (c : ascii) : bool :=
  let n := nat_of_ascii c in
  ((65 <=? n) && (n <=? 90)) || ((97 <=? n) && (n <=? 122)) || (n =? 95).

Fixpoint firstIdentifier (s : string) : string :=
  match s with
  | EmptyString => EmptyString
  | String c s' =>
      if isIdentifierStart c then String c (takeWhile isWordChar s')
      else firstIdentifier s'
  end.

Definition getNameFromExpr (expr : string) : string :=
  let t := trim expr in
  firstIdentifier (if startsWith "&" t then slice t 1 else t).

(** [\b(NAME1|NAME2|..)\s*\(], tested anywhere in the line. *)
Fixpoint callsOneOf (names : list string) (afterWordChar : bool) (s : string) : bool :=
  (negb afterWordChar
   && existsb (fun n => startsWith n s
                        && startsWith "(" (trimStart (slice s (String.length n))))
              names)
  || match s with
     | EmptyString => false
     | String c s' => callsOneOf names (isWordChar c) s'
     end.

(** [\b(NAME1|NAME2|..)\b], tested anywhere in the line. *)
Fixpoint mentionsOneOf (names : list string) (afterWordChar : bool) (s : string) : bool :=
  (negb afterWordChar
   && existsb (fun n => startsWith n s
                        && match slice s (String.length n) with
                           | EmptyString => true
                           | String c _ => negb (isWordChar c)
                           end)
              names)
  || match s with
     | EmptyString => false
     | String c s' => mentionsOneOf names (isWordChar c) s'
     end.

(** A keyword at the start of the line or after a blank, followed by a
    blank or a star: [(^|\s)KEYWORD(\s|[*])], tested anywhere in the line. *)
Fixpoint keywordAt (t : string) (afterBlankOrStart : bool) (s : string) : bool :=
  (afterBlankOrStart && startsWith t s
   && match slice s (String.length t) with
      | String c _ => isWhiteSpace c || Ascii.eqb c "*"%char
      | EmptyString => false
      end)
  || match s with
     | EmptyString => false
     | String c s' => keywordAt t (isWhiteSpace c) s'
     end.

Definition typeKeywords : list string :=
  [ "int"; "char"; "float"; "double"; "void"; "short"; "long"; "signed";
    "unsigned"; "bool"; "size_t" ].

Definition isLikelyDecl (line : string) : bool :=
  if negb (includes line ";") then false
  else if startsWith "#" (trimStart line) then false
  else if mentionsOneOf ["printf"; "scanf"; "malloc"; "free"; "strcpy"; "strlen"]
            false line
  then false
  else existsb (fun t => keywordAt t true line) typeKeywords.

(** [fmt.match(/^[\s\(]*"([\s\S]*?)"[\s\)]*$/)]: the captured group.  The
    group is lazy: it ends at the first double quote after which only
    blanks and closing parentheses follow. *)
Fixpoint lazyGroup (s : string) : option string :=
  match s with
  | EmptyString => None
  | String c s' =>
      if Ascii.eqb c dquote
         && all (fun d => isWhiteSpace d || Ascii.eqb d ")"%char) s'
      then Some EmptyString
      else String c <$> lazyGroup s'
  end.

Definition formatLiteral (fmt : string) : option string :=
  match dropWhile (fun c => isWhiteSpace c || Ascii.eqb c "("%char) fmt with
  | String c rest => if Ascii.eqb c dquote then lazyGroup rest else None
  | EmptyString => None
  end.

Definition formatIssue (filePath : string) (i : nat) (raw : string)
    (message : Message) : Issue :=
  {| file := filePath; line := i + 1; category := "Format";
     message := message; codeLine := raw |}.

Section PrintfScanf.
(** [getVar] reads the symbol tables of the scan as they are when the
    line is reached. *)
Variables (getVar : string → option VariableInfo).
Variables (filePath : string) (i : nat) (raw : string).

(** The loop over the arguments of [scanf] after the format. *)
Fixpoint scanfAddressLoop (exprs : list string) (issues : list Issue) : list Issue :=
  match exprs with
  | [] => issues
  | expr :: rest =>
      let name := getNameFromExpr expr in
      if isEmpty name then scanfAddressLoop rest issues
      else if negb (startsWith "&" (trim expr))
      then
        let isCharVariable :=
          match getVar name with
          | Some v => String.eqb (typeName v) "char"
          | None => false
          end in
        if negb isCharVariable
        then scanfAddressLoop rest
               (issues ++ [formatIssue filePath i raw ScanfNeedsAddress])
        else scanfAddressLoop rest issues
      else scanfAddressLoop rest issues
  end.

(** The block "printf / scanf" of the loop over the lines: the issues it
    pushes for [line]. *)
Definition checkPrintfScanf (line : string) : list Issue :=
  if callsOneOf ["printf"; "scanf"] false line
  then
    let isScanf := callsOneOf ["scanf"] false line in
    let args := getArgsFromCall line in
    match args with
    | [] => []
    | fmt :: rest =>
        let specCount :=
          match formatLiteral fmt with
          | Some body => formatSpecCount body
          | None => 0
          end in
        let provided := length args - 1 in
        let issues := [] in
        let issues :=
          if provided <? specCount
          then issues ++ [formatIssue filePath i raw (TooFewArguments isScanf)]
          else issues in
        let issues :=
          if specCount <? provided
          then issues ++ [formatIssue filePath i raw (TooManyArguments isScanf)]
          else issues in
        if isScanf then scanfAddressLoop rest issues else issues
    end
  else [].

(** One iteration of the loop over the lines, as far as Format issues
    go: an empty line, a directive and a declaration-like line are left
    with [continue] before the block is reached; a line comment is cut
    off.  The steps in between (scopes, parameters, loops, assignments,
    uninitialised uses) push no Format issue and leave the loop body
    running. *)
Definition formatIssuesOfLine : list Issue :=
  let line := trim raw in
  if isEmpty line then []
  else if startsWith "#" line then []
  else
    let line := if includes line "//" then beforeFirst line "//" else line in
    if isLikelyDecl line then []
    else checkPrintfScanf line.

End PrintfScanf.

End Heuristic.

(** ** Notions used in the statements *)

Module Notions.
Import JsString VariableDetector.

(** An occurrence that is not on the line of the declaration. *)
Definition offDeclarationLine (v : VariableDeclaration) (p : Position) : bool :=
  negb (row p =? row (position v)).

(** An occurrence that [isAssignmentTarget] takes for a write. *)
Definition isWriteOccurrence (sourceLines : list string) (v : VariableDeclaration)
    (u : Position) : bool :=
  match sourceLines !! row u with
  | Some line => isAssignmentTarget line (name v) (column u)
  | None => false
  end.

(** The occurrences the scan reports: off the declaration line, not a write. *)
Definition readOccurrences (sourceLines : list string) (v : VariableDeclaration)
    (usages : list Position) : list Position :=
  List.filter (fun u => offDeclarationLine v u && negb (isWriteOccurrence sourceLines v u))
              usages.

(** The value of [isInitialized] when the scan of [usages] is over. *)
Definition writtenDuringScan (sourceLines : list string) (v : VariableDeclaration)
    (usages : list Position) : bool :=
  existsb (fun u => offDeclarationLine v u && isWriteOccurrence sourceLines v u) usages.

(** Every position lies on a line of the file. *)
Definition onExistingLines (sourceLines : list string) (ps : list Position) : bool :=
  forallb (fun p => row p <? length sourceLines) ps.

(** A dereference on a line strictly after the declaration of [p]. *)
Definition afterDeclaration (p : VariableDeclaration) (d : Position) : bool :=
  row (position p) <? row d.

Definition resultIssues (r : option (VariableDeclaration * list DetectorIssue))
    : list DetectorIssue :=
  match r with
  | Some (_, issues) => issues
  | None => []
  end.

Definition isWildDereferenceIssue (i : DetectorIssue) : bool :=
  match d_message i with
  | WildDereference _ => true
  | _ => false
  end.

(** The same tree with other answers to [findVariableUsages] and
    [findPointerDereferences]. *)
Definition withOccurrences (ast : ASTNode)
    (usages dereferences : string → list Position) : ASTNode :=
  {| extractVariableDeclarations := extractVariableDeclarations ast;
     findVariableUsages := usages;
     findPointerDereferences := dereferences;
     extractIncludeDirectives := extractIncludeDirectives ast;
     extractFunctionCalls := extractFunctionCalls ast |}.

(** The edit distance of Levenshtein, by its recurrence: [lev a b i j] is
    the distance between the first [i] code units of [a] and the first [j]
    of [b].  Dropping the last unit of either costs one, and so does
    replacing one last unit by the other when they differ. *)
Fixpoint lev (a b : string) (i : nat) : nat → nat :=
  fix lev_i (j : nat) : nat :=
    match i with
    | 0 => j
    | S i' =>
        match j with
        | 0 => i
        | S j' =>
            Nat.min (lev a b i' j + 1)
              (Nat.min (lev_i j' + 1)
                 (lev a b i' j'
                  + (if decide (String.get i' a = String.get j' b) then 0 else 1)))
        end
    end.

Definition levenshtein (a b : string) : nat :=
  lev a b (String.length a) (String.length b).

(** [w] is the first entry of [entries] at the least distance [dist]. *)
Definition firstClosest (dist : string → nat) (entries : list string) (w : string) : Prop :=
  ∃ before after,
    entries = before ++ w :: after
    ∧ (∀ w', w' ∈ before → dist w < dist w')
    ∧ (∀ w', w' ∈ after → dist w ≤ dist w').

(** The distance the header check computes to a whitelist entry: the entry
    is put in lower case, [lowerHeader] already is. *)
Definition distanceTo (lowerHeader w : string) : nat :=
  levenshtein lowerHeader (JsString.toLowerCase w).

(** The includes the header check reports. *)
Definition isSuspicious (include : IncludeDirective) : bool :=
  isSystemHeader include
  && negb (bool_decide (headerName include ∈ LibraryDetector.standardHeaders)).

(** The name of the file a path leads to: the text after the last
    separator. *)
Definition isSeparator (c : ascii) : bool :=
  (Ascii.eqb c "/" || Ascii.eqb c "\")%char.

Fixpoint hasSeparator (path : string) : bool :=
  match path with
  | EmptyString => false
  | String c rest => isSeparator c || hasSeparator rest
  end.

Fixpoint baseName (path : string) : string :=
  match path with
  | EmptyString => EmptyString
  | String c rest => if hasSeparator path then baseName rest else path
  end.

(** The lines 7, 8 and 16. *)
Definition isSuppressedLine (n : nat) : bool := (n =? 7) || (n =? 8) || (n =? 16).

(** The two lines printed for an issue. *)
Definition printed (relative : string → string) (issue : Issue) : list Cli.ConsoleLine :=
  [ Cli.IssueLine (relative (file issue)) (line issue) (category issue) (message issue);
    Cli.CodeLine (codeLine issue) ].

(** The text of a line that the checks of the heuristic engine look at:
    trimmed, and cut before a line comment. *)
Definition scannedText (raw : string) : string :=
  let line := JsString.trim raw in
  if JsString.includes line "//" then JsString.beforeFirst line "//" else line.

(** A Format issue about the number of arguments. *)
Definition isCountMismatch (issue : Issue) : bool :=
  match message issue with
  | TooFewArguments _ | TooManyArguments _ => true
  | _ => false
  end.

(** The text after the occurrence of [name] that is found from [column]
    on, without the blanks around it. *)
Definition textAfterName (line name : string) (column : nat) : option string :=
  varIndex ← indexOf line name column;
  Some (trim (slice line (varIndex + String.length name))).

(** The assignment operators. *)
Definition assignmentOperators : list string :=
  [ "="; "+="; "-="; "*="; "/="; "%=" ].

(** The text starts with an assignment operator, and not with the equality
    test [==]. *)
Definition startsWithAssignmentOperator (s : string) : bool :=
  existsb (fun op => startsWith op s) assignmentOperators
  && negb (startsWith "==" s).

(** What follows an occurrence of the variable in its line. *)
Definition followedBy (accepts : string → bool) (sourceLines : list string)
    (v : VariableDeclaration) (u : Position) : bool :=
  match sourceLines !! row u with
  | Some line =>
      match textAfterName line (name v) (column u) with
      | Some after => accepts after
      | None => false
      end
  | None => false
  end.

(** An occurrence that an assignment operator follows: a write. *)
Definition isAssignedAt : list string → VariableDeclaration → Position → bool :=
  followedBy startsWithAssignmentOperator.

(** An occurrence that the equality test follows. *)
Definition isComparedAt : list string → VariableDeclaration → Position → bool :=
  followedBy (startsWith "==").

(** No line of the file has an opening brace: no declaration of the file is
    a field of a structure. *)
Definition withoutBraces (sourceLines : list string) : bool :=
  forallb (fun l => negb (includes l "{")) sourceLines.

(** The declaration with its flag set. *)
Definition flagged (v : VariableDeclaration) : VariableDeclaration :=
  {| name := name v; type := type v; isPointer := isPointer v;
     isInitialized := true; isParameter := isParameter v;
     scope := scope v; position := position v |}.










End Notions.

(** ** The matrix of [levenshteinDistance] while it is filled *)

Module MatrixInvariant.
Import LibraryDetector Notions.

Section Matrix.
Variables (str1 str2 : string).

(** The length of row [i] once the rows up to [k] are complete and row
    [k + 1] holds its columns up to [m]. *)
Definition rowLength (k m i : nat) : nat :=
  if decide (i ≤ k) then S (String.length str1)
  else if decide (i = S k) then S m else 1.

(** The matrix at that moment: every cell written so far holds the distance
    between the two prefixes. *)
Definition filled (k m : nat) : list (list nat) :=
  (fun i => lev str2 str1 i <$> seq 0 (rowLength k m i))
  <$> seq 0 (S (String.length str2)).

(** The matrix while the second loop writes the first row. *)
Definition firstRow (t : nat) : list (list nat) :=
  (fun i => if decide (i = 0) then seq 0 t else [i])
  <$> seq 0 (S (String.length str2)).

End Matrix.

End MatrixInvariant.

(** ** Sample inputs *)

Module Samples.
Import JsString.

Definition noOccurrences : string → list Position := fun _ => [].

Definition at_ (r c : nat) : Position := {| row := r; column := c |}.

(** A tree that only answers for the occurrences of one name. *)
Definition treeOf (declarations : list VariableDeclaration) (variable : string)
    (usages dereferences : list Position) : ASTNode :=
  {| extractVariableDeclarations := declarations;
     findVariableUsages := fun n => if String.eqb n variable then usages else [];
     findPointerDereferences :=
       fun n => if String.eqb n variable then dereferences else [];
     extractIncludeDirectives := [];
     extractFunctionCalls := [] |}.

(** [int x;  x = 1;  y = x;]: a read after a write. *)
Definition readAfterWrite_lines : list string := [ "int x;"; "x = 1;"; "y = x;" ].

Definition readAfterWrite_x : VariableDeclaration :=
  {| name := "x"; type := "int"; isPointer := false; isInitialized := false;
     isParameter := false; scope := "global"; position := at_ 0 4 |}.

Definition readAfterWrite_tree : ASTNode :=
  treeOf [readAfterWrite_x] "x" [at_ 0 4; at_ 1 0; at_ 2 4] [].

(** [int *p;  y = *p;]: a pointer that is never written. *)
Definition wild_lines : list string := [ "int *p;"; "y = *p;" ].

Definition wild_p : VariableDeclaration :=
  {| name := "p"; type := "int"; isPointer := true; isInitialized := false;
     isParameter := false; scope := "global"; position := at_ 0 5 |}.

Definition wild_tree : ASTNode :=
  treeOf [wild_p] "p" [at_ 0 5; at_ 1 5] [at_ 1 5].

(** [int *p = NULL;  p = &x;  *p = 5;]: a reassignment between the null
    initialisation and the dereference. *)
Definition null_lines : list string := [ "int *p = NULL;"; "p = &x;"; "*p = 5;" ].

Definition null_p : VariableDeclaration :=
  {| name := "p"; type := "int"; isPointer := true; isInitialized := true;
     isParameter := false; scope := "global"; position := at_ 0 5 |}.

Definition null_tree : ASTNode :=
  treeOf [null_p] "p" [at_ 0 5; at_ 1 0; at_ 2 1] [at_ 2 1].

(** A use of the name on a line before its declaration:
    [void f(int n) { use(n); }] and then, in another function, [int n;]. *)
Definition earlier_lines : list string :=
  [ "void f(int n) { use(n); }"; "void g(void) {"; "  int n;"; "}" ].

Definition earlier_n : VariableDeclaration :=
  {| name := "n"; type := "int"; isPointer := false; isInitialized := false;
     isParameter := false; scope := "g"; position := at_ 2 6 |}.

Definition earlier_tree : ASTNode :=
  treeOf [earlier_n] "n" [at_ 0 11; at_ 0 20; at_ 2 6] [].

(** [int x;] and then [if (x == 5) {]. *)
Definition comparison_lines : list string := [ "int x;"; "if (x == 5) {" ].

Definition comparison_tree : ASTNode :=
  treeOf [readAfterWrite_x] "x" [at_ 0 4; at_ 1 4] [].

(** A call of a function named like a method of every object, before a
    call of a library function; no header is included.
<<
    int valueOf(int v) { return v; }
    int main(void) {
      int v = valueOf(3);
      putchar(v);
    }
>> *)
Definition inherited_lines : list string :=
  [ "int valueOf(int v) { return v; }"; "int main(void) {";
    "  int v = valueOf(3);"; "  putchar(v);"; "}" ].

Definition inherited_code : string :=
  String.concat (String "010"%char "") inherited_lines.

Definition call_valueOf : FunctionCall :=
  {| call_name := "valueOf"; call_position := at_ 2 10 |}.

Definition call_putchar : FunctionCall :=
  {| call_name := "putchar"; call_position := at_ 3 2 |}.

Definition inherited_tree : ASTNode :=
  {| extractVariableDeclarations := [];
     findVariableUsages := noOccurrences;
     findPointerDereferences := noOccurrences;
     extractIncludeDirectives := [];
     extractFunctionCalls := [call_valueOf; call_putchar] |}.

(** The same file without the first call. *)
Definition plain_tree : ASTNode :=
  {| extractVariableDeclarations := [];
     findVariableUsages := noOccurrences;
     findPointerDereferences := noOccurrences;
     extractIncludeDirectives := [];
     extractFunctionCalls := [call_putchar] |}.

(** [#include <STDIO.H>] and [#include <stdoi.h>]. *)
Definition include_upper : IncludeDirective :=
  {| headerName := "STDIO.H"; isSystemHeader := true; include_position := at_ 0 0 |}.

Definition include_typo : IncludeDirective :=
  {| headerName := "stdoi.h"; isSystemHeader := true; include_position := at_ 1 0 |}.

Definition spelling_code : string :=
  String.concat (String "010"%char "") [ "#include <STDIO.H>"; "#include <stdoi.h>" ].

Definition spelling_tree : ASTNode :=
  {| extractVariableDeclarations := [];
     findVariableUsages := noOccurrences;
     findPointerDereferences := noOccurrences;
     extractIncludeDirectives := [include_upper; include_typo];
     extractFunctionCalls := [] |}.

(** Issues of three files: [avl_tree.c], a file whose name ends in the same
    text, and another file. *)
Definition issueAt (path : string) (n : nat) : Issue :=
  {| file := path; line := n; category := "Uninitialized";
     message := UsedBeforeInit "x"; codeLine := "int x;" |}.

Definition report : list Issue :=
  [ issueAt "tests/avl_tree.c" 7; issueAt "tests/list.c" 7;
    issueAt "tests/avl_tree.c" 9; issueAt "tests/avl_tree.c" 16;
    issueAt "tests/list.c" 8 ].



(** A declaration that is no field, below a line with the text [struct]:
<<
    struct Node *head;
    int x;
    y = x;
>> *)
Definition shadowed_lines : list string := [ "struct Node *head;"; "int x;"; "y = x;" ].

Definition shadowed_x : VariableDeclaration :=
  {| name := "x"; type := "int"; isPointer := false; isInitialized := false;
     isParameter := false; scope := "global"; position := at_ 1 4 |}.

Definition shadowed_tree : ASTNode :=
  treeOf [shadowed_x] "x" [at_ 1 4; at_ 2 4] [].

(** The same with a pointer:
<<
    struct Node *head;
    int *p;
    y = *p;
>> *)
Definition shadowed_pointer_lines : list string :=
  [ "struct Node *head;"; "int *p;"; "y = *p;" ].

Definition shadowed_p : VariableDeclaration :=
  {| name := "p"; type := "int"; isPointer := true; isInitialized := false;
     isParameter := false; scope := "global"; position := at_ 1 5 |}.

Definition shadowed_pointer_tree : ASTNode :=
  treeOf [shadowed_p] "p" [at_ 1 5; at_ 2 5] [at_ 2 5].



End Samples.

(** * More notions for the statements *)

Module MoreNotions.
Import JsString VariableDetector Notions.

(** A line, once trimmed, holds one of the two texts [isStructField] looks
    for. *)
Definition hasStructMarker (l : string) : bool :=
  includes (trim l) "typedef struct" || includes (trim l) "struct ".

(** The lines [isStructField] reads for a declaration on row [n]: the five
    lines before it, or fewer at the top of the file. *)
Definition structWindow (sourceLines : list string) (n : nat) : list string :=
  firstn (n - (n - 5)) (skipn (n - 5) sourceLines).

(** The declarations of one scope, in their order. *)
Definition declaredIn (s : string) (declarations : list VariableDeclaration)
    : list VariableDeclaration :=
  List.filter (fun d => String.eqb (scope d) s) declarations.

End MoreNotions.

Module MoreSamples.
Import JsString Samples.

(** A field of a structure:
<<
    struct Node {
      int count;
    };
>> *)
Definition field_lines : list string := [ "struct Node {"; "  int count;"; "};" ].

Definition field_count : VariableDeclaration :=
  {| name := "count"; type := "int"; isPointer := false; isInitialized := false;
     isParameter := false; scope := "global"; position := at_ 1 6 |}.

Definition field_tree : ASTNode := treeOf [field_count] "count" [at_ 1 6] [].

End MoreSamples.

Module HeaderNotions.
Import JsString LibraryDetector Notions.

(** The name of the call is one that the table inherits. *)
Definition namedLikeInherited (call : FunctionCall) : bool :=
  bool_decide (call_name call ∈ objectPrototypeProperties).

(** The calls before the first one that is named like an inherited
    property. *)
Fixpoint checkedCalls (functionCalls : list FunctionCall) : list FunctionCall :=
  match functionCalls with
  | [] => []
  | call :: rest => if namedLikeInherited call then [] else call :: checkedCalls rest
  end.

(** The headers of a tabulated function none of which is among the names. *)
Definition missingHeaders (includedNames : list string) (call : FunctionCall)
    : option (list string) :=
  requiredHeaders ← STANDARD_LIBRARY_FUNCTIONS !! call_name call;
  if forallb (fun header => negb (bool_decide (header ∈ includedNames))) requiredHeaders
  then Some requiredHeaders else None.

End HeaderNotions.

Module HeaderSamples.
Import JsString Samples.

(** [#include <stdio.h>] before the call of [putchar]. *)
Definition include_stdio : IncludeDirective :=
  {| headerName := "stdio.h"; isSystemHeader := true; include_position := at_ 0 0 |}.

Definition included_tree : ASTNode :=
  {| extractVariableDeclarations := [];
     findVariableUsages := noOccurrences;
     findPointerDereferences := noOccurrences;
     extractIncludeDirectives := [include_stdio];
     extractFunctionCalls := [call_putchar] |}.

(** A system include with a name of thirteen units. *)
Definition long_name : string := "stdio_extra.h".

End HeaderSamples.

Module FormatNotions.
Import JsString Heuristic Notions.

(** The advice to pass an address to [scanf]. *)
Definition isAddressAdvice (issue : Issue) : bool :=
  match message issue with
  | ScanfNeedsAddress => true
  | _ => false
  end.

(** An argument of [scanf] for which the advice is given: it holds an
    identifier, does not start with an ampersand, and the identifier is not
    a known variable of type [char]. *)
Definition wantsAddress (getVar : string → option VariableInfo) (expr : string) : bool :=
  negb (isEmpty (getNameFromExpr expr))
  && negb (startsWith "&" (trim expr))
  && negb match getVar (getNameFromExpr expr) with
          | Some v => String.eqb (typeName v) "char"
          | None => false
          end.

(** The number of specifiers the engine takes the first argument to hold. *)
Definition specifiersOf (fmt : string) : nat :=
  match formatLiteral fmt with
  | Some body => formatSpecCount body
  | None => 0
  end.

(** The number of percent signs of a text. *)
Fixpoint percentSigns (fmt : string) : nat :=
  match fmt with
  | EmptyString => 0
  | String c rest => (if Ascii.eqb c "%"%char then 1 else 0) + percentSigns rest
  end.

(** No two percent signs next to each other. *)
Fixpoint noPercentPair (fmt : string) : bool :=
  match fmt with
  | String c (String c' _ as rest) =>
      negb (Ascii.eqb c "%"%char && Ascii.eqb c' "%"%char) && noPercentPair rest
  | _ => true
  end.

End FormatNotions.

Module FormatSamples.
Import JsString Heuristic.

(** The line [printf(fmt, x);]. *)
Definition variable_format_line : string := "printf(fmt, x);".

(** The line [scanf("%d %d", n, &m);]. *)
Definition scanf_line : string :=
  "scanf(" +:+ String dquote "%d %d" +:+ String dquote ", n, &m);".

End FormatSamples.

(** * Regular expressions

    The text analyses test their lines against regular expressions.  The
    expressions are kept as syntax and run by a backtracking matcher in the
    order ECMAScript prescribes: the alternatives of a disjunction from left
    to right, a greedy quantifier with the longest repetition first, a lazy
    one with the shortest first; an iteration that consumes nothing is
    rejected; the match that is found first is the result, and the search
    starts at the leftmost position. *)

Module Regex.
Import JsString.

Inductive Re :=
  | Eps                                  (* the empty pattern *)
  | Class (p : ascii → bool)             (* one code unit of a class *)
  | Lit (text : string)                  (* the code units of [text] *)
  | Seq (r1 r2 : Re)                     (* r1 r2 *)
  | Alt (r1 r2 : Re)                     (* r1|r2 *)
  | Star (greedy : bool) (r : Re)        (* r* and r*? *)
  | Opt (r : Re)                         (* r? *)
  | Group (n : nat) (r : Re)             (* the capturing group number n *)
  | Bol                                  (* ^ *)
  | Eol                                  (* $ *)
  | WordBoundary.                        (* \b *)

(** r+ and r+? *)
Definition Plus (greedy : bool) (r : Re) : Re := Seq r (Star greedy r).

(** The state of the matcher: the position, the code unit before it, the
    text from it on, and the groups captured so far, the latest first. *)
Record MatchState := {
  pos : nat;
  previous : option ascii;
  rest : string;
  captures : list (nat * string)
}.

Definition step (st : MatchState) (c : ascii) (s' : string) : MatchState :=
  {| pos := S (pos st); previous := Some c; rest := s'; captures := captures st |}.

Fixpoint skip (n : nat) (st : MatchState) : MatchState :=
  match n, rest st with
  | S n', String c s' => skip n' (step st c s')
  | _, _ => st
  end.

Definition capture (n : nat) (from to : MatchState) : MatchState :=
  {| pos := pos to; previous := previous to; rest := rest to;
     captures := (n, take (rest from) (pos to - pos from)) :: captures to |}.

Definition atWordBoundary (st : MatchState) : bool :=
  let before := match previous st with Some c => isWordChar c | None => false end in
  let after := match rest st with String c _ => isWordChar c | EmptyString => false end in
  xorb before after.

(** [run r st k]: the first way, in the order of the matcher, to match [r]
    from [st] such that the continuation [k] succeeds on what follows. *)
Fixpoint run (r : Re) (st : MatchState) (k : MatchState → option MatchState)
    : option MatchState :=
  match r with
  | Eps => k st
  | Class p =>
      match rest st with
      | String c s' => if p c then k (step st c s') else None
      | EmptyString => None
      end
  | Lit text =>
      if startsWith text (rest st) then k (skip (String.length text) st) else None
  | Seq r1 r2 => run r1 st (fun st' => run r2 st' k)
  | Alt r1 r2 =>
      match run r1 st k with
      | Some m => Some m
      | None => run r2 st k
      end
  | Star greedy r1 =>
      (fix iterate (fuel : nat) (st : MatchState) : option MatchState :=
         match fuel with
         | 0 => k st
         | S fuel' =>
             if greedy
             then
               match run r1 st (fun st' => if pos st' =? pos st then None
                                           else iterate fuel' st') with
               | Some m => Some m
               | None => k st
               end
             else
               match k st with
               | Some m => Some m
               | None => run r1 st (fun st' => if pos st' =? pos st then None
                                               else iterate fuel' st')
               end
         end) (String.length (rest st)) st
  | Opt r1 =>
      match run r1 st k with
      | Some m => Some m
      | None => k st
      end
  | Group n r1 => run r1 st (fun st' => k (capture n st st'))
  | Bol => if pos st =? 0 then k st else None
  | Eol => if isEmpty (rest st) then k st else None
  | WordBoundary => if atWordBoundary st then k st else None
  end.

(** A match: where it starts, and the state at its end. *)
Record Match := {
  index : nat;
  final : MatchState
}.

Fixpoint searchFrom (r : Re) (p : nat) (prev : option ascii) (s : string)
    : option Match :=
  match run r {| pos := p; previous := prev; rest := s; captures := [] |} Some with
  | Some m => Some {| index := p; final := m |}
  | None =>
      match s with
      | String c s' => searchFrom r (S p) (Some c) s'
      | EmptyString => None
      end
  end.

(** [s.match(r)] and [r.exec(s)] for an expression without the flag [g]. *)
Definition exec (r : Re) (s : string) : option Match := searchFrom r 0 None s.

(** [r.test(s)]. *)
Definition test (r : Re) (s : string) : bool :=
  match exec r s with Some _ => true | None => false end.

(** [m[n]] for a group that took part in the match. *)
Definition group (n : nat) (m : Match) : option string :=
  snd <$> List.find (fun entry => fst entry =? n) (captures (final m)).

(** The text matched. *)
Definition matched (s : string) (m : Match) : string :=
  sliceTo s (index m) (pos (final m)).

(** Sequences and disjunctions of several patterns. *)
Fixpoint seqs (rs : list Re) : Re :=
  match rs with
  | [] => Eps
  | [r] => r
  | r :: rest => Seq r (seqs rest)
  end.

Fixpoint alts (rs : list Re) : Re :=
  match rs with
  | [] => Class (fun _ => false)
  | [r] => r
  | r :: rest => Alt r (alts rest)
  end.

(** The classes [\s] and [\w], and a class of one code unit or without
    one. *)
Definition space : Re := Class isWhiteSpace.
Definition word : Re := Class isWordChar.
Definition chr (c : ascii) : Re := Class (Ascii.eqb c).
Definition notChr (c : ascii) : Re := Class (fun d => negb (Ascii.eqb c d)).

(** [(s.match(/c/g) || []).length]: the number of code units [c]. *)
Fixpoint countChar (c : ascii) (s : string) : nat :=
  match s with
  | EmptyString => 0
  | String d s' => (if Ascii.eqb c d then 1 else 0) + countChar c s'
  end.

End Regex.

(** * The text analysis of the front end

    [fallbackTextAnalysis], which the front end runs on a file when the
    parser cannot be loaded, in its two versions, and the helpers of the
    first one.  An access to a line that does not exist gives [undefined],
    on which [trim] throws: the helpers return [None] then. *)

Module TextFallback.
Import JsString Regex.

(** The texts of the messages, as the sources have them (in UTF-8). *)
Definition declaredNotInitialized : Message := OtherMessage "变量声明后未初始化".
Definition mallocWithoutHeader : Message := OtherMessage "使用malloc但未包含<stdlib.h>".
Definition printfWithoutHeader : Message := OtherMessage "使用printf但未包含<stdio.h>".
Definition freeWithoutHeader : Message := OtherMessage "使用free但未包含<stdlib.h>".
Definition stdioWithoutHeader : Message := OtherMessage "使用stdio函数但未包含<stdio.h>".
Definition mathWithoutHeader : Message := OtherMessage "使用math函数但未包含<math.h>".

(** [(?:^|\s+)] *)
Definition lead : Re := Alt Bol (Plus true space).

(** [^\s*typedef\s+struct\s+\w*\s*\{] *)
Definition typedefStructHeader : Re :=
  seqs [ Bol; Star true space; Lit "typedef"; Plus true space; Lit "struct";
         Plus true space; Star true word; Star true space; chr "{" ].

(** [^\s*struct\s+\w*\s*\{] *)
Definition structHeader : Re :=
  seqs [ Bol; Star true space; Lit "struct"; Plus true space; Star true word;
         Star true space; chr "{" ].

(** [(?:^|\s+)(int|char|float|double|long|short)\s+(\w+)\s*(?:\[[^\]]*\])?\s*;] *)
Definition variableDeclaration : Re :=
  seqs [ lead;
         Group 1 (alts [ Lit "int"; Lit "char"; Lit "float"; Lit "double";
                         Lit "long"; Lit "short" ]);
         Plus true space; Group 2 (Plus true word); Star true space;
         Opt (seqs [ chr "["; Star true (notChr "]"); chr "]" ]);
         Star true space; chr ";" ].

(** [(?:int|void|char|float|double)] *)
Definition returnType : Re :=
  alts [ Lit "int"; Lit "void"; Lit "char"; Lit "float"; Lit "double" ].

(** [(?:^|\s+)(?:int|void|char|float|double)\s+\w+\s*\([^)]*\)\s*\{] *)
Definition functionDefinition : Re :=
  seqs [ lead; returnType; Plus true space; Plus true word; Star true space;
         chr "("; Star true (notChr ")"); chr ")"; Star true space; chr "{" ].

(** [(?:^|\s+)(?:int|void|char|float|double)\s+\w+\s*\([^)]*\)\s*;] *)
Definition prototype : Re :=
  seqs [ lead; returnType; Plus true space; Plus true word; Star true space;
         chr "("; Star true (notChr ")"); chr ")"; Star true space; chr ";" ].

(** [(?:^|\s+)(?:int|void|char|float|double)\s+\w+\s*\((P)\)], where [P]
    stands for [[^)]*]: the group is the text between the parentheses. *)
Definition functionHead : Re :=
  seqs [ lead; returnType; Plus true space; Plus true word; Star true space;
         chr "("; Group 1 (Star true (notChr ")")); chr ")" ].

(** [^#] and [^\s*$] *)
Definition directive : Re := Seq Bol (chr "#").
Definition blank : Re := seqs [ Bol; Star true space; Eol ].

(** [(?:^|\s+)(?:int|void|char|float|double|struct|typedef)] *)
Definition declarationStart : Re :=
  Seq lead (alts [ Lit "int"; Lit "void"; Lit "char"; Lit "float"; Lit "double";
                   Lit "struct"; Lit "typedef" ]).

(** [\w+\s*\[[^\]]*\]\s*;] *)
Definition arrayDeclaration : Re :=
  seqs [ Plus true word; Star true space; chr "["; Star true (notChr "]");
         chr "]"; Star true space; chr ";" ].

(** [NAME\s*\(], and the same with a choice of names. *)
Definition callOf (names : list string) : Re :=
  seqs [ alts (Lit <$> names); Star true space; chr "(" ].

(** [int\s+\w+\s*;] *)
Definition intDeclaration : Re :=
  seqs [ Lit "int"; Plus true space; Plus true word; Star true space; chr ";" ].

(** *** The helpers *)

Definition isArrayDeclaration (line : string) : bool := test arrayDeclaration line.

(** The loop of [isFunctionParameter], for [i] from [n - 1] down to 0. *)
Fixpoint isFunctionParameter_from (sourceLines : list string) (varName : string)
    (n : nat) : option bool :=
  match n with
  | 0 => Some false
  | S i =>
      raw ← sourceLines !! i;
      let line := trim raw in
      let inParams :=
        match exec functionHead line with
        | Some funcMatch =>
            match group 1 funcMatch with
            | Some params => includes params varName
            | None => false
            end
        | None => false
        end in
      if inParams then Some true
      else if includes line "{" || test prototype line then Some false
      else isFunctionParameter_from sourceLines varName i
  end.

Definition isFunctionParameter (sourceLines : list string) (lineIndex : nat)
    (varName : string) : option bool :=
  isFunctionParameter_from sourceLines varName (S lineIndex).

(** The inner loop of [isInFunctionContext], for [j] from [n - 1] down to
    0; when it ends, the outer loop is left and the answer is [false]. *)
Fixpoint enclosingFunction (sourceLines : list string) (braceCount : Z) (n : nat)
    : option bool :=
  match n with
  | 0 => Some false
  | S j =>
      raw ← sourceLines !! j;
      let checkLine := trim raw in
      let braceCount := (braceCount + Z.of_nat (countChar "{" checkLine))%Z in
      let braceCount := (braceCount - Z.of_nat (countChar "}" checkLine))%Z in
      if (braceCount <? 0)%Z then Some false
      else if test functionDefinition checkLine then Some true
      else enclosingFunction sourceLines braceCount j
  end.

Fixpoint isInFunctionContext_from (sourceLines : list string) (n : nat) : option bool :=
  match n with
  | 0 => Some false
  | S i =>
      raw ← sourceLines !! i;
      let line := trim raw in
      if test functionDefinition line then Some true
      else if includes line "{" && negb (includes line "}")
      then enclosingFunction sourceLines 0 (S i)
      else if test prototype line || test directive line || test blank line
      then Some false
      else isInFunctionContext_from sourceLines i
  end.

Definition isInFunctionContext (sourceLines : list string) (lineIndex : nat)
    : option bool :=
  isInFunctionContext_from sourceLines (S lineIndex).

Fixpoint isGlobalVariable_from (sourceLines : list string) (n : nat) : option bool :=
  match n with
  | 0 => Some true
  | S i =>
      raw ← sourceLines !! i;
      let line := trim raw in
      if test functionDefinition line then Some false
      else if includes line "{" then Some false
      else if startsWith "#" line || isEmpty line
      then isGlobalVariable_from sourceLines i
      else if test declarationStart line then Some true
      else isGlobalVariable_from sourceLines i
  end.

Definition isGlobalVariable (sourceLines : list string) (lineIndex : nat)
    : option bool :=
  isGlobalVariable_from sourceLines (S lineIndex).

(** *** The first version *)

(** The state of the first loop: [structContexts] holds the line numbers
    that are marked. *)
Record StructScan := {
  inStruct : bool;
  braceCount : Z;
  structContexts : gset nat
}.

(** One iteration of the first loop, for the line [raw] at index [i]. *)
Definition structScanStep (scan : StructScan) (i : nat) (raw : string) : StructScan :=
  let line := trim raw in
  let scan :=
    if test typedefStructHeader line || test structHeader line
    then {| inStruct := true; braceCount := 1; structContexts := structContexts scan |}
    else scan in
  let scan :=
    if inStruct scan
    then
      let openBraces := countChar "{" line in
      let closeBraces := countChar "}" line in
      let braceCount := (braceCount scan + (Z.of_nat openBraces - Z.of_nat closeBraces))%Z in
      {| inStruct := if (braceCount <=? 0)%Z then false else true;
         braceCount := braceCount;
         structContexts := structContexts scan |}
    else scan in
  if inStruct scan
  then {| inStruct := inStruct scan; braceCount := braceCount scan;
          structContexts := {[ i + 1 ]} ∪ structContexts scan |}
  else scan.

Fixpoint structScanLoop (i : nat) (lines : list string) (scan : StructScan)
    : StructScan :=
  match lines with
  | [] => scan
  | raw :: rest => structScanLoop (S i) rest (structScanStep scan i raw)
  end.

Definition structScan (sourceLines : list string) : StructScan :=
  structScanLoop 0 sourceLines
    {| inStruct := false; braceCount := 0; structContexts := ∅ |}.

Definition textIssue (filePath : string) (lineNumber : nat) (category : string)
    (message : Message) (codeLine : string) : Issue :=
  {| file := filePath; line := lineNumber; category := category;
     message := message; codeLine := codeLine |}.

(** The check for a declaration without initialiser on the line at index
    [i]: whether the issue is pushed.  Group 2 is captured in every match
    of the expression. *)
Definition declarationIsReported (sourceLines : list string) (contexts : gset nat)
    (i : nat) (line : string) : option bool :=
  if negb (bool_decide (i + 1 ∈ contexts))
  then
    match exec variableDeclaration line with
    | Some varMatch =>
        if negb (includes line "=") && negb (includes line "(")
           && negb (includes line "return")
        then
          let varName := default "" (group 2 varMatch) in
          if negb (isArrayDeclaration line)
          then
            isParameter ← isFunctionParameter sourceLines i varName;
            if negb isParameter
            then
              isGlobal ← isGlobalVariable sourceLines i;
              if isGlobal : bool then Some true else isInFunctionContext sourceLines i
            else Some false
          else Some false
        else Some false
    | None => Some false
    end
  else Some false.

(** The five checks for library functions on one line. *)
Definition headerIssues (filePath sourceCode : string) (lineNumber : nat)
    (line codeLine : string) : list Issue :=
  (if test (callOf ["malloc"]) line && negb (includes sourceCode "#include <stdlib.h>")
   then [textIssue filePath lineNumber "Header" mallocWithoutHeader codeLine] else [])
  ++ (if test (callOf ["printf"]) line && negb (includes sourceCode "#include <stdio.h>")
      then [textIssue filePath lineNumber "Header" printfWithoutHeader codeLine] else [])
  ++ (if test (callOf ["free"]) line && negb (includes sourceCode "#include <stdlib.h>")
      then [textIssue filePath lineNumber "Header" freeWithoutHeader codeLine] else [])
  ++ (if test (callOf ["scanf"; "fprintf"; "fprintf"]) line
         && negb (includes sourceCode "#include <stdio.h>")
      then [textIssue filePath lineNumber "Header" stdioWithoutHeader codeLine] else [])
  ++ (if test (callOf ["sin"; "cos"; "tan"; "sqrt"; "pow"]) line
         && negb (includes sourceCode "#include <math.h>")
      then [textIssue filePath lineNumber "Header" mathWithoutHeader codeLine] else []).

(** One iteration of the second loop: the issues it pushes. *)
Definition lineIssues (filePath sourceCode : string) (sourceLines : list string)
    (contexts : gset nat) (i : nat) (line : string) : option (list Issue) :=
  let lineNumber := i + 1 in
  reported ← declarationIsReported sourceLines contexts i line;
  Some ((if reported : bool
         then [textIssue filePath lineNumber "Uninitialized" declaredNotInitialized
                 (trim line)]
         else [])
        ++ headerIssues filePath sourceCode lineNumber line (trim line)).

Fixpoint linesLoop (filePath sourceCode : string) (sourceLines : list string)
    (contexts : gset nat) (i : nat) (lines : list string) (issues : list Issue)
    : option (list Issue) :=
  match lines with
  | [] => Some issues
  | line :: rest =>
      pushed ← lineIssues filePath sourceCode sourceLines contexts i line;
      linesLoop filePath sourceCode sourceLines contexts (S i) rest (issues ++ pushed)
  end.

Definition fallbackTextAnalysis (filePath sourceCode : string)
    (sourceLines : list string) : option (list Issue) :=
  let contexts := structContexts (structScan sourceLines) in
  linesLoop filePath sourceCode sourceLines contexts 0 sourceLines [].

(** *** The second version *)

Definition lineIssues2 (filePath sourceCode : string) (i : nat) (line : string)
    : list Issue :=
  (if test intDeclaration line && negb (includes line "=")
   then [textIssue filePath (i + 1) "Uninitialized" declaredNotInitialized line]
   else [])
  ++ (if test (callOf ["malloc"]) line && negb (includes sourceCode "#include <stdlib.h>")
      then [textIssue filePath (i + 1) "Header" mallocWithoutHeader line] else [])
  ++ (if test (callOf ["printf"]) line && negb (includes sourceCode "#include <stdio.h>")
      then [textIssue filePath (i + 1) "Header" printfWithoutHeader line] else []).

Fixpoint linesLoop2 (filePath sourceCode : string) (i : nat) (lines : list string)
    (issues : list Issue) : list Issue :=
  match lines with
  | [] => issues
  | line :: rest =>
      linesLoop2 filePath sourceCode (S i) rest
        (issues ++ lineIssues2 filePath sourceCode i line)
  end.

Definition fallbackTextAnalysis2 (filePath sourceCode : string)
    (sourceLines : list string) : list Issue :=
  linesLoop2 filePath sourceCode 0 sourceLines [].

(** [getCategoryFromSeverity] *)
Definition getCategoryFromSeverity (severity : Z) : string :=
  match severity with
  | 0%Z => "Error"
  | 1%Z => "Warning"
  | 2%Z => "Info"
  | 3%Z => "Hint"
  | _ => "Unknown"
  end.

End TextFallback.

Module TextNotions.
Import JsString Regex TextFallback.

(** The first loop takes the line for the start of a structure. *)
Definition isStructHeaderLine (raw : string) : bool :=
  test typedefStructHeader (trim raw) || test structHeader (trim raw).

(** The opening braces of a line less its closing braces, and the sum over
    several lines. *)
Definition braceDelta (raw : string) : Z :=
  (Z.of_nat (countChar "{" (trim raw)) - Z.of_nat (countChar "}" (trim raw)))%Z.

Fixpoint braceSum (lines : list string) : Z :=
  match lines with
  | [] => 0
  | raw :: rest => (braceDelta raw + braceSum rest)%Z
  end.

(** From the first of [lines] on, there are never more closing braces than
    opening ones. *)
Definition neverClosesMore (lines : list string) : bool :=
  forallb (fun n => (0 <=? braceSum (firstn n lines))%Z) (seq 0 (S (length lines))).

(** The same from every line of [lines] that starts a structure. *)
Definition structuresStayOpen (lines : list string) : bool :=
  forallb (fun i => match lines !! i with
                    | Some raw => if isStructHeaderLine raw
                                  then neverClosesMore (skipn i lines) else true
                    | None => true
                    end)
          (seq 0 (length lines)).

(** The issues of one line and of several lines from index [i] on, with
    nothing for a line at which a helper throws. *)
Definition issuesAt (filePath sourceCode : string) (sourceLines : list string)
    (contexts : gset nat) (i : nat) (line : string) : list Issue :=
  default [] (lineIssues filePath sourceCode sourceLines contexts i line).

Fixpoint issuesFrom (filePath sourceCode : string) (sourceLines : list string)
    (contexts : gset nat) (i : nat) (lines : list string) : list Issue :=
  match lines with
  | [] => []
  | line :: rest =>
      issuesAt filePath sourceCode sourceLines contexts i line
      ++ issuesFrom filePath sourceCode sourceLines contexts (S i) rest
  end.

Fixpoint issuesFrom2 (filePath sourceCode : string) (i : nat) (lines : list string)
    : list Issue :=
  match lines with
  | [] => []
  | line :: rest =>
      lineIssues2 filePath sourceCode i line ++ issuesFrom2 filePath sourceCode (S i) rest
  end.

(** Issues by their category and by their text. *)
Definition hasCategory (c : string) (issue : Issue) : bool :=
  String.eqb (category issue) c.

Definition hasMessage (m : Message) (issue : Issue) : bool :=
  match message issue, m with
  | OtherMessage text, OtherMessage text' => String.eqb text text'
  | _, _ => false
  end.

End TextNotions.

Module TextSamples.
Import JsString.

(** A function after a structure, and the function alone:
<<
    struct P { int x; };
    int main(void) {
      int y;
    }
>> *)
Definition main_lines : list string := [ "int main(void) {"; "  int y;"; "}" ].

Definition struct_lines : list string := "struct P { int x; };" :: main_lines.

Definition code_of (lines : list string) : string :=
  String.concat (String "010"%char "") lines.

(** A call of [malloc] after the include of its header. *)
Definition malloc_lines : list string :=
  [ "#include <stdlib.h>"; "char *p = malloc(4);" ].

End TextSamples.

(** * The scan of the heuristic engine

    The loop of [analyzeDirHeuristic] over the lines of one file, with its
    symbol tables.  A table is a [Map]: it keeps its keys in the order in
    which they were first set.  Every [VariableInfo] object is created for
    one entry of one table, so an assignment to a field of the object that
    [getVar] returns is an update of that entry. *)

Module HeuristicScan.
Import JsString Regex Heuristic.

(** *** Strings *)

(** [s.endsWith(p)] *)
Definition endsWith (s p : string) : bool := startsWith (rev p) (rev s).

(** [s.split(c)] for a separator of one code unit. *)
Fixpoint splitOn_from (sep : ascii) (s : string) (piece : list ascii) : list string :=
  match s with
  | EmptyString => [String.string_of_list_ascii (List.rev piece)]
  | String c rest =>
      if Ascii.eqb c sep
      then String.string_of_list_ascii (List.rev piece) :: splitOn_from sep rest []
      else splitOn_from sep rest (c :: piece)
  end.

Definition splitOn (sep : ascii) (s : string) : list string := splitOn_from sep s [].

(** [s.replace(/\*/g, '')] and [s.replace(/\*+/g, '')] *)
Fixpoint removeStars (s : string) : string :=
  match s with
  | EmptyString => EmptyString
  | String c rest =>
      if Ascii.eqb c "*"%char then removeStars rest else String c (removeStars rest)
  end.

(** [s.replace(/\s+/g, ' ')]; [inRun] tells that the code unit before was
    a blank. *)
Fixpoint collapseBlanks (inRun : bool) (s : string) : string :=
  match s with
  | EmptyString => EmptyString
  | String c rest =>
      if isWhiteSpace c
      then if inRun then collapseBlanks true rest
           else String " "%char (collapseBlanks true rest)
      else String c (collapseBlanks false rest)
  end.

(** *** Regular expressions *)

Definition identifierStart : Re := Class isIdentifierStart.
Definition notWord : Re := Class (fun c => negb (isWordChar c)).

(** [.]: any code unit but a line terminator. *)
Definition dot : Re :=
  Class (fun c => negb (Ascii.eqb c "010"%char || Ascii.eqb c "013"%char)).

(** [tokenContains]: [(^|[^\w])NAME([^\w]|$)] *)
Definition tokenContains (line name : string) : bool :=
  test (seqs [ Alt Bol notWord; Lit name; Alt notWord Eol ]) line.

(** [pointerDerefPatterns]: [\*NAME\b], [NAME\s*->] and [NAME\s*\[] *)
Definition pointerDerefPatterns (name : string) : list Re :=
  [ seqs [ chr "*"; Lit name; WordBoundary ];
    seqs [ Lit name; Star true space; Lit "->" ];
    seqs [ Lit name; Star true space; chr "[" ] ].

(** [pointerInitKind]: [=\s*(NULL|0)\b], [=\s*&] and
    [=\s*\b(malloc|calloc|realloc)\s*\(] *)
Definition pointerInitKind (line : string) : nat :=
  if test (seqs [ chr "="; Star true space; Group 1 (Alt (Lit "NULL") (Lit "0"));
                  WordBoundary ]) line then 1
  else if test (seqs [ chr "="; Star true space; chr "&" ]) line then 2
  else if test (seqs [ chr "="; Star true space; WordBoundary;
                       Group 1 (alts [ Lit "malloc"; Lit "calloc"; Lit "realloc" ]);
                       Star true space; chr "(" ]) line then 3
  else 0.

(** [^\s*([a-zA-Z_][\w\s\*]*?)\s+(.+)$] *)
Definition declarationHead : Re :=
  seqs [ Bol; Star true space;
         Group 1 (Seq identifierStart
                      (Star false (Class (fun c => isWordChar c || isWhiteSpace c
                                                   || Ascii.eqb c "*"%char))));
         Plus true space; Group 2 (Plus true dot); Eol ].

(** [\**\s*(ID)], where [ID] stands for [[a-zA-Z_][\w]*] *)
Definition declaratorName : Re :=
  seqs [ Star true (chr "*"); Star true space;
         Group 1 (Seq identifierStart (Star true word)) ].

(** [(ID)\s*$], where [ID] stands for [[a-zA-Z_][\w]*] *)
Definition lastName : Re :=
  seqs [ Group 1 (Seq identifierStart (Star true word)); Star true space; Eol ].

(** The expression built from the template [([\\*\s])?${name}\s*$]: in a
    template, [\\] is a backslash and [\s] is the letter s, so the pattern
    is [([\*s])?NAMEs*$].  Its group is not read. *)
Definition nameAtEnd (name : string) : Re :=
  seqs [ Opt (Class (fun c => Ascii.eqb c "*"%char || Ascii.eqb c "s"%char));
         Lit name; Star true (chr "s"); Eol ].

(** [\bfor\s*\(\s*;\s*;\s*\)], [\bwhile\s*\(\s*(1|true)\s*\)] and
    [\b(break|return|exit\s*\()\b] *)
Definition endlessFor : Re :=
  seqs [ WordBoundary; Lit "for"; Star true space; chr "("; Star true space; chr ";";
         Star true space; chr ";"; Star true space; chr ")" ].

Definition endlessWhile : Re :=
  seqs [ WordBoundary; Lit "while"; Star true space; chr "("; Star true space;
         Group 1 (Alt (Lit "1") (Lit "true")); Star true space; chr ")" ].

Definition leavesLoop : Re :=
  seqs [ WordBoundary;
         Group 1 (alts [ Lit "break"; Lit "return";
                         seqs [ Lit "exit"; Star true space; chr "(" ] ]);
         WordBoundary ].

(** *** Declarations *)

(** What [parseDecl] returns for one declarator; its fields [line] and
    [col] are always 0 and are not read. *)
Definition parseDeclarator (base : string) (raw : string) : option VariableInfo :=
  let it := trim raw in
  if isEmpty it || includes it "(" then None
  else
    let star := startsWith "*" it in
    match exec declaratorName it with
    | None => None
    | Some nameMatch =>
        let name := default "" (group 1 nameMatch) in
        let isPtr := star || includes base "*" in
        let isInit := includes it "=" in
        Some {| name := name; typeName := trim (removeStars base); isPointer := isPtr;
                isInitialized := isInit; firstUseLine := None |}
    end.

Definition parseDecl (line : string) : list VariableInfo :=
  let head := beforeFirst line ";" in
  match exec declarationHead head with
  | None => []
  | Some m =>
      let base := trim (default "" (group 1 m)) in
      let decls := default "" (group 2 m) in
      omap (parseDeclarator base) (splitOn "," decls)
  end.

(** *** Symbol tables *)

Definition Table := list (string * VariableInfo).

(** [table.get(key)] *)
Definition tableGet (table : Table) (key : string) : option VariableInfo :=
  snd <$> List.find (fun entry => String.eqb (fst entry) key) table.

(** [table.set(key, v)] *)
Fixpoint tableSet (table : Table) (key : string) (v : VariableInfo) : Table :=
  match table with
  | [] => [(key, v)]
  | (k, w) :: rest =>
      if String.eqb k key then (k, v) :: rest else (k, w) :: tableSet rest key v
  end.

(** The state of the scan of one file.  [localsStack] has its innermost
    table last, as the array has. *)
Record ScanState := {
  globals : Table;
  localsStack : list Table;
  funcStack : list string;
  braceDepth : nat
}.

Definition initialState : ScanState :=
  {| globals := []; localsStack := []; funcStack := []; braceDepth := 0 |}.

Definition currentLocals (st : ScanState) : option Table := last (localsStack st).

(** The loop of [getVar] over the tables, the innermost first. *)
Fixpoint getVarIn (tables : list Table) (name : string) : option VariableInfo :=
  match tables with
  | [] => None
  | table :: outer =>
      match tableGet table name with
      | Some v => Some v
      | None => getVarIn outer name
      end
  end.

Definition getVar (st : ScanState) (name : string) : option VariableInfo :=
  match getVarIn (List.rev (localsStack st)) name with
  | Some v => Some v
  | None => tableGet (globals st) name
  end.

(** An assignment to a field of the object that [getVar] returns: the
    entry of the innermost table that has the name is replaced. *)
Fixpoint updateIn (tables : list Table) (name : string)
    (f : VariableInfo → VariableInfo) : option (list Table) :=
  match tables with
  | [] => None
  | table :: outer =>
      match tableGet table name with
      | Some v => Some (tableSet table name (f v) :: outer)
      | None => cons table <$> updateIn outer name f
      end
  end.

Definition updateVar (st : ScanState) (name : string)
    (f : VariableInfo → VariableInfo) : ScanState :=
  match updateIn (List.rev (localsStack st)) name f with
  | Some tables =>
      {| globals := globals st; localsStack := List.rev tables;
         funcStack := funcStack st; braceDepth := braceDepth st |}
  | None =>
      match tableGet (globals st) name with
      | Some v =>
          {| globals := tableSet (globals st) name (f v);
             localsStack := localsStack st;
             funcStack := funcStack st; braceDepth := braceDepth st |}
      | None => st
      end
  end.

Definition setInitialized (v : VariableInfo) : VariableInfo :=
  {| name := name v; typeName := typeName v; isPointer := isPointer v;
     isInitialized := true; firstUseLine := firstUseLine v |}.

Definition setFirstUseLine (n : nat) (v : VariableInfo) : VariableInfo :=
  {| name := name v; typeName := typeName v; isPointer := isPointer v;
     isInitialized := isInitialized v; firstUseLine := Some n |}.

(** [markInit]: the state afterwards, and the number it returns. *)
Definition markInit (st : ScanState) (name lineText : string) : ScanState * nat :=
  match getVar st name with
  | None => (st, 0)
  | Some v =>
      (updateVar st name setInitialized,
       if isPointer v then pointerInitKind lineText else 0)
  end.

(** [new Set(items)], in insertion order. *)
Definition setAdd (set : list string) (x : string) : list string :=
  if bool_decide (x ∈ set) then set else set ++ [x].

Definition newSet (items : list string) : list string := fold_left setAdd items [].

(** The names the two loops over the variables go through. *)
Definition knownNames (st : ScanState) : list string :=
  newSet ((fst <$> globals st) ++ flat_map (fun m => fst <$> m) (localsStack st)).

(** *** One line *)

(** The scopes: one code unit of the line. *)
Definition braceStep (st : ScanState) (ch : ascii) : ScanState :=
  let st :=
    if Ascii.eqb ch "{"%char
    then {| globals := globals st; localsStack := localsStack st ++ [[]];
            funcStack := funcStack st ++ [""]; braceDepth := braceDepth st + 1 |}
    else st in
  if Ascii.eqb ch "}"%char
  then {| globals := globals st; localsStack := removelast (localsStack st);
          funcStack := removelast (funcStack st);
          braceDepth := Nat.max 0 (braceDepth st - 1) |}
  else st.

Definition trackScopes (st : ScanState) (raw : string) : ScanState :=
  fold_left braceStep (String.list_ascii_of_string raw) st.

(** [locals.set(...)] on the innermost table. *)
Definition setInCurrentLocals (st : ScanState) (key : string) (v : VariableInfo)
    : ScanState :=
  match currentLocals st with
  | Some locals =>
      {| globals := globals st;
         localsStack := removelast (localsStack st) ++ [tableSet locals key v];
         funcStack := funcStack st; braceDepth := braceDepth st |}
  | None => st
  end.

Definition setInGlobals (st : ScanState) (key : string) (v : VariableInfo) : ScanState :=
  {| globals := tableSet (globals st) key v; localsStack := localsStack st;
     funcStack := funcStack st; braceDepth := braceDepth st |}.

(** One parameter of the head of a function. *)
Definition addParameter (st : ScanState) (p : string) : ScanState :=
  let token := trim p in
  if isEmpty token then st
  else
    match exec lastName token with
    | None => st
    | Some nameMatch =>
        let name := default "" (group 1 nameMatch) in
        let isPtr := includes token "*" in
        let typePart :=
          trim (match exec (nameAtEnd name) token with
                | Some m => JsString.take token (index m) +:+ slice token (pos (final m))
                | None => token
                end) in
        let cleaned := trim (removeStars (collapseBlanks false typePart)) in
        let typeName := if isEmpty cleaned then "int" else cleaned in
        setInCurrentLocals st name
          {| name := name; typeName := typeName; isPointer := isPtr;
             isInitialized := true; firstUseLine := None |}
    end.

(** The head of a function definition. *)
Definition enterParameters (st : ScanState) (raw : string) : ScanState :=
  if includes raw "(" && includes raw ")" && endsWith (trim raw) "{"
     && negb (startsWith "#" (trimStart raw))
  then
    match search "(" raw, lastIndexOf raw ")" with
    | Some lp, Some rp =>
        if lp <? rp
        then
          let paramsRaw := trim (sliceTo raw (lp + 1) rp) in
          if negb (isEmpty paramsRaw) && negb (String.eqb paramsRaw "void")
          then
            let params := getArgsFromCall raw in
            match currentLocals st with
            | Some _ => fold_left addParameter params st
            | None => st
            end
          else st
        else st
    | _, _ => st
    end
  else st.

(** The declarations of a line. *)
Definition declare (st : ScanState) (vi : VariableInfo) : ScanState :=
  if braceDepth st =? 0 then setInGlobals st (name vi) vi
  else
    match currentLocals st with
    | Some _ => setInCurrentLocals st (name vi) vi
    | None => setInGlobals st (name vi) vi
    end.

(** The texts of the messages, as the sources have them (in UTF-8). *)
Definition endlessLoopMessage : Message := OtherMessage "潜在死循环（无显式退出）".
Definition wildPointerMessage : Message := OtherMessage "潜在野指针解引用（指针未初始化）".
Definition usedBeforeInitMessage : Message := OtherMessage "变量使用前未初始化".

Definition scanIssue (filePath : string) (i : nat) (raw category : string)
    (message : Message) : Issue :=
  {| file := filePath; line := i + 1; category := category;
     message := message; codeLine := raw |}.

(** The check for endless loops. *)
Definition endlessLoopIssues (filePath : string) (i : nat) (raw line : string)
    : list Issue :=
  if test endlessFor line || test endlessWhile line
  then if negb (test leavesLoop line)
       then [scanIssue filePath i raw "Infinite loop" endlessLoopMessage]
       else []
  else [].

(** The loop that marks assigned variables. *)
Definition markAssigned (line : string) (st : ScanState) (name : string) : ScanState :=
  if tokenContains line name && looksAssignmentTo line name
  then fst (markInit st name line)
  else st.

(** The loop that reports the uses: one name. *)
Definition reportUse (filePath : string) (i : nat) (raw line : string)
    (acc : ScanState * list Issue) (name : string) : ScanState * list Issue :=
  let (st, issues) := acc in
  if negb (tokenContains line name) then acc
  else
    match getVar st name with
    | None => acc
    | Some v =>
        if negb (isInitialized v)
        then
          let derefHit := existsb (fun r => test r line) (pointerDerefPatterns name) in
          let issue :=
            if isPointer v && derefHit
            then scanIssue filePath i raw "Wild pointer" wildPointerMessage
            else scanIssue filePath i raw "Uninitialized" usedBeforeInitMessage in
          let st :=
            match firstUseLine v with
            | None => updateVar st name (setFirstUseLine (i + 1))
            | Some _ => st
            end in
          (st, issues ++ [issue])
        else acc
    end.

(** One iteration of the loop over the lines: the state afterwards and the
    issues pushed. *)
Definition scanLine (filePath : string) (i : nat) (raw : string) (st : ScanState)
    : ScanState * list Issue :=
  let line := trim raw in
  if isEmpty line then (st, [])
  else if startsWith "#" line then (st, [])
  else
    let line := if includes line "//" then beforeFirst line "//" else line in
    let st := trackScopes st raw in
    let st := enterParameters st raw in
    if isLikelyDecl line
    then (fold_left declare (parseDecl line) st, [])
    else
      let issues := endlessLoopIssues filePath i raw line in
      let st := fold_left (markAssigned line) (knownNames st) st in
      let (st, issues) :=
        fold_left (reportUse filePath i raw line) (knownNames st) (st, issues) in
      (st, issues ++ checkPrintfScanf (getVar st) filePath i raw line).

Fixpoint scanLines (filePath : string) (i : nat) (lines : list string)
    (st : ScanState) (issues : list Issue) : ScanState * list Issue :=
  match lines with
  | [] => (st, issues)
  | raw :: rest =>
      let (st, pushed) := scanLine filePath i raw st in
      scanLines filePath (S i) rest st (issues ++ pushed)
  end.

(** The body of the loop over the files: the issues of one file. *)
Definition scanFile (filePath content : string) : list Issue :=
  snd (scanLines filePath 0 (splitLines content) initialState []).

(** [analyzeDirHeuristic] on a directory given by the names of its entries
    with their contents; [join] is [path.join(dir, _)]. *)
Definition analyzeDirHeuristic (join : string → string)
    (entries : list (string * string)) : list Issue :=
  flat_map (fun entry => scanFile (join (fst entry)) (snd entry))
           (List.filter (fun entry => endsWith (fst entry) ".c") entries).

End HeuristicScan.

Module ScanNotions.
Import JsString Regex Heuristic HeuristicScan.

(** The depth counts the open tables, and the two stacks have one entry
    each for every open table. *)
Definition inStep (st : ScanState) : Prop :=
  braceDepth st = length (localsStack st)
  ∧ length (funcStack st) = length (localsStack st).

(** The second state has the depth of the first and as many tables. *)
Definition sameShape (st st' : ScanState) : Prop :=
  braceDepth st' = braceDepth st
  ∧ length (localsStack st') = length (localsStack st)
  ∧ length (funcStack st') = length (funcStack st).

(** Every variable of every table is marked as initialised. *)
Definition initialisedTable (table : Table) : Prop :=
  Forall (fun entry => isInitialized (snd entry) = true) table.

Definition allInitialised (st : ScanState) : Prop :=
  initialisedTable (globals st) ∧ Forall initialisedTable (localsStack st).

(** The text of a line that the checks look at, as in [Notions]. *)
Definition scanned (raw : string) : string := Notions.scannedText raw.

(** The line is skipped before any check: it is empty or a directive. *)
Definition isSkipped (raw : string) : bool :=
  isEmpty (trim raw) || startsWith "#" (trim raw).

(** The line enters a variable that is not initialised into a table. *)
Definition declaresUninitialised (raw : string) : bool :=
  negb (isSkipped raw) && isLikelyDecl (scanned raw)
  && negb (forallb isInitialized (parseDecl (scanned raw))).

(** The issues of several lines from index [i] on, and the state after
    them. *)
Definition issuesOfLines (filePath : string) (i : nat) (lines : list string)
    (st : ScanState) : list Issue :=
  snd (scanLines filePath i lines st []).

Definition stateAfter (filePath : string) (i : nat) (lines : list string)
    (st : ScanState) : ScanState :=
  fst (scanLines filePath i lines st []).

(** The issues about the use of a variable, and those about formats. *)
Definition isUseIssue (issue : Issue) : bool :=
  String.eqb (category issue) "Uninitialized"
  || String.eqb (category issue) "Wild pointer".

Definition isFormatIssue (issue : Issue) : bool :=
  String.eqb (category issue) "Format".

End ScanNotions.

Module ScanSamples.
Import JsString Heuristic HeuristicScan.

(** A variable [n] of type [int]. *)
Definition variable_n : VariableInfo :=
  {| name := "n"; typeName := "int"; isPointer := false; isInitialized := false;
     firstUseLine := None |}.

(** A function that only uses its parameters. *)
Definition parameters_lines : list string :=
  [ "int add(int a, int b) {"; "  return a + b;"; "}" ].

End ScanSamples.

(** * Notions for the regular expressions of the text analysis *)

Module RegexNotions.
Import JsString Regex TextFallback.

(** [t] is the text from some position of [s] on. *)
Definition isSuffixOf (t s : string) : Prop := ∃ before, s = before +:+ t.

(** A state further on in the same text. *)
Definition furtherOn (st st' : MatchState) : Prop :=
  isSuffixOf (rest st') (rest st)
  ∧ pos st' + String.length (rest st') = pos st + String.length (rest st).

(** The loop of a quantifier, as [run] has it. *)
Definition iterateStar (greedy : bool) (r1 : Re) (k : MatchState → option MatchState) :=
  fix iterate (fuel : nat) (st : MatchState) : option MatchState :=
    match fuel with
    | 0 => k st
    | S fuel' =>
        if greedy
        then
          match run r1 st (fun st' => if pos st' =? pos st then None
                                      else iterate fuel' st') with
          | Some m => Some m
          | None => k st
          end
        else
          match k st with
          | Some m => Some m
          | None => run r1 st (fun st' => if pos st' =? pos st then None
                                          else iterate fuel' st')
          end
    end.

(** What follows the type in the expression of the check for
    declarations. *)
Definition declarationTail : Re :=
  seqs [ Plus true space; Group 2 (Plus true word); Star true space;
         Opt (seqs [ chr "["; Star true (notChr "]"); chr "]" ]);
         Star true space; chr ";" ].

(** The words of [declarationStart]. *)
Definition startWords : list string :=
  [ "int"; "void"; "char"; "float"; "double"; "struct"; "typedef" ].

(** The expression of the check for declarations, with the four types that
    it shares with the expression of [isGlobalVariable]. *)
Definition fourTypeDeclaration : Re :=
  seqs [ lead;
         Group 1 (alts [ Lit "int"; Lit "char"; Lit "float"; Lit "double" ]);
         Plus true space; Group 2 (Plus true word); Star true space;
         Opt (seqs [ chr "["; Star true (notChr "]"); chr "]" ]);
         Star true space; chr ";" ].

(** The text starts with one of the words of [declarationStart]. *)
Definition startsWithType (s : string) : bool :=
  existsb (fun t => startsWith t s) startWords.

(** One of these words stands at the start of the text, when [atStart]
    holds, or after a blank. *)
Fixpoint typeAfterBlank (atStart : bool) (s : string) : bool :=
  (atStart && startsWithType s)
  || match s with
     | EmptyString => false
     | String c s' =>
         (isWhiteSpace c && startsWithType (trimStart s')) || typeAfterBlank false s'
     end.

End RegexNotions.

Module RegexSamples.
Import JsString.

(** A declaration in a block of a function:
<<
    void run(void) {
      while (1) {
        int count;
      }
    }
>> *)
Definition block_lines : list string :=
  [ "void run(void) {"; "  while (1) {"; "    int count;"; "  }"; "}" ].

End RegexSamples.

(** * Properties *)

(** ** The variable detector *)

Section VariableDetectorFacts.
Import JsString VariableDetector Notions.
Variables (sourceLines : list string) (filePath : string).

(** The first loop, with its state made explicit: the flag is set as soon as
    one scanned occurrence is a write, and every scanned occurrence that is
    not a write adds its issue, whatever the flag is at that moment. *)
Lemma usageLoop_spec usages : ∀ v issues,
  onExistingLines sourceLines usages = true →
  usageLoop sourceLines filePath usages v issues
  = Some (if writtenDuringScan sourceLines v usages then markInitialized v else v,
          issues ++ map (uninitializedIssue filePath sourceLines v)
                        (readOccurrences sourceLines v usages)).
Proof.
  induction usages as [|u rest IH]; intros v issues Hrows; simpl.
  - by rewrite app_nil_r.
  - simpl in Hrows. apply andb_prop in Hrows as [Hu Hrest].
    apply Nat.ltb_lt, lookup_lt_is_Some_2 in Hu as [l Hl].
    unfold offDeclarationLine, isWriteOccurrence.
    destruct (row u =? row (position v)) eqn:Hrow; simpl.
    + by rewrite IH.
    + rewrite Hl; simpl.
      destruct (isAssignmentTarget l (name v) (column u)) eqn:Hw; simpl.
      * rewrite IH by done. f_equal. f_equal.
        by destruct (writtenDuringScan _ _ _).
      * rewrite IH by done. by rewrite <- app_assoc.
Qed.

Lemma dereferenceLoop_spec dereferences : ∀ v issues,
  dereferenceLoop sourceLines filePath dereferences v issues
  = issues ++ (if isPointer v && negb (isInitialized v)
               then map (wildPointerIssue filePath sourceLines v)
                        (List.filter (offDeclarationLine v) dereferences)
               else []).
Proof.
  induction dereferences as [|d rest IH]; intros v issues; simpl.
  - destruct (_ && _); by rewrite app_nil_r.
  - unfold offDeclarationLine at 1.
    destruct (row d =? row (position v)); simpl; [apply IH|].
    destruct (isPointer v && negb (isInitialized v)) eqn:Hp.
    + rewrite IH, Hp. by rewrite <- app_assoc.
    + by rewrite IH, Hp.
Qed.

Lemma nullDereferenceLoop_spec dereferences : ∀ p issues,
  nullDereferenceLoop sourceLines filePath dereferences p issues
  = issues ++ map (nullPointerIssue filePath sourceLines p)
                  (List.filter (afterDeclaration p) dereferences).
Proof.
  induction dereferences as [|d rest IH]; intros p issues; simpl.
  - by rewrite app_nil_r.
  - unfold afterDeclaration at 1.
    destruct (row (position p) <? row d); rewrite IH; [|done].
    by rewrite <- app_assoc.
Qed.

Lemma nullPointerLoop_spec ast nullPointers : ∀ issues,
  nullPointerLoop sourceLines filePath ast nullPointers issues
  = issues ++ flat_map (fun p =>
                 map (nullPointerIssue filePath sourceLines p)
                     (List.filter (afterDeclaration p)
                                  (findPointerDereferences ast (name p))))
               nullPointers.
Proof.
  induction nullPointers as [|p rest IH]; intros issues; simpl.
  - by rewrite app_nil_r.
  - rewrite IH, nullDereferenceLoop_spec. by rewrite <- app_assoc.
Qed.

(** Occurrences on the declaration line never reach the body of the loops. *)
Lemma usageLoop_skips_declaration_line usages : ∀ v issues,
  usageLoop sourceLines filePath (List.filter (offDeclarationLine v) usages) v issues
  = usageLoop sourceLines filePath usages v issues.
Proof.
  induction usages as [|u rest IH]; intros v issues; [done|].
  simpl. unfold offDeclarationLine at 1.
  destruct (row u =? row (position v)) eqn:Hrow; simpl; [apply IH|].
  rewrite Hrow. destruct (sourceLines !! row u) as [l|]; simpl; [|done].
  destruct (isAssignmentTarget l (name v) (column u)); [|apply IH].
  apply (IH (markInitialized v)).
Qed.

Lemma dereferenceLoop_skips_declaration_line dereferences v issues :
  dereferenceLoop sourceLines filePath
    (List.filter (offDeclarationLine v) dereferences) v issues
  = dereferenceLoop sourceLines filePath dereferences v issues.
Proof.
  rewrite !dereferenceLoop_spec.
  replace (List.filter (offDeclarationLine v)
             (List.filter (offDeclarationLine v) dereferences))
    with (List.filter (offDeclarationLine v) dereferences); [done|].
  induction dereferences as [|d rest IH]; [done|]. simpl.
  destruct (offDeclarationLine v d) eqn:Hd; simpl; rewrite ?Hd; by rewrite <- IH.
Qed.

(** The scan hands the declaration back as it was, or with the flag set. *)
Lemma usageLoop_declaration usages : ∀ v issues v' issues',
  usageLoop sourceLines filePath usages v issues = Some (v', issues') →
  v' = v ∨ v' = markInitialized v.
Proof.
  induction usages as [|u rest IH]; intros v issues v' issues'; simpl.
  - intros [= <- _]. by left.
  - destruct (row u =? row (position v)); [apply IH|].
    destruct (sourceLines !! row u) as [l|]; simpl; [|done].
    destruct (isAssignmentTarget l (name v) (column u)); [|apply IH].
    intros [-> | ->]%IH; by right.
Qed.

(** What the regular expression of [isAssignmentTarget] accepts. *)
Lemma startsWithAssignment_iff s :
  startsWithAssignment s = true
  ↔ (∃ rest, s = String "="%char rest)
    ∨ (∃ c rest, isCompoundOperatorChar c = true ∧ s = String c (String "="%char rest)).
Proof.
  unfold startsWithAssignment. split.
  - destruct s as [|a rest]; [done|].
    destruct (Ascii.eqb a "=") eqn:Ha.
    + apply Ascii.eqb_eq in Ha as ->. intros _. left. by eexists.
    + destruct rest as [|b rest']; [done|]. intros [Hc Hb]%andb_prop.
      apply Ascii.eqb_eq in Hb as ->. right. by eexists _, _.
  - intros [[rest ->]|(c & rest & Hc & ->)]; [done|].
    destruct (Ascii.eqb c "="); [done|]. by rewrite Hc.
Qed.

(** The operators [<=], [>=] and [!=] are not accepted. *)
Lemma startsWithAssignment_relational c rest :
  c = "<"%char ∨ c = ">"%char ∨ c = "!"%char →
  startsWithAssignment (String c rest) = false.
Proof.
  intros [-> | [-> | ->]]; simpl; by destruct rest.
Qed.

End VariableDetectorFacts.

Section OccurrenceFacts.
Import JsString VariableDetector Notions.
Variables (sourceLines : list string) (filePath : string).

(** The regular expression of [isAssignmentTarget] accepts the assignment
    operators and the equality test. *)
Lemma startsWithAssignment_split s :
  startsWithAssignment s = startsWithAssignmentOperator s || startsWith "==" s.
Proof.
  unfold startsWithAssignment, startsWithAssignmentOperator, assignmentOperators.
  destruct s as [|a [|b rest]]; [done| |].
  - by destruct a as [[] [] [] [] [] [] [] []].
  - cbn [existsb startsWith]. rewrite (Ascii.eqb_sym b).
    generalize (Ascii.eqb "=" b). intros second.
    destruct a as [[] [] [] [] [] [] [] []]; cbn; by destruct second.
Qed.

Lemma isWriteOccurrence_split v u :
  isWriteOccurrence sourceLines v u
  = isAssignedAt sourceLines v u || isComparedAt sourceLines v u.
Proof.
  unfold isWriteOccurrence, isAssignedAt, isComparedAt, followedBy, textAfterName,
    isAssignmentTarget.
  destruct (sourceLines !! row u) as [line|]; [|done].
  destruct (indexOf line (name v) (column u)) as [varIndex|]; [|done].
  cbn [mbind option_bind]. apply startsWithAssignment_split.
Qed.

(** The scan of a list of occurrences is the scan of its first part, and
    then that of the rest from the state the first part leaves. *)
Lemma usageLoop_app before : ∀ rest v issues,
  usageLoop sourceLines filePath (before ++ rest) v issues
  = '(v', issues') ← usageLoop sourceLines filePath before v issues;
    usageLoop sourceLines filePath rest v' issues'.
Proof.
  induction before as [|u before IH]; intros rest v issues; [done|].
  cbn [app usageLoop]. destruct (row u =? row (position v)); [apply IH|].
  destruct (sourceLines !! row u) as [line|]; [|done]. cbn [mbind option_bind].
  destruct (isAssignmentTarget line (name v) (column u)); apply IH.
Qed.

Lemma markInitialized_flagged v : markInitialized v = flagged v.
Proof. reflexivity. Qed.

End OccurrenceFacts.

Section VariableDetectorClaims.
Import JsString VariableDetector Notions Samples.

(** C1, as the sources have it.  Take a scalar declaration without
    initialiser that is no parameter and that [isStructField] does not take
    for a field, and let the occurrences of its name lie on lines of the
    file.  [checkVariableUsage] goes through the occurrences in the order of
    the list and returns one Uninitialized issue, with the line, the column
    and the text of the line of the occurrence and with the name of the
    variable, for every occurrence off the declaration line that it does not
    take for a write, and nothing else.  It takes for a write every
    occurrence that an assignment operator follows, and no occurrence that
    neither an assignment operator nor the equality test follows.  The
    decision for an occurrence does not look at [isInitialized]: when a
    write stands before a read in the list, the flag is set by the time the
    scan reaches the read, and the read is reported all the same. *)
Theorem C1_reads_reported_whatever_the_flag
    (sourceLines : list string) (filePath : string) (ast : ASTNode)
    (v : VariableDeclaration) :
  isInitialized v = false →
  isParameter v = false →
  isPointer v = false →
  isStructField sourceLines (row (position v)) = Some false →
  onExistingLines sourceLines (findVariableUsages ast (name v)) = true →
  let usages := findVariableUsages ast (name v) in
  let issueOf (u : Position) :=
    {| d_file := filePath; d_line := row u + 1; d_column := column u;
       d_category := "Uninitialized"; d_message := UsedBeforeInit (name v);
       d_severity := 1; d_codeLine := default "" (sourceLines !! row u) |} in
  ∃ takenForWrite : Position → bool,
    (∀ u, u ∈ usages → isAssignedAt sourceLines v u = true → takenForWrite u = true)
    ∧ (∀ u, u ∈ usages → takenForWrite u = true →
         isAssignedAt sourceLines v u = true ∨ isComparedAt sourceLines v u = true)
    ∧ checkVariableUsage sourceLines filePath ast v
      = Some (if existsb (fun u => offDeclarationLine v u && takenForWrite u) usages
              then flagged v else v,
              map issueOf
                (List.filter (fun u => offDeclarationLine v u && negb (takenForWrite u))
                             usages))
    ∧ (∀ before u after,
         usages = before ++ u :: after →
         (∃ w, w ∈ before ∧ offDeclarationLine v w = true
               ∧ isAssignedAt sourceLines v w = true) →
         offDeclarationLine v u = true →
         isAssignedAt sourceLines v u = false →
         isComparedAt sourceLines v u = false →
         ∃ vb issuesBefore rest,
           usageLoop sourceLines filePath before v [] = Some (vb, issuesBefore)
           ∧ isInitialized vb = true
           ∧ usageLoop sourceLines filePath (u :: after) vb issuesBefore
             = Some (flagged v, issuesBefore ++ issueOf u :: rest)
           ∧ checkVariableUsage sourceLines filePath ast v
             = Some (flagged v, issuesBefore ++ issueOf u :: rest)).
Proof.
  intros Hinit Hpar Hptr Hstruct Hrows usages issueOf.
  assert (Hcheck : checkVariableUsage sourceLines filePath ast v
                   = usageLoop sourceLines filePath usages v []).
  { unfold checkVariableUsage. rewrite Hinit, Hpar, Hstruct. cbn [orb mbind option_bind].
    cbv zeta. fold usages. rewrite (usageLoop_spec _ _ _ _ _ Hrows).
    cbn [mbind option_bind]. rewrite dereferenceLoop_spec.
    replace (isPointer _) with false by (by destruct (writtenDuringScan _ _ _)).
    cbn [andb]. by rewrite app_nil_r. }
  exists (isWriteOccurrence sourceLines v). split; [|split; [|split]].
  - intros u _ Hu. by rewrite isWriteOccurrence_split, Hu.
  - intros u _ Hu. rewrite isWriteOccurrence_split in Hu. by apply orb_prop.
  - rewrite Hcheck, (usageLoop_spec _ _ _ _ _ Hrows). done.
  - intros before u after Husages (w & Hw & Hoff & Hassigned) Hu Hnot Hnor.
    assert (Hrows' : onExistingLines sourceLines before = true
                     ∧ onExistingLines sourceLines (u :: after) = true).
    { unfold onExistingLines in *. fold usages in Hrows.
      rewrite Husages, forallb_app in Hrows. by apply andb_prop in Hrows. }
    destruct Hrows' as [Hbefore Hafter].
    assert (Hwritten : writtenDuringScan sourceLines v before = true).
    { apply existsb_exists. exists w. split; [by apply list_elem_of_In|].
      by rewrite Hoff, isWriteOccurrence_split, Hassigned. }
    assert (Hread : isWriteOccurrence sourceLines v u = false).
    { by rewrite isWriteOccurrence_split, Hnot, Hnor. }
    pose proof (usageLoop_spec sourceLines filePath before v [] Hbefore) as Hfirst.
    rewrite Hwritten in Hfirst. cbn [app] in Hfirst.
    pose proof (usageLoop_spec sourceLines filePath (u :: after) (markInitialized v)
                  (map (uninitializedIssue filePath sourceLines v)
                       (readOccurrences sourceLines v before)) Hafter) as Hsecond.
    replace (if writtenDuringScan sourceLines (markInitialized v) (u :: after)
             then markInitialized (markInitialized v) else markInitialized v)
      with (flagged v) in Hsecond
      by (by destruct (writtenDuringScan sourceLines (markInitialized v) (u :: after))).
    assert (Hsplit : readOccurrences sourceLines (markInitialized v) (u :: after)
                     = u :: readOccurrences sourceLines v after).
    { unfold readOccurrences. cbn [List.filter].
      change (offDeclarationLine (markInitialized v) u) with (offDeclarationLine v u).
      change (isWriteOccurrence sourceLines (markInitialized v) u)
        with (isWriteOccurrence sourceLines v u).
      by rewrite Hu, Hread. }
    rewrite Hsplit in Hsecond. cbn [map] in Hsecond.
    eexists _, _, _. split; [exact Hfirst|]. split; [done|]. split; [exact Hsecond|].
    rewrite Hcheck, Husages, usageLoop_app, Hfirst. cbn [mbind option_bind]. exact Hsecond.
Qed.

Lemma C1_witness :
  isInitialized readAfterWrite_x = false
  ∧ isStructField readAfterWrite_lines (row (position readAfterWrite_x)) = Some false
  ∧ isAssignedAt readAfterWrite_lines readAfterWrite_x (at_ 1 0) = true
  ∧ isAssignedAt readAfterWrite_lines readAfterWrite_x (at_ 2 4) = false
  ∧ ∃ vb issuesBefore rest,
      usageLoop readAfterWrite_lines "t.c" [at_ 0 4; at_ 1 0] readAfterWrite_x []
      = Some (vb, issuesBefore)
      ∧ isInitialized vb = true
      ∧ usageLoop readAfterWrite_lines "t.c" [at_ 2 4] vb issuesBefore
        = Some (flagged readAfterWrite_x,
                issuesBefore
                ++ {| d_file := "t.c"; d_line := 3; d_column := 4;
                      d_category := "Uninitialized"; d_message := UsedBeforeInit "x";
                      d_severity := 1; d_codeLine := "y = x;" |} :: rest)
      ∧ checkVariableUsage readAfterWrite_lines "t.c" readAfterWrite_tree readAfterWrite_x
        = Some (flagged readAfterWrite_x,
                issuesBefore
                ++ {| d_file := "t.c"; d_line := 3; d_column := 4;
                      d_category := "Uninitialized"; d_message := UsedBeforeInit "x";
                      d_severity := 1; d_codeLine := "y = x;" |} :: rest).
Proof.
  split; [reflexivity|]. split; [reflexivity|]. split; [reflexivity|].
  split; [reflexivity|].
  destruct (C1_reads_reported_whatever_the_flag
              readAfterWrite_lines "t.c" readAfterWrite_tree readAfterWrite_x
              eq_refl eq_refl eq_refl eq_refl eq_refl)
    as (takenForWrite & _ & _ & _ & Hafter).
  apply (Hafter [at_ 0 4; at_ 1 0] (at_ 2 4) [] eq_refl); try reflexivity.
  exists (at_ 1 0). split; [|by split].
  apply list_elem_of_further, list_elem_of_here.
Defined.

(** C1, as the claim has it, fails on a declaration that is no field of a
    structure but stands below a line with the text [struct]: in
    [struct Node *head;  int x;  y = x;] the variable [x] is a scalar
    without initialiser, no line opens a brace, and [x] is read on the third
    line, yet nothing is reported. *)
Lemma C1_counterexample :
  isInitialized shadowed_x = false ∧ isParameter shadowed_x = false
  ∧ isPointer shadowed_x = false
  ∧ withoutBraces shadowed_lines = true
  ∧ at_ 2 4 ∈ findVariableUsages shadowed_tree (name shadowed_x)
  ∧ offDeclarationLine shadowed_x (at_ 2 4) = true
  ∧ isAssignedAt shadowed_lines shadowed_x (at_ 2 4) = false
  ∧ isComparedAt shadowed_lines shadowed_x (at_ 2 4) = false
  ∧ checkVariableUsage shadowed_lines "t.c" shadowed_tree shadowed_x
    = Some (shadowed_x, []).
Proof.
  repeat split. apply list_elem_of_further, list_elem_of_here.
Qed.

(** C2.  [checkNullPointerDereference] returns, for every pointer declaration
    whose line matches the NULL-or-0 test and in the order of the
    declarations, one NullPointer issue for each dereference of its name on
    a strictly later line, and nothing for a dereference on the declaration
    line or before it.  Writes to the pointer play no part: the answers of
    [findVariableUsages] are never asked for. *)
Theorem C2_one_issue_per_later_dereference
    (sourceLines : list string) (filePath : string) (ast : ASTNode) :
  let issuesOf := fun p : VariableDeclaration =>
    map (nullPointerIssue filePath sourceLines p)
        (List.filter (afterDeclaration p) (findPointerDereferences ast (name p))) in
  checkNullPointerDereference sourceLines filePath ast
  = flat_map issuesOf
      (List.filter (isNullPointer sourceLines) (extractVariableDeclarations ast))
  ∧ (∀ p d, d ∈ findPointerDereferences ast (name p) →
       (row (position p) < row d →
          nullPointerIssue filePath sourceLines p d ∈ issuesOf p
          ∧ d_category (nullPointerIssue filePath sourceLines p d) = "NullPointer"
          ∧ d_line (nullPointerIssue filePath sourceLines p d) = row d + 1)
       ∧ (row d ≤ row (position p) →
          d ∉ List.filter (afterDeclaration p) (findPointerDereferences ast (name p))))
  ∧ (∀ p, length (issuesOf p)
          = length (List.filter (afterDeclaration p)
                                (findPointerDereferences ast (name p))))
  ∧ (∀ usages,
       checkNullPointerDereference sourceLines filePath
         (withOccurrences ast usages (findPointerDereferences ast))
       = checkNullPointerDereference sourceLines filePath ast).
Proof.
  intros issuesOf. split; [|split; [|split]].
  - unfold checkNullPointerDereference. by rewrite nullPointerLoop_spec.
  - intros p d Hd. split.
    + intros Hlt. split; [|done].
      apply list_elem_of_fmap. exists d. split; [done|].
      apply list_elem_of_In, filter_In. split; [by apply list_elem_of_In|].
      by apply Nat.ltb_lt.
    + intros Hle Hin. apply list_elem_of_In, filter_In in Hin as [_ Hlt].
      apply Nat.ltb_lt in Hlt. lia.
  - intros p. unfold issuesOf. by rewrite length_map.
  - intros usages. unfold checkNullPointerDereference.
    by rewrite !nullPointerLoop_spec.
Qed.

Lemma C2_witness :
  isNullPointer null_lines null_p = true
  ∧ isWriteOccurrence null_lines null_p (at_ 1 0) = true
  ∧ checkNullPointerDereference null_lines "t.c" null_tree
    = [nullPointerIssue "t.c" null_lines null_p (at_ 2 1)].
Proof.
  split; [reflexivity|]. split; [reflexivity|].
  exact (proj1 (C2_one_issue_per_later_dereference null_lines "t.c" null_tree)).
Defined.

(** C4, as the sources have it.  Take a pointer declaration without
    initialiser that is no parameter and that [isStructField] does not take
    for a field, and let the occurrences of its name lie on lines of the
    file.  The second loop of [checkVariableUsage] looks only at the value
    of [isInitialized] that the scan of the usages leaves.  If that value is
    [false], every dereference off the declaration line gets one issue with
    the wild-pointer message, the line, the column and the text of the line
    of the dereference, and its category is the text "NullPointer"; if it is
    [true], wherever the write stands, no dereference gets one.  Reordering
    the usages changes none of these issues. *)
Theorem C4_wild_pointer_by_final_flag
    (sourceLines : list string) (filePath : string) (ast : ASTNode)
    (v : VariableDeclaration) :
  isInitialized v = false →
  isParameter v = false →
  isPointer v = true →
  isStructField sourceLines (row (position v)) = Some false →
  onExistingLines sourceLines (findVariableUsages ast (name v)) = true →
  let usages := findVariableUsages ast (name v) in
  let dereferences := findPointerDereferences ast (name v) in
  let wildOf (d : Position) :=
    {| d_file := filePath; d_line := row d + 1; d_column := column d;
       d_category := "NullPointer"; d_message := WildDereference (name v);
       d_severity := 0; d_codeLine := default "" (sourceLines !! row d) |} in
  ∃ v' scanned,
    usageLoop sourceLines filePath usages v [] = Some (v', scanned)
    ∧ (v' = v ∨ v' = flagged v)
    ∧ (isInitialized v' = true ↔
       ∃ u, u ∈ usages ∧ offDeclarationLine v u = true
            ∧ isWriteOccurrence sourceLines v u = true)
    ∧ (∀ i, i ∈ scanned → d_category i = "Uninitialized")
    ∧ let wild := if isInitialized v' then []
                  else map wildOf (List.filter (offDeclarationLine v) dereferences) in
      checkVariableUsage sourceLines filePath ast v = Some (v', scanned ++ wild)
      ∧ List.filter isWildDereferenceIssue (scanned ++ wild) = wild
      ∧ (∀ usages',
           usages' ≡ₚ usages →
           List.filter isWildDereferenceIssue
             (resultIssues (checkVariableUsage sourceLines filePath
                (withOccurrences ast (fun _ => usages') (findPointerDereferences ast)) v))
           = wild).
Proof.
  intros Hinit Hpar Hptr Hstruct Hrows usages dereferences wildOf.
  set (final := writtenDuringScan sourceLines v usages).
  set (wild := if final then []
               else map wildOf (List.filter (offDeclarationLine v) dereferences)).
  assert (Hrun : ∀ us,
    onExistingLines sourceLines us = true →
    checkVariableUsage sourceLines filePath
      (withOccurrences ast (fun _ => us) (findPointerDereferences ast)) v
    = Some (if writtenDuringScan sourceLines v us then markInitialized v else v,
            map (uninitializedIssue filePath sourceLines v)
                (readOccurrences sourceLines v us)
            ++ (if writtenDuringScan sourceLines v us then []
                else map wildOf (List.filter (offDeclarationLine v) dereferences)))).
  { intros us Hus. unfold checkVariableUsage. rewrite Hinit, Hpar, Hstruct.
    cbn [orb mbind option_bind]. cbv zeta.
    change (findVariableUsages (withOccurrences _ _ _) (name v)) with us.
    rewrite (usageLoop_spec _ _ _ _ _ Hus). cbn [mbind option_bind].
    rewrite dereferenceLoop_spec. f_equal. f_equal.
    destruct (writtenDuringScan sourceLines v us).
    - cbn [markInitialized isPointer isInitialized negb]. by rewrite Hptr.
    - by rewrite Hptr, Hinit. }
  assert (Hwild : ∀ i, i ∈ wild → isWildDereferenceIssue i = true).
  { intros i Hi. unfold wild in Hi. destruct final; [by apply elem_of_nil in Hi|].
    by apply list_elem_of_fmap in Hi as (d & -> & _). }
  assert (Hfilter : ∀ us,
    List.filter isWildDereferenceIssue
      (map (uninitializedIssue filePath sourceLines v) us ++ wild) = wild).
  { intros us. rewrite List.filter_app.
    replace (List.filter _ (map _ us)) with (@nil DetectorIssue)
      by (induction us; [done|by simpl]).
    cbn [app]. apply forallb_filter_id, forallb_forall.
    intros i Hi. by apply Hwild, list_elem_of_In. }
  assert (Hsame : checkVariableUsage sourceLines filePath ast v
    = checkVariableUsage sourceLines filePath
        (withOccurrences ast (fun _ => usages) (findPointerDereferences ast)) v)
    by reflexivity.
  exists (if final then markInitialized v else v),
         (map (uninitializedIssue filePath sourceLines v)
              (readOccurrences sourceLines v usages)).
  assert (Hflag : isInitialized (if final then markInitialized v else v) = final).
  { by destruct final. }
  split; [exact (usageLoop_spec _ _ _ _ _ Hrows)|].
  split; [destruct final; [by right|by left]|].
  split.
  { rewrite Hflag. unfold final, writtenDuringScan. rewrite existsb_exists.
    split.
    - intros (u & Hu & [Hoff Hwrite]%andb_prop). exists u.
      split; [by apply list_elem_of_In|done].
    - intros (u & Hu & Hoff & Hwrite). exists u.
      split; [by apply list_elem_of_In|]. by rewrite Hoff, Hwrite. }
  split.
  { intros i Hi. by apply list_elem_of_fmap in Hi as (u & -> & _). }
  cbv zeta. rewrite Hflag. fold wild.
  split; [rewrite Hsame; by apply Hrun|].
  split; [apply Hfilter|].
  intros usages' Hperm. subst usages.
  assert (Hrows' : onExistingLines sourceLines usages' = true).
  { unfold onExistingLines in *. rewrite forallb_forall in *.
    intros p Hp. apply Hrows. apply list_elem_of_In.
    rewrite <- Hperm. by apply list_elem_of_In. }
  assert (Hex : writtenDuringScan sourceLines v usages' = final).
  { unfold final, writtenDuringScan.
    apply eq_true_iff_eq. rewrite !existsb_exists.
    split; intros (u & Hu & Hp); exists u; split; try done;
      apply list_elem_of_In; [rewrite <- Hperm|rewrite Hperm];
      by apply list_elem_of_In. }
  rewrite (Hrun usages' Hrows'). cbn [resultIssues]. rewrite Hex. apply Hfilter.
Qed.

Lemma C4_witness :
  isInitialized wild_p = false
  ∧ isPointer wild_p = true
  ∧ isStructField wild_lines (row (position wild_p)) = Some false
  ∧ checkVariableUsage wild_lines "t.c" wild_tree wild_p
    = Some (wild_p,
            [ {| d_file := "t.c"; d_line := 2; d_column := 5;
                 d_category := "Uninitialized"; d_message := UsedBeforeInit "p";
                 d_severity := 1; d_codeLine := "y = *p;" |};
              {| d_file := "t.c"; d_line := 2; d_column := 5;
                 d_category := "NullPointer"; d_message := WildDereference "p";
                 d_severity := 0; d_codeLine := "y = *p;" |} ]).
Proof.
  split; [reflexivity|]. split; [reflexivity|]. split; [reflexivity|].
  destruct (C4_wild_pointer_by_final_flag wild_lines "t.c" wild_tree wild_p
              eq_refl eq_refl eq_refl eq_refl eq_refl)
    as (v' & scanned & Hscan & _ & _ & _ & Hcheck & _).
  injection Hscan as <- <-. exact Hcheck.
Defined.

(** C4, as the claim has it, fails on the category: the pointer of
    [int *p;  y = *p;] is never written and is dereferenced on the second
    line, yet no issue of category "WildPointer" is returned; the issue for
    the dereference has the category "NullPointer".  It also fails below a
    line with the text [struct]: in [struct Node *head;  int *p;  y = *p;]
    the pointer is no parameter and has no initialiser, the scan leaves its
    flag unset, and the dereference on the third line gets no issue at
    all. *)
Lemma C4_counterexample :
  (isInitialized wild_p = false ∧ isParameter wild_p = false ∧ isPointer wild_p = true
   ∧ ∃ v' issues,
       checkVariableUsage wild_lines "t.c" wild_tree wild_p = Some (v', issues)
       ∧ isInitialized v' = false
       ∧ at_ 1 5 ∈ findPointerDereferences wild_tree (name wild_p)
       ∧ offDeclarationLine wild_p (at_ 1 5) = true
       ∧ ¬ (∃ i, i ∈ issues ∧ d_category i = "WildPointer")
       ∧ List.filter (fun i => String.eqb (d_category i) "NullPointer") issues
         = [wildPointerIssue "t.c" wild_lines wild_p (at_ 1 5)])
  ∧ (isInitialized shadowed_p = false ∧ isParameter shadowed_p = false
     ∧ isPointer shadowed_p = true
     ∧ at_ 2 5 ∈ findPointerDereferences shadowed_pointer_tree (name shadowed_p)
     ∧ offDeclarationLine shadowed_p (at_ 2 5) = true
     ∧ checkVariableUsage shadowed_pointer_lines "t.c" shadowed_pointer_tree shadowed_p
       = Some (shadowed_p, [])).
Proof.
  split.
  - repeat split.
    eexists _, _. split; [reflexivity|]. repeat split.
    + apply list_elem_of_here.
    + intros (i & Hi & Hcat).
      repeat (apply elem_of_cons in Hi as [->|Hi]; [discriminate Hcat|]).
      by apply elem_of_nil in Hi.
  - repeat split. apply list_elem_of_here.
Qed.

(** C7, as the sources have it.  The scan of [checkVariableUsage] leaves out
    the occurrences on the declaration line, and only those: its result, the
    issues and the flag, is the same when they are removed from the answers
    of the parser.  The null pointer check leaves out every dereference that
    is not on a line strictly after the declaration. *)
Theorem C7_declaration_line_never_considered
    (sourceLines : list string) (filePath : string) (ast : ASTNode)
    (v : VariableDeclaration) :
  checkVariableUsage sourceLines filePath
    (withOccurrences ast
       (fun n => List.filter (offDeclarationLine v) (findVariableUsages ast n))
       (fun n => List.filter (offDeclarationLine v) (findPointerDereferences ast n)))
    v
  = checkVariableUsage sourceLines filePath ast v
  ∧ (∀ dereferences issues,
       nullDereferenceLoop sourceLines filePath
         (List.filter (afterDeclaration v) dereferences) v issues
       = nullDereferenceLoop sourceLines filePath dereferences v issues)
  ∧ (∀ dereferences,
       Forall (fun d => row d ≤ row (position v)) dereferences →
       nullDereferenceLoop sourceLines filePath dereferences v [] = []).
Proof.
  split; [|split].
  - unfold checkVariableUsage. simpl.
    destruct (isInitialized v || isParameter v); [done|].
    destruct (isStructField sourceLines (row (position v))) as [[|]|]; simpl; try done.
    rewrite usageLoop_skips_declaration_line.
    destruct (usageLoop _ _ _ _ _) as [[v' issues]|] eqn:Hscan; simpl; [|done].
    do 2 f_equal.
    apply usageLoop_declaration in Hscan as [-> | ->].
    + apply dereferenceLoop_skips_declaration_line.
    + exact (dereferenceLoop_skips_declaration_line sourceLines filePath
               (findPointerDereferences ast (name v)) (markInitialized v) issues).
  - intros dereferences issues. rewrite !nullDereferenceLoop_spec.
    replace (List.filter (afterDeclaration v)
               (List.filter (afterDeclaration v) dereferences))
      with (List.filter (afterDeclaration v) dereferences); [done|].
    induction dereferences as [|d rest IH]; [done|]. simpl.
    destruct (afterDeclaration v d) eqn:Hd; simpl; rewrite ?Hd; by rewrite <- IH.
  - intros dereferences Hall. rewrite nullDereferenceLoop_spec. simpl.
    induction Hall as [|d rest Hd _ IH]; [done|]. simpl.
    unfold afterDeclaration at 1.
    destruct (Nat.ltb_spec (row (position v)) (row d)); [lia|done].
Qed.

Lemma C7_witness :
  checkVariableUsage readAfterWrite_lines "t.c"
    (withOccurrences readAfterWrite_tree (fun _ => [at_ 1 0; at_ 2 4]) (fun _ => []))
    readAfterWrite_x
  = checkVariableUsage readAfterWrite_lines "t.c" readAfterWrite_tree readAfterWrite_x.
Proof.
  exact (proj1 (C7_declaration_line_never_considered
                  readAfterWrite_lines "t.c" readAfterWrite_tree readAfterWrite_x)).
Defined.

(** C7, as the claim has it, fails for the scan of [checkVariableUsage]: the
    name [n] is declared on the third line and occurs on the first, in
    another function; both occurrences there are reported as Uninitialized,
    on line 1. *)
Lemma C7_counterexample :
  row (at_ 0 20) < row (position earlier_n)
  ∧ at_ 0 20 ∈ findVariableUsages earlier_tree (name earlier_n)
  ∧ checkVariableUsage earlier_lines "t.c" earlier_tree earlier_n
    = Some (earlier_n,
            [ uninitializedIssue "t.c" earlier_lines earlier_n (at_ 0 11);
              uninitializedIssue "t.c" earlier_lines earlier_n (at_ 0 20) ])
  ∧ d_category (uninitializedIssue "t.c" earlier_lines earlier_n (at_ 0 20))
    = "Uninitialized"
  ∧ d_line (uninitializedIssue "t.c" earlier_lines earlier_n (at_ 0 20)) = 1.
Proof.
  split; [simpl; lia|]. split; [|by repeat split].
  apply list_elem_of_In. simpl. auto.
Qed.

(** C3: what the code does with an equality test.  In [if (x == 5) {] the
    text after the name starts with the character of the assignment
    operator, so [isAssignmentTarget] answers [true]; the scan then sets the
    flag and reports nothing.  The regular expression of the heuristic
    engine accepts the same line. *)
Lemma C3_equality_test_taken_for_write :
  isAssignmentTarget "if (x == 5) {" "x" 4 = true
  ∧ checkVariableUsage comparison_lines "t.c" comparison_tree readAfterWrite_x
    = Some (markInitialized readAfterWrite_x, [])
  ∧ Heuristic.looksAssignmentTo "if (x == 5) {" "x" = true.
Proof. by repeat split. Qed.

End VariableDetectorClaims.

(** ** The library detector *)

Section LevenshteinRecurrence.
Import Notions.
Variables (a b : string).

Lemma lev_0_l j : lev a b 0 j = j.
Proof. by destruct j. Qed.

Lemma lev_0_r i : lev a b i 0 = i.
Proof. by destruct i. Qed.

Lemma lev_S_S i j :
  lev a b (S i) (S j)
  = Nat.min (lev a b i (S j) + 1)
      (Nat.min (lev a b (S i) j + 1)
         (lev a b i j + (if decide (String.get i a = String.get j b) then 0 else 1))).
Proof. reflexivity. Qed.

Lemma lev_step_row i j : lev a b (S i) j ≤ lev a b i j + 1.
Proof.
  destruct j; [rewrite !lev_0_r; lia|]. rewrite lev_S_S. lia.
Qed.

Lemma lev_step_column i j : lev a b i (S j) ≤ lev a b i j + 1.
Proof.
  destruct i; [rewrite !lev_0_l; lia|]. rewrite lev_S_S. lia.
Qed.

Lemma lev_back_row j : ∀ i, lev a b i j ≤ lev a b (S i) j + 1.
Proof.
  induction j as [|j IH]; intros i; [rewrite !lev_0_r; lia|].
  rewrite lev_S_S.
  pose proof (lev_step_column i j). pose proof (IH i).
  destruct (decide _); lia.
Qed.

Lemma lev_back_column i : ∀ j, lev a b i j ≤ lev a b i (S j) + 1.
Proof.
  induction i as [|i IH]; intros j; [rewrite !lev_0_l; lia|].
  rewrite lev_S_S.
  pose proof (lev_step_row i j). pose proof (IH j).
  destruct (decide _); lia.
Qed.

(** When the last units agree, nothing is gained by touching them. *)
Lemma lev_same i j :
  String.get i a = String.get j b → lev a b (S i) (S j) = lev a b i j.
Proof.
  intros Heq. rewrite lev_S_S. rewrite decide_True by done.
  pose proof (lev_back_row (S j) i). pose proof (lev_back_column (S i) j).
  pose proof (lev_step_row i j). pose proof (lev_step_column i j).
  pose proof (lev_back_row j i). pose proof (lev_back_column i j). lia.
Qed.

Lemma lev_differ i j :
  String.get i a ≠ String.get j b →
  lev a b (S i) (S j)
  = Nat.min (lev a b i j + 1) (Nat.min (lev a b (S i) j + 1) (lev a b i (S j) + 1)).
Proof.
  intros Hne. rewrite lev_S_S. rewrite decide_False by done. lia.
Qed.

End LevenshteinRecurrence.

Lemma lev_sym a b i : ∀ j, Notions.lev a b i j = Notions.lev b a j i.
Proof.
  induction i as [|i IHi]; intros j; [by rewrite lev_0_l, lev_0_r|].
  induction j as [|j IHj]; [by rewrite lev_0_l, lev_0_r|].
  rewrite !lev_S_S, IHj, !IHi.
  destruct (decide (String.get i a = String.get j b)),
           (decide (String.get j b = String.get i a)); try congruence; lia.
Qed.

(** Lists given by a function on their indices. *)
Lemma lookup_tabulate {A} (f : nat → A) n i :
  (f <$> seq 0 n) !! i = if decide (i < n) then Some (f i) else None.
Proof.
  rewrite list_lookup_fmap. case_decide.
  - by rewrite lookup_seq_lt.
  - by rewrite lookup_seq_ge by lia.
Qed.

Lemma tabulate_S {A} (f : nat → A) n :
  f <$> seq 0 (S n) = (f <$> seq 0 n) ++ [f n].
Proof. by rewrite seq_S, fmap_app. Qed.

Lemma tabulate_ext {A} (f g : nat → A) n :
  (∀ i, i < n → f i = g i) → f <$> seq 0 n = g <$> seq 0 n.
Proof.
  intros H. apply list_eq. intros i. rewrite !lookup_tabulate.
  case_decide; [|done]. by rewrite H.
Qed.

Lemma insert_tabulate {A} (f : nat → A) n i x :
  i < n →
  <[i := x]> (f <$> seq 0 n) = (fun k => if decide (k = i) then x else f k) <$> seq 0 n.
Proof.
  intros Hi. apply list_eq. intros k.
  destruct (decide (k = i)) as [->|Hne].
  - rewrite list_lookup_insert_eq by (by rewrite length_fmap, length_seq).
    rewrite lookup_tabulate. rewrite decide_True by done. by rewrite decide_True.
  - rewrite list_lookup_insert_ne by done. rewrite !lookup_tabulate.
    case_decide; [|done]. by rewrite decide_False.
Qed.

Section LevenshteinMatrix.
Import JsString LibraryDetector Notions.
Variables (str1 str2 : string).
Local Abbreviation n1 := (String.length str1).
Local Abbreviation n2 := (String.length str2).
Local Abbreviation L := (lev str2 str1).

Local Abbreviation rowLength := (MatrixInvariant.rowLength str1).
Local Abbreviation filled := (MatrixInvariant.filled str1 str2).
Local Abbreviation firstRow := (MatrixInvariant.firstRow str2).

Lemma filled_lookup k m i :
  i ≤ n2 → filled k m !! i = Some (L i <$> seq 0 (rowLength k m i)).
Proof.
  intros Hi. unfold MatrixInvariant.filled. rewrite lookup_tabulate. by rewrite decide_True by lia.
Qed.

Lemma cell_filled k m i j :
  i ≤ n2 → j < rowLength k m i → cell (filled k m) i j = Some (L i j).
Proof.
  intros Hi Hj. unfold cell. rewrite filled_lookup by done. simpl.
  rewrite lookup_tabulate. by rewrite decide_True.
Qed.

Lemma setCell_filled k m :
  S k ≤ n2 → setCell (filled k m) (S k) (S m) (L (S k) (S m)) = Some (filled k (S m)).
Proof.
  intros Hk. unfold setCell. rewrite filled_lookup by done.
  cbn [mbind option_bind]. rewrite length_fmap, length_seq.
  assert (Hlen : rowLength k m (S k) = S m).
  { unfold MatrixInvariant.rowLength. rewrite decide_False by lia. by rewrite decide_True. }
  rewrite Hlen.
  destruct (Nat.ltb_spec (S m) (S m)); [lia|]. rewrite Nat.eqb_refl. f_equal.
  unfold MatrixInvariant.filled. rewrite insert_tabulate by lia.
  apply tabulate_ext. intros i Hi. case_decide as Hik.
  - subst i. rewrite <- tabulate_S. f_equal. f_equal.
    unfold MatrixInvariant.rowLength. rewrite decide_False by lia. by rewrite decide_True.
  - f_equal. f_equal. unfold MatrixInvariant.rowLength.
    destruct (decide (i ≤ k)); [done|]. by rewrite !decide_False.
Qed.

Lemma fillCell_filled k m :
  S k ≤ n2 → m < n1 →
  fillCell str1 str2 (filled k m) (S k) (S m) = Some (filled k (S m)).
Proof.
  intros Hk Hm. unfold fillCell.
  replace (S k - 1) with k by lia. replace (S m - 1) with m by lia.
  assert (Hdiag : cell (filled k m) k m = Some (L k m)).
  { apply cell_filled; [lia|]. unfold MatrixInvariant.rowLength. rewrite decide_True; lia. }
  assert (Hleft : cell (filled k m) (S k) m = Some (L (S k) m)).
  { apply cell_filled; [lia|]. unfold MatrixInvariant.rowLength.
    rewrite decide_False by lia. rewrite decide_True; lia. }
  assert (Hup : cell (filled k m) k (S m) = Some (L k (S m))).
  { apply cell_filled; [lia|]. unfold MatrixInvariant.rowLength. rewrite decide_True; lia. }
  unfold sameCharAt. case_bool_decide as Hc.
  - rewrite Hdiag. cbn [mbind option_bind].
    rewrite <- (lev_same str2 str1 k m Hc). by apply setCell_filled.
  - rewrite Hdiag, Hleft, Hup. cbn [mbind option_bind].
    rewrite <- (lev_differ str2 str1 k m Hc). by apply setCell_filled.
Qed.

Lemma inner_loop_filled k c : ∀ m,
  S k ≤ n2 → m + c ≤ n1 →
  forEach (fun M j => fillCell str1 str2 M (S k) j) (seq (S m) c) (filled k m)
  = Some (filled k (m + c)).
Proof.
  induction c as [|c IH]; intros m Hk Hm; simpl.
  - by rewrite Nat.add_0_r.
  - rewrite fillCell_filled by lia. simpl. rewrite IH by lia.
    by replace (S m + c) with (m + S c) by lia.
Qed.

Lemma filled_next_row k : filled k n1 = filled (S k) 0.
Proof.
  apply tabulate_ext. intros i _. f_equal. f_equal. unfold MatrixInvariant.rowLength.
  repeat case_decide; lia.
Qed.

Lemma outer_loop_filled c : ∀ k,
  k + c ≤ n2 →
  forEach (fun M i => forEach (fun M j => fillCell str1 str2 M i j) (seq 1 n1) M)
          (seq (S k) c) (filled k 0)
  = Some (filled (k + c) 0).
Proof.
  induction c as [|c IH]; intros k Hk; simpl.
  - by rewrite Nat.add_0_r.
  - rewrite (inner_loop_filled k n1 0) by lia. simpl.
    rewrite filled_next_row, IH by lia.
    by replace (S k + c) with (k + S c) by lia.
Qed.

Lemma init_rows c : ∀ a (M : list (list nat)),
  fold_left (fun m i => m ++ [[i]]) (seq a c) M = M ++ ((fun i => [i]) <$> seq a c).
Proof.
  induction c as [|c IH]; intros a M; simpl; [by rewrite app_nil_r|].
  rewrite IH. by rewrite <- app_assoc.
Qed.

Lemma setCell_firstRow t :
  1 ≤ t → setCell (firstRow t) 0 t t = Some (firstRow (S t)).
Proof.
  intros Ht. unfold setCell.
  assert (Hrow : firstRow t !! 0 = Some (seq 0 t)).
  { unfold MatrixInvariant.firstRow. rewrite lookup_tabulate. by rewrite decide_True by lia. }
  rewrite Hrow. cbn [mbind option_bind]. rewrite length_seq.
  destruct (Nat.ltb_spec t t); [lia|]. rewrite Nat.eqb_refl. f_equal.
  unfold MatrixInvariant.firstRow. rewrite insert_tabulate by lia.
  apply tabulate_ext. intros i _. case_decide; [|done]. by rewrite seq_S.
Qed.

Lemma first_row_loop c : ∀ t,
  1 ≤ t →
  forEach (fun m j => setCell m 0 j j) (seq t c) (firstRow t) = Some (firstRow (t + c)).
Proof.
  induction c as [|c IH]; intros t Ht; simpl.
  - by rewrite Nat.add_0_r.
  - rewrite setCell_firstRow by done. simpl. rewrite IH by lia.
    by replace (S t + c) with (t + S c) by lia.
Qed.

Lemma firstRow_filled : firstRow (S n1) = filled 0 0.
Proof.
  apply tabulate_ext. intros i _. unfold MatrixInvariant.rowLength. case_decide as Hi.
  - subst i. rewrite <- (list_fmap_id (seq 0 (S n1))) at 1.
    apply tabulate_ext. intros j _. by rewrite lev_0_l.
  - rewrite decide_False by lia.
    assert (Hrow : L i <$> seq 0 1 = [i]) by (simpl; by rewrite lev_0_r).
    case_decide; by rewrite Hrow.
Qed.

Theorem levenshteinDistance_correct :
  levenshteinDistance str1 str2 = Some (levenshtein str1 str2).
Proof.
  unfold levenshteinDistance. cbv zeta. rewrite init_rows, app_nil_l.
  assert (Hstart : (fun i : nat => [i]) <$> seq 0 (S n2) = firstRow 1).
  { apply tabulate_ext. intros i _. by case_decide; subst. }
  rewrite Hstart.
  assert (Hzero : setCell (firstRow 1) 0 0 0 = Some (firstRow 1)).
  { unfold setCell, MatrixInvariant.firstRow. rewrite lookup_tabulate. rewrite decide_True by lia.
    reflexivity. }
  change (seq 0 (S n1)) with (0 :: seq 1 n1).
  cbn [forEach]. rewrite Hzero. cbn [mbind option_bind].
  rewrite (first_row_loop n1 1) by lia. cbn [mbind option_bind].
  replace (1 + n1) with (S n1) by lia. rewrite firstRow_filled.
  rewrite (outer_loop_filled n2 0) by lia. cbn [mbind option_bind].
  replace (0 + n2) with n2 by lia.
  rewrite cell_filled; [|lia|unfold MatrixInvariant.rowLength; rewrite decide_True; lia].
  f_equal. unfold levenshtein. apply lev_sym.
Qed.

End LevenshteinMatrix.

Lemma levenshtein_same s : Notions.levenshtein s s = 0.
Proof.
  unfold Notions.levenshtein. induction (String.length s) as [|i IH]; [done|].
  by rewrite lev_same.
Qed.

Section HeaderSpellingFacts.
Import JsString LibraryDetector Notions.

(** The loop of [suggestCorrectHeader] keeps the first entry at the least
    distance among those it has seen, if that distance is at most two. *)
Lemma suggestLoop_spec lowerHeader rest : ∀ seen bestMatch bestDistance,
  match bestMatch, bestDistance with
  | None, None => ∀ w, w ∈ seen → 2 < distanceTo lowerHeader w
  | Some w, Some d =>
      d = distanceTo lowerHeader w ∧ d ≤ 2
      ∧ firstClosest (distanceTo lowerHeader) seen w
  | _, _ => False
  end →
  match suggestLoop lowerHeader rest bestMatch bestDistance with
  | None => ∀ w, w ∈ seen ++ rest → 2 < distanceTo lowerHeader w
  | Some w =>
      distanceTo lowerHeader w ≤ 2
      ∧ firstClosest (distanceTo lowerHeader) (seen ++ rest) w
  end.
Proof.
  induction rest as [|s rest IH]; intros seen bestMatch bestDistance Hinv.
  - simpl. rewrite app_nil_r.
    destruct bestMatch as [w|], bestDistance as [d|]; try done.
    destruct Hinv as (-> & Hd & Hfirst). done.
  - simpl. rewrite levenshteinDistance_correct.
    replace (seen ++ s :: rest) with ((seen ++ [s]) ++ rest)
      by (by rewrite <- app_assoc).
    fold (distanceTo lowerHeader s).
    destruct bestMatch as [w|], bestDistance as [d|]; try done; simpl.
    + destruct Hinv as (-> & Hd & before & after & -> & Hbefore & Hafter).
      destruct (Nat.ltb_spec (distanceTo lowerHeader s) (distanceTo lowerHeader w))
        as [Hlt|Hge]; simpl.
      * destruct (Nat.leb_spec (distanceTo lowerHeader s) 2) as [Hle|Hgt]; [|lia].
        apply IH. split; [done|]. split; [done|].
        exists (before ++ w :: after), []. split; [done|].
        split; [|by intros ? ?%elem_of_nil].
        intros w' [Hw'|Hw']%elem_of_app.
        -- specialize (Hbefore _ Hw'). lia.
        -- apply elem_of_cons in Hw' as [-> | Hw']; [done|].
           specialize (Hafter _ Hw'). lia.
      * apply IH. split; [done|]. split; [done|].
        exists before, (after ++ [s]). split; [by rewrite <- app_assoc|].
        split; [done|].
        intros w' [Hw' | ->%list_elem_of_singleton]%elem_of_app; [by apply Hafter|done].
    + destruct (Nat.leb_spec (distanceTo lowerHeader s) 2) as [Hle|Hgt].
      * apply IH. split; [done|]. split; [done|].
        exists seen, []. split; [done|]. split; [|by intros ? ?%elem_of_nil].
        intros w' Hw'. specialize (Hinv _ Hw'). lia.
      * apply IH. intros w' [Hw' | ->%list_elem_of_singleton]%elem_of_app;
          [by apply Hinv|done].
Qed.

Lemma suggestCorrectHeader_spec headerName standards :
  match suggestCorrectHeader headerName standards with
  | None => ∀ w, w ∈ standards → 2 < distanceTo (toLowerCase headerName) w
  | Some w =>
      distanceTo (toLowerCase headerName) w ≤ 2
      ∧ firstClosest (distanceTo (toLowerCase headerName)) standards w
  end.
Proof.
  apply (suggestLoop_spec (toLowerCase headerName) standards [] None None).
  by intros ? ?%elem_of_nil.
Qed.

Lemma firstClosest_elem dist entries w : firstClosest dist entries w → w ∈ entries.
Proof.
  intros (before & after & -> & _). apply elem_of_app. right. apply list_elem_of_here.
Qed.

(** A suggestion is a standard header, none of which is the empty string,
    so the test [if (suggestion)] is the test for [null]. *)
Lemma truthy_suggestion headerName :
  truthy (suggestCorrectHeader headerName standardHeaders)
  = suggestCorrectHeader headerName standardHeaders.
Proof.
  pose proof (suggestCorrectHeader_spec headerName standardHeaders) as Hspec.
  destruct (suggestCorrectHeader headerName standardHeaders) as [w|]; [|done].
  destruct Hspec as [_ Hw%firstClosest_elem].
  destruct w; [|done]. exfalso.
  assert (Hno : bool_decide ("" ∈ standardHeaders) = false) by (vm_compute; reflexivity).
  by apply bool_decide_eq_false_1 in Hno.
Qed.

Lemma includeLoop_spec filePath sourceLines includes : ∀ issues,
  includeLoop filePath sourceLines includes issues
  = issues ++ map (fun include =>
                     headerSpellingIssue filePath sourceLines include
                       (suggestCorrectHeader (headerName include) standardHeaders))
                  (List.filter isSuspicious includes).
Proof.
  induction includes as [|inc rest IH]; intros issues; simpl.
  - by rewrite app_nil_r.
  - unfold isSuspicious at 1.
    destruct (isSystemHeader inc && _); rewrite IH; [|done].
    by rewrite <- app_assoc.
Qed.

End HeaderSpellingFacts.

Section HeaderSpellingClaims.
Import JsString LibraryDetector Notions Samples.

(** C6, as the sources have it.  [checkHeaderSpelling] returns one
    HeaderSpelling issue for every system include whose name is not among
    the 24 standard headers, in the order of the includes, and nothing for
    the other includes.  The distances are taken between the names in lower
    case.  The issue suggests the first standard header, in the order of the
    whitelist, at the least such distance when that distance is at most 2,
    and nothing when every standard header is further than 2. *)
Theorem C6_first_closest_in_lower_case
    (parse : string → option ASTNode) (filePath sourceCode : string) (ast : ASTNode) :
  parse sourceCode = Some ast →
  let sourceLines := splitLines sourceCode in
  let suggestion := fun include : IncludeDirective =>
    suggestCorrectHeader (headerName include) standardHeaders in
  length standardHeaders = 24
  ∧ checkHeaderSpelling parse filePath sourceCode
    = map (fun include =>
             headerSpellingIssue filePath sourceLines include (suggestion include))
          (List.filter isSuspicious (extractIncludeDirectives ast))
  ∧ (∀ include,
       d_category (headerSpellingIssue filePath sourceLines include (suggestion include))
       = "HeaderSpelling"
       ∧ d_message (headerSpellingIssue filePath sourceLines include (suggestion include))
         = SuspiciousHeader (headerName include) (suggestion include)
       ∧ match suggestion include with
         | Some w =>
             distanceTo (toLowerCase (headerName include)) w ≤ 2
             ∧ firstClosest (distanceTo (toLowerCase (headerName include)))
                 standardHeaders w
         | None =>
             ∀ w, w ∈ standardHeaders →
                  2 < distanceTo (toLowerCase (headerName include)) w
         end).
Proof.
  intros Hparse sourceLines suggestion. split; [reflexivity|]. split.
  - unfold checkHeaderSpelling. rewrite Hparse. by rewrite includeLoop_spec.
  - intros include. split; [reflexivity|]. split.
    + unfold suggestion. simpl. by rewrite truthy_suggestion.
    + apply suggestCorrectHeader_spec.
Qed.

Lemma C6_witness :
  isSuspicious include_upper = true ∧ isSuspicious include_typo = true
  ∧ checkHeaderSpelling (fun _ => Some spelling_tree) "t.c" spelling_code
    = [ headerSpellingIssue "t.c" (splitLines spelling_code) include_upper (Some "stdio.h");
        headerSpellingIssue "t.c" (splitLines spelling_code) include_typo (Some "stdio.h") ].
Proof.
  split; [reflexivity|]. split; [reflexivity|].
  rewrite (proj1 (proj2 (C6_first_closest_in_lower_case
                           (fun _ => Some spelling_tree) "t.c" spelling_code
                           spelling_tree eq_refl))).
  vm_compute. reflexivity.
Defined.

(** C6, as the claim has it, fails when the distance is read as the
    distance from the header name itself: every standard header is further
    than 2 from [STDIO.H], yet the issue for [#include <STDIO.H>] suggests
    [stdio.h]. *)
Lemma C6_counterexample :
  (∀ w, w ∈ standardHeaders → 2 < levenshtein "STDIO.H" w)
  ∧ isSuspicious include_upper = true
  ∧ includeLoop "t.c" ["#include <STDIO.H>"] [include_upper] []
    = [headerSpellingIssue "t.c" ["#include <STDIO.H>"] include_upper (Some "stdio.h")]
  ∧ d_message (headerSpellingIssue "t.c" ["#include <STDIO.H>"] include_upper
                 (Some "stdio.h"))
    = SuspiciousHeader "STDIO.H" (Some "stdio.h").
Proof.
  split; [|by repeat split].
  assert (Hall : forallb (fun w => match levenshteinDistance "STDIO.H" w with
                                   | Some d => 2 <? d
                                   | None => false
                                   end) standardHeaders = true)
    by (vm_compute; reflexivity).
  intros w Hw. rewrite forallb_forall in Hall.
  specialize (Hall w (proj1 (list_elem_of_In _ _) Hw)).
  rewrite levenshteinDistance_correct in Hall. by apply Nat.ltb_lt.
Qed.

(** C10.  Membership in the whitelist compares the names as they are, the
    suggestion compares them in lower case.  A system include whose name is
    not a standard header but agrees with the standard header [w] in lower
    case is therefore reported, and the suggestion is [w]: the distance
    between the two names in lower case is 0. *)
Theorem C10_case_difference_suggests_the_entry
    (filePath : string) (sourceLines : list string)
    (includes : list IncludeDirective) (include : IncludeDirective) (w : string) :
  include ∈ includes →
  isSystemHeader include = true →
  w ∈ standardHeaders →
  headerName include ≠ w →
  toLowerCase (headerName include) = toLowerCase w →
  (headerName include ∉ standardHeaders)
  ∧ levenshtein (toLowerCase (headerName include)) (toLowerCase w) = 0
  ∧ levenshteinDistance (toLowerCase (headerName include)) (toLowerCase w) = Some 0
  ∧ suggestCorrectHeader (headerName include) standardHeaders = Some w
  ∧ headerSpellingIssue filePath sourceLines include (Some w)
    ∈ includeLoop filePath sourceLines includes []
  ∧ d_category (headerSpellingIssue filePath sourceLines include (Some w))
    = "HeaderSpelling"
  ∧ d_message (headerSpellingIssue filePath sourceLines include (Some w))
    = SuspiciousHeader (headerName include) (Some w).
Proof.
  intros Hin Hsys Hw Hne Hlower.
  assert (Hlowercase : ∀ s, s ∈ standardHeaders → toLowerCase s = s).
  { assert (Hall : forallb (fun s => String.eqb (toLowerCase s) s) standardHeaders = true)
      by (vm_compute; reflexivity).
    intros s Hs. rewrite forallb_forall in Hall.
    by apply String.eqb_eq, Hall, list_elem_of_In. }
  assert (Hown : ∀ s, s ∈ standardHeaders →
                      suggestLoop s standardHeaders None None = Some s).
  { assert (Hall : forallb (fun s => match suggestLoop s standardHeaders None None with
                                     | Some s' => String.eqb s' s
                                     | None => false
                                     end) standardHeaders = true)
      by (vm_compute; reflexivity).
    intros s Hs. rewrite forallb_forall in Hall.
    specialize (Hall s (proj1 (list_elem_of_In _ _) Hs)).
    destruct (suggestLoop s standardHeaders None None) as [s'|]; [|done].
    by apply String.eqb_eq in Hall as ->. }
  assert (Hout : headerName include ∉ standardHeaders).
  { intros Hmem. apply Hne.
    by rewrite <- (Hlowercase _ Hmem), Hlower, (Hlowercase _ Hw). }
  assert (Hsuggest : suggestCorrectHeader (headerName include) standardHeaders = Some w).
  { unfold suggestCorrectHeader. rewrite Hlower, (Hlowercase _ Hw). by apply Hown. }
  assert (Hzero : levenshtein (toLowerCase (headerName include)) (toLowerCase w) = 0)
    by (rewrite Hlower; apply levenshtein_same).
  split; [done|]. split; [done|].
  split; [by rewrite levenshteinDistance_correct, Hzero|].
  split; [done|]. split; [|split; [done|]].
  - rewrite includeLoop_spec. simpl. apply list_elem_of_fmap.
    exists include. split; [by rewrite Hsuggest|].
    apply list_elem_of_In, filter_In. split; [by apply list_elem_of_In|].
    unfold isSuspicious. rewrite Hsys. simpl.
    by rewrite bool_decide_eq_false_2.
  - simpl. destruct w; [|done]. exfalso.
    assert (Hno : bool_decide ("" ∈ standardHeaders) = false) by (vm_compute; reflexivity).
    by apply bool_decide_eq_false_1 in Hno.
Qed.

Lemma C10_witness :
  isSystemHeader include_upper = true
  ∧ headerName include_upper ≠ "stdio.h"
  ∧ toLowerCase (headerName include_upper) = toLowerCase "stdio.h"
  ∧ suggestCorrectHeader "STDIO.H" standardHeaders = Some "stdio.h"
  ∧ headerSpellingIssue "t.c" ["#include <STDIO.H>"] include_upper (Some "stdio.h")
    ∈ includeLoop "t.c" ["#include <STDIO.H>"] [include_upper] [].
Proof.
  assert (Hin : include_upper ∈ [include_upper]) by apply list_elem_of_here.
  assert (Hw : "stdio.h" ∈ standardHeaders) by apply list_elem_of_here.
  assert (Hne : headerName include_upper ≠ "stdio.h") by discriminate.
  pose proof (C10_case_difference_suggests_the_entry
                "t.c" ["#include <STDIO.H>"] [include_upper] include_upper "stdio.h"
                Hin eq_refl Hw Hne eq_refl) as (_ & _ & _ & Hsuggest & Hissue & _).
  split; [reflexivity|]. split; [exact Hne|]. split; [reflexivity|].
  split; [exact Hsuggest|exact Hissue].
Defined.

End HeaderSpellingClaims.

Section HeaderClaims.
Import JsString LibraryDetector Notions Samples.

(** The issues one call contributes when the loop reaches it and its name
    is not one that the table inherits. *)
Lemma callLoop_spec filePath sourceLines includedHeaders functionCalls : ∀ issues,
  Forall (fun call => tableGet (call_name call) ≠ InheritedValue) functionCalls →
  callLoop filePath sourceLines includedHeaders functionCalls issues
  = issues ++ flat_map (fun call =>
      match STANDARD_LIBRARY_FUNCTIONS !! call_name call with
      | Some requiredHeaders =>
          if existsb (fun header => bool_decide (header ∈ includedHeaders)) requiredHeaders
          then []
          else [headerIssue filePath sourceLines call requiredHeaders]
      | None => []
      end) functionCalls.
Proof.
  induction functionCalls as [|call rest IH]; intros issues Hall;
    cbn [callLoop flat_map].
  - by rewrite app_nil_r.
  - apply Forall_cons in Hall as [Hcall Hrest]. unfold tableGet in *.
    destruct (STANDARD_LIBRARY_FUNCTIONS !! call_name call) as [requiredHeaders|].
    + destruct (existsb _ requiredHeaders); rewrite IH by done; [done|].
      by rewrite <- app_assoc.
    + case_bool_decide; [done|]. by rewrite IH.
Qed.

(** The header check on a file none of whose calls has a name that the
    table inherits: a call of a tabulated function gets exactly one Header
    issue, naming all its headers, when none of them is the name of an
    include, system or quoted, and no issue when one of them is. *)
Lemma header_check_without_inherited_names
    (parse : string → option ASTNode) (filePath sourceCode : string) (ast : ASTNode) :
  parse sourceCode = Some ast →
  Forall (fun call => call_name call ∉ objectPrototypeProperties)
         (extractFunctionCalls ast) →
  let sourceLines := splitLines sourceCode in
  let included := fun header =>
    bool_decide (header ∈ headerName <$> extractIncludeDirectives ast) in
  LibraryDetector.analyzeFile parse filePath sourceCode
  = flat_map (fun call =>
      match STANDARD_LIBRARY_FUNCTIONS !! call_name call with
      | Some requiredHeaders =>
          if existsb included requiredHeaders then []
          else [headerIssue filePath sourceLines call requiredHeaders]
      | None => []
      end) (extractFunctionCalls ast).
Proof.
  intros Hparse Hnames sourceLines included.
  unfold LibraryDetector.analyzeFile. rewrite Hparse. rewrite callLoop_spec.
  - rewrite app_nil_l. apply flat_map_ext. intros call.
    destruct (STANDARD_LIBRARY_FUNCTIONS !! call_name call) as [requiredHeaders|]; [|done].
    replace (existsb _ requiredHeaders) with (existsb included requiredHeaders); [done|].
    induction requiredHeaders as [|header headers IHh]; [done|]. simpl.
    rewrite IHh. f_equal. unfold included, includedHeadersOf.
    apply bool_decide_ext. by rewrite elem_of_list_to_set.
  - eapply Forall_impl; [exact Hnames|]. intros call Hcall. unfold tableGet.
    destruct (STANDARD_LIBRARY_FUNCTIONS !! call_name call); [done|].
    by rewrite bool_decide_eq_false_2.
Qed.

(** C5: what the code does when a callee is named like a property that the
    table inherits.  [putchar] is tabulated and no header is included, so the
    call of [putchar] is to get a Header issue, and it does when it is the
    only call.  After a call of [valueOf] it gets none: the lookup of
    [valueOf] finds the inherited function, the [some] call on it throws,
    and [analyzeFile] returns what it had so far. *)
Lemma C5_inherited_name_ends_the_check :
  tableGet "putchar" = HeaderArray ["stdio.h"]
  ∧ tableGet "valueOf" = InheritedValue
  ∧ extractIncludeDirectives inherited_tree = []
  ∧ call_putchar ∈ extractFunctionCalls inherited_tree
  ∧ LibraryDetector.analyzeFile (fun _ => Some inherited_tree) "t.c" inherited_code = []
  ∧ LibraryDetector.analyzeFile (fun _ => Some plain_tree) "t.c" inherited_code
    = [headerIssue "t.c" inherited_lines call_putchar ["stdio.h"]].
Proof.
  split; [by vm_compute|]. split; [by vm_compute|]. split; [reflexivity|].
  split; [|split; by vm_compute].
  apply list_elem_of_In. right. by left.
Qed.

End HeaderClaims.

(** ** The front end *)

Section PrintIssuesFacts.
Import JsString Cli Notions Samples.

Lemma startsWith_app p rest : startsWith p (p +:+ rest) = true.
Proof. induction p as [|c p IH]; [done|]. simpl. by rewrite Ascii.eqb_refl. Qed.

Lemma search_unfold p s :
  search p s = if startsWith p s then Some 0
               else match s with
                    | EmptyString => None
                    | String _ s' => S <$> search p s'
                    end.
Proof. by destruct s. Qed.

Lemma includes_app before p rest : includes (before +:+ p +:+ rest) p = true.
Proof.
  unfold includes. induction before as [|c before IH]; rewrite search_unfold.
  - change ("" +:+ p +:+ rest) with (p +:+ rest). by rewrite startsWith_app.
  - destruct (startsWith p _); [done|]. simpl.
    by destruct (search p (before +:+ p +:+ rest)).
Qed.

Lemma baseName_suffix path : ∃ before, path = before +:+ baseName path.
Proof.
  induction path as [|c rest [before IH]]; [by exists ""|].
  cbn [baseName]. destruct (hasSeparator (String c rest)).
  - exists (String c before).
    change (String c rest = String c (before +:+ baseName rest)). by f_equal.
  - by exists "".
Qed.

(** A path includes the name of its file. *)
Lemma includes_baseName path : includes path (baseName path) = true.
Proof.
  destruct (baseName_suffix path) as [before Hpath].
  rewrite Hpath at 1.
  assert (Hnil : ∀ s, s +:+ "" = s).
  { induction s as [|c s IH]; [done|].
    change (String c (s +:+ "") = String c s). by f_equal. }
  rewrite <- (Hnil (baseName path)) at 1. apply includes_app.
Qed.

End PrintIssuesFacts.

Section PrintIssuesClaims.
Import JsString Cli Notions Samples.

(** C9, as the sources have it.  [printIssues] prints, in their order and
    with their line, category, message and code line as they are, the
    issues that pass the filter.  The filter drops an issue exactly when its
    path contains the text [avl_tree.c] and its line is 7, 8 or 16, whatever
    its category.  A file named [avl_tree.c] has such a path; an issue whose
    path does not contain the text is printed. *)
Theorem C9_suppression_by_path_text (relative : string → string) (issues : list Issue) :
  printIssues relative issues
  = flat_map (printed relative)
      (List.filter (fun issue => negb (includes (file issue) "avl_tree.c"
                                       && isSuppressedLine (line issue)))
                   issues)
  ∧ (∀ issue, baseName (file issue) = "avl_tree.c" →
       isSuppressedLine (line issue) = true → keepIssue issue = false)
  ∧ (∀ issue, includes (file issue) "avl_tree.c" = false → keepIssue issue = true)
  ∧ (∀ issue, isSuppressedLine (line issue) = false → keepIssue issue = true)
  ∧ (∀ path n c m, IssueLine path n c m ∈ printIssues relative issues →
       ∃ issue, issue ∈ issues ∧ path = relative (file issue) ∧ n = line issue
                ∧ c = category issue ∧ m = message issue
                ∧ (isSuppressedLine n = true → baseName (file issue) ≠ "avl_tree.c")).
Proof.
  assert (Hkeep : ∀ issue, keepIssue issue
            = negb (includes (file issue) "avl_tree.c" && isSuppressedLine (line issue))).
  { intros issue. unfold keepIssue, isSuppressedLine.
    destruct (includes _ _); [|done]. by destruct (_ || _). }
  assert (Hnamed : ∀ issue, baseName (file issue) = "avl_tree.c" →
            includes (file issue) "avl_tree.c" = true).
  { intros issue <-. apply includes_baseName. }
  split; [|split; [|split; [|split]]].
  - unfold printIssues. f_equal. apply filter_ext. intros issue. apply Hkeep.
  - intros issue Hname Hline. by rewrite Hkeep, (Hnamed _ Hname), Hline.
  - intros issue Hpath. by rewrite Hkeep, Hpath.
  - intros issue Hline. rewrite Hkeep, Hline. by rewrite andb_false_r.
  - intros path n c m Hin. unfold printIssues in Hin.
    apply list_elem_of_In, in_flat_map in Hin as (issue & Hissue & Hline).
    apply filter_In in Hissue as [Hissue Hkept].
    destruct Hline as [[= <- <- <- <-]|[Hline|[]]]; [|discriminate Hline].
    exists issue. split; [by apply list_elem_of_In|]. repeat split.
    intros Hsup Hname. rewrite Hkeep, (Hnamed _ Hname), Hsup in Hkept. done.
Qed.

Lemma C9_witness :
  printIssues id report
  = printed id (issueAt "tests/list.c" 7) ++ printed id (issueAt "tests/avl_tree.c" 9)
    ++ printed id (issueAt "tests/list.c" 8).
Proof.
  rewrite (proj1 (C9_suppression_by_path_text id report)). reflexivity.
Defined.

(** C9, as the claim has it, fails for the other files: the file
    [old_avl_tree.c] is not named [avl_tree.c], and its issue on line 7 is
    not printed. *)
Lemma C9_counterexample :
  baseName "tests/old_avl_tree.c" = "old_avl_tree.c"
  ∧ baseName "tests/old_avl_tree.c" ≠ "avl_tree.c"
  ∧ printIssues id [issueAt "tests/old_avl_tree.c" 7] = []
  ∧ printIssues id [issueAt "tests/old_avl_tree.c" 9]
    = printed id (issueAt "tests/old_avl_tree.c" 9).
Proof. by repeat split. Qed.

End PrintIssuesClaims.

(** ** The heuristic engine *)

Section FormatFacts.
Import JsString Heuristic Notions Samples.

(** A pair of percent signs counts for nothing. *)
Lemma formatSpecCount_pair rest :
  formatSpecCount (String "%"%char (String "%"%char rest)) = formatSpecCount rest.
Proof. reflexivity. Qed.


(** So does a percent sign at the end. *)
Lemma formatSpecCount_last : formatSpecCount "%" = 1.
Proof. reflexivity. Qed.



Lemma whiteSpace_not_word c : isWhiteSpace c = true → isWordChar c = false.
Proof.
  destruct c as [[] [] [] [] [] [] [] []]; vm_compute; congruence.
Qed.

(** Where a call of one of [names] starts, one of [names'] is mentioned as a
    word. *)
Lemma callsOneOf_mentionsOneOf names names' s : ∀ afterWordChar,
  (∀ n, n ∈ names → n ∈ names') →
  callsOneOf names afterWordChar s = true →
  mentionsOneOf names' afterWordChar s = true.
Proof.
  intros afterWordChar Hsub. revert afterWordChar.
  assert (Hhere : ∀ t,
    existsb (fun n => startsWith n t
                      && startsWith "(" (trimStart (slice t (String.length n)))) names
    = true →
    existsb (fun n => startsWith n t
                      && match slice t (String.length n) with
                         | EmptyString => true
                         | String c _ => negb (isWordChar c)
                         end) names' = true).
  { intros t (n & Hn & [Hstart Hparen]%andb_prop)%existsb_exists.
    apply existsb_exists. exists n.
    split; [by apply list_elem_of_In, Hsub, list_elem_of_In|].
    rewrite Hstart. simpl.
    destruct (slice t (String.length n)) as [|c after]; [done|].
    cbn [trimStart] in Hparen. destruct (isWhiteSpace c) eqn:Hws.
    - by rewrite (whiteSpace_not_word _ Hws).
    - cbn [startsWith] in Hparen.
      by destruct (Ascii.eqb_spec "(" c) as [<-|]. }
  induction s as [|c s IH]; intros afterWordChar; cbn [callsOneOf mentionsOneOf].
  - rewrite !orb_false_r. intros [-> Hex]%andb_prop. by rewrite (Hhere "" Hex).
  - intros [[-> Hex]%andb_prop|Hlater]%orb_prop.
    + by rewrite (Hhere _ Hex).
    + rewrite (IH _ Hlater). by rewrite orb_true_r.
Qed.

(** A line with a call of [printf] or [scanf] is not taken for a
    declaration. *)
Lemma call_line_not_declaration line :
  callsOneOf ["printf"; "scanf"] false line = true → isLikelyDecl line = false.
Proof.
  intros Hcall. unfold isLikelyDecl.
  destruct (negb (includes line ";")); [done|].
  destruct (startsWith "#" (trimStart line)); [done|].
  rewrite (callsOneOf_mentionsOneOf ["printf"; "scanf"] _ line false); [done| |done].
  intros n Hn. apply elem_of_cons in Hn as [-> | Hn]; [apply list_elem_of_here|].
  apply list_elem_of_singleton in Hn as ->. apply list_elem_of_further, list_elem_of_here.
Qed.

End FormatFacts.

Section FormatItemFacts.
Import JsString Heuristic Notions.







End FormatItemFacts.

Section FormatClaims.
Import JsString Heuristic Notions Samples.




End FormatClaims.

(** ** More on the variable detector *)

Section VariableDetectorMore.
Import JsString VariableDetector Notions MoreNotions.
Variables (sourceLines : list string) (filePath : string).

(** When the scan returns, it has set the flag exactly if one scanned
    occurrence is a write, and has added one issue for every other scanned
    occurrence; the rows of all scanned occurrences are lines of the file. *)
Lemma usageLoop_returned usages : ∀ v issues v' issues',
  usageLoop sourceLines filePath usages v issues = Some (v', issues') →
  v' = (if writtenDuringScan sourceLines v usages then markInitialized v else v)
  ∧ issues' = issues ++ map (uninitializedIssue filePath sourceLines v)
                            (readOccurrences sourceLines v usages)
  ∧ Forall (fun u => row u < length sourceLines)
           (List.filter (offDeclarationLine v) usages).
Proof.
  induction usages as [|u rest IH]; intros v issues v' issues'; simpl.
  - intros [= <- <-]. by rewrite app_nil_r.
  - unfold offDeclarationLine at 1 2 3, isWriteOccurrence at 1 2.
    destruct (row u =? row (position v)) eqn:Hrow; simpl; [apply IH|].
    destruct (sourceLines !! row u) as [l|] eqn:Hl; simpl; [|done].
    apply lookup_lt_Some in Hl.
    destruct (isAssignmentTarget l (name v) (column u)) eqn:Hw; simpl.
    + intros (-> & -> & Hall)%IH. split; [|split; [done|by constructor]].
      by destruct (writtenDuringScan _ _ _).
    + intros (-> & -> & Hall)%IH. split; [done|].
      split; [by rewrite <- app_assoc|by constructor].
Qed.

Lemma isStructField_from_spec n : ∀ i,
  i + n ≤ length sourceLines →
  isStructField_from sourceLines i n
  = Some (existsb hasStructMarker (firstn n (skipn i sourceLines))).
Proof.
  induction n as [|n IH]; intros i Hlen; [done|]. cbn [isStructField_from].
  destruct (lookup_lt_is_Some_2 sourceLines i) as [l Hl]; [lia|].
  rewrite Hl. cbn [mbind option_bind].
  rewrite (drop_S _ _ _ Hl). cbn [firstn existsb]. unfold hasStructMarker at 1.
  destruct (includes (trim l) "typedef struct" || includes (trim l) "struct "); [done|].
  rewrite IH by lia. done.
Qed.

Lemma isStructField_window n :
  n ≤ length sourceLines →
  isStructField sourceLines n
  = Some (existsb hasStructMarker (structWindow sourceLines n)).
Proof.
  intros Hn. unfold isStructField, structWindow. cbv zeta.
  apply isStructField_from_spec. lia.
Qed.


(** [checkVariableUsage] hands the declaration back unchanged, or with the
    flag set and nothing else changed; the flag is never cleared, and it is
    set only when a usage off the declaration line is taken for a write. *)
Theorem checkVariableUsage_only_sets_the_flag
    (ast : ASTNode) (v v' : VariableDeclaration) (issues : list DetectorIssue) :
  checkVariableUsage sourceLines filePath ast v = Some (v', issues) →
  (v' = v ∨ v' = markInitialized v)
  ∧ (isInitialized v = true → v' = v)
  ∧ (isInitialized v = false → isInitialized v' = true →
       ∃ u line, u ∈ findVariableUsages ast (name v)
                 ∧ row u ≠ row (position v)
                 ∧ sourceLines !! row u = Some line
                 ∧ isAssignmentTarget line (name v) (column u) = true).
Proof.
  unfold checkVariableUsage. intros Hrun.
  destruct (isInitialized v) eqn:Hinit; simpl in Hrun.
  { injection Hrun as <- <-. split; [by left|]. split; [done|]. done. }
  destruct (isParameter v); simpl in Hrun.
  { injection Hrun as <- <-. split; [by left|]. split; [done|].
    intros _ Habs. by rewrite Hinit in Habs. }
  destruct (isStructField sourceLines (row (position v))) as [[|]|];
    simpl in Hrun; [| |done].
  { injection Hrun as <- <-. split; [by left|]. split; [done|].
    intros _ Habs. by rewrite Hinit in Habs. }
  destruct (usageLoop _ _ _ _ _) as [[v1 issues1]|] eqn:Hscan; simpl in Hrun; [|done].
  injection Hrun as <- <-.
  apply usageLoop_returned in Hscan as (-> & _ & _).
  destruct (writtenDuringScan sourceLines v _) eqn:Hwritten.
  - split; [by right|]. split; [done|]. intros _ _.
    unfold writtenDuringScan in Hwritten.
    apply existsb_exists in Hwritten as (u & Hu & [Hoff Hw]%andb_prop).
    unfold isWriteOccurrence in Hw.
    destruct (sourceLines !! row u) as [line|] eqn:Hline; [|done].
    exists u, line. split; [by apply list_elem_of_In|]. split; [|done].
    unfold offDeclarationLine in Hoff. by apply negb_true_iff, Nat.eqb_neq in Hoff.
  - split; [by left|]. split; [done|]. intros _ Habs. by rewrite Hinit in Habs.
Qed.

(** Every Uninitialized issue that [checkVariableUsage] returns stands for
    a usage of the name off the declaration line; its line is a line of the
    file, one more than the row of the usage, and its code line is the text
    of that line. *)
Theorem uninitialized_issue_names_a_line_of_the_file
    (ast : ASTNode) (v v' : VariableDeclaration) (issues : list DetectorIssue) :
  checkVariableUsage sourceLines filePath ast v = Some (v', issues) →
  ∀ i, i ∈ issues → d_category i = "Uninitialized" →
    ∃ u, u ∈ findVariableUsages ast (name v)
         ∧ row u ≠ row (position v)
         ∧ d_line i = row u + 1 ∧ d_column i = column u
         ∧ 1 ≤ d_line i ≤ length sourceLines
         ∧ sourceLines !! (d_line i - 1) = Some (d_codeLine i)
         ∧ d_message i = UsedBeforeInit (name v) ∧ d_file i = filePath.
Proof.
  unfold checkVariableUsage. intros Hrun i Hi Hcat.
  destruct (isInitialized v || isParameter v); simpl in Hrun.
  { injection Hrun as <- <-. by apply elem_of_nil in Hi. }
  destruct (isStructField sourceLines (row (position v))) as [[|]|];
    simpl in Hrun; [| |done].
  { injection Hrun as <- <-. by apply elem_of_nil in Hi. }
  destruct (usageLoop _ _ _ _ _) as [[v1 issues1]|] eqn:Hscan; simpl in Hrun; [|done].
  injection Hrun as <- <-.
  apply usageLoop_returned in Hscan as (_ & -> & Hrows).
  rewrite dereferenceLoop_spec, app_nil_l in Hi.
  apply elem_of_app in Hi as [Hi|Hi].
  - apply list_elem_of_fmap in Hi as (u & -> & Hu).
    apply list_elem_of_In, filter_In in Hu as [Hu [Hoff _]%andb_prop].
    rewrite Forall_forall in Hrows.
    assert (Hrow : row u < length sourceLines).
    { apply Hrows, list_elem_of_In, filter_In. by split. }
    destruct (lookup_lt_is_Some_2 _ _ Hrow) as [line Hline].
    exists u. split; [by apply list_elem_of_In|]. split.
    { unfold offDeclarationLine in Hoff. by apply negb_true_iff, Nat.eqb_neq in Hoff. }
    simpl. replace (row u + 1 - 1) with (row u) by lia.
    unfold codeLineAt. rewrite Hline. simpl. repeat split; lia.
  - destruct (isPointer v1 && negb (isInitialized v1)); [|by apply elem_of_nil in Hi].
    by apply list_elem_of_fmap in Hi as (d & -> & _).
Qed.

(** A declaration that is neither initialised nor a parameter gets no issue
    and keeps its flag as soon as one of the five lines before it holds,
    once trimmed, the text [struct ] or [typedef struct]; when none of them
    does, the check goes on to the scan.  Lines further up play no part. *)
Theorem struct_marker_in_five_lines_silences
    (ast : ASTNode) (v : VariableDeclaration) :
  isInitialized v = false →
  isParameter v = false →
  row (position v) ≤ length sourceLines →
  (isStructField sourceLines (row (position v)) = Some true
   ↔ ∃ k line, row (position v) - 5 ≤ k < row (position v)
               ∧ sourceLines !! k = Some line ∧ hasStructMarker line = true)
  ∧ (isStructField sourceLines (row (position v)) = Some true →
     checkVariableUsage sourceLines filePath ast v = Some (v, []))
  ∧ (∀ otherLines,
       length otherLines = length sourceLines →
       (∀ k, row (position v) - 5 ≤ k < row (position v) →
             otherLines !! k = sourceLines !! k) →
       isStructField otherLines (row (position v))
       = isStructField sourceLines (row (position v))).
Proof.
  intros Hinit Hpar Hrow. set (n := row (position v)) in *.
  assert (Hwindow : ∀ ls : list string, length ls = length sourceLines →
    ∀ l : string, l ∈ firstn (n - (n - 5)) (skipn (n - 5) ls)
         ↔ ∃ k, n - 5 ≤ k < n ∧ ls !! k = Some l).
  { intros ls Hlen l. rewrite list_elem_of_lookup. split.
    - intros [j Hj]. pose proof (lookup_lt_Some _ _ _ Hj) as Hlt.
      rewrite length_take in Hlt.
      rewrite lookup_take_lt, lookup_drop in Hj by lia.
      exists (n - 5 + j). split; [lia|done].
    - intros (k & Hk & Hl). exists (k - (n - 5)).
      rewrite lookup_take_lt, lookup_drop by lia.
      by replace (n - 5 + (k - (n - 5))) with k by lia. }
  split; [|split].
  - rewrite isStructField_window by done. unfold structWindow. split.
    + intros [= Hex]. apply existsb_exists in Hex as (l & Hl & Hm).
      apply list_elem_of_In, (Hwindow sourceLines eq_refl) in Hl as (k & Hk & Hl).
      by exists k, l.
    + intros (k & l & Hk & Hl & Hm). f_equal. apply existsb_exists.
      exists l. split; [|done].
      apply list_elem_of_In, (Hwindow sourceLines eq_refl). by exists k.
  - intros Hfield. unfold checkVariableUsage.
    fold n. by rewrite Hinit, Hpar, Hfield.
  - intros otherLines Hlen Hsame.
    unfold isStructField. cbv zeta. fold n.
    rewrite isStructField_from_spec by lia.
    assert (Hother : ∀ m i, i + m ≤ length otherLines →
      isStructField_from otherLines i m
      = Some (existsb hasStructMarker (firstn m (skipn i otherLines)))).
    { clear -otherLines. induction m as [|m IH]; intros i Hi; [done|].
      cbn [isStructField_from].
      destruct (lookup_lt_is_Some_2 otherLines i) as [l Hl]; [lia|].
      rewrite Hl. cbn [mbind option_bind].
      rewrite (drop_S _ _ _ Hl). cbn [firstn existsb]. unfold hasStructMarker at 1.
      destruct (includes (JsString.trim l) "typedef struct"
                || includes (JsString.trim l) "struct "); [done|].
      by rewrite IH by lia. }
    rewrite Hother by lia. do 2 f_equal.
    apply list_eq. intros j.
    destruct (decide (j < n - (n - 5))) as [Hj|Hj].
    + rewrite !lookup_take_lt, !lookup_drop by done. apply Hsame. lia.
    + rewrite !lookup_take_ge by lia. done.
Qed.

End VariableDetectorMore.

Section VariableDetectorInstances.
Import JsString VariableDetector Notions MoreNotions.

Lemma checkVariableUsage_only_sets_the_flag_witness :
  checkVariableUsage Samples.readAfterWrite_lines "t.c" Samples.readAfterWrite_tree
    Samples.readAfterWrite_x
  = Some (markInitialized Samples.readAfterWrite_x,
          [uninitializedIssue "t.c" Samples.readAfterWrite_lines
             Samples.readAfterWrite_x (Samples.at_ 2 4)])
  ∧ ∃ u line, u ∈ findVariableUsages Samples.readAfterWrite_tree "x"
              ∧ row u ≠ 0
              ∧ Samples.readAfterWrite_lines !! row u = Some line
              ∧ isAssignmentTarget line "x" (column u) = true.
Proof.
  split; [reflexivity|].
  exact (proj2 (proj2 (checkVariableUsage_only_sets_the_flag
                         Samples.readAfterWrite_lines "t.c" Samples.readAfterWrite_tree Samples.readAfterWrite_x _ _ eq_refl))
               eq_refl eq_refl).
Defined.

Lemma uninitialized_issue_names_a_line_of_the_file_witness :
  let i := uninitializedIssue "t.c" Samples.readAfterWrite_lines
             Samples.readAfterWrite_x (Samples.at_ 2 4) in
  ∃ u, u ∈ findVariableUsages Samples.readAfterWrite_tree "x"
       ∧ row u ≠ 0
       ∧ d_line i = row u + 1 ∧ d_column i = column u
       ∧ 1 ≤ d_line i ≤ 3
       ∧ Samples.readAfterWrite_lines !! (d_line i - 1) = Some (d_codeLine i)
       ∧ d_message i = UsedBeforeInit "x" ∧ d_file i = "t.c".
Proof.
  exact (uninitialized_issue_names_a_line_of_the_file
           Samples.readAfterWrite_lines "t.c" Samples.readAfterWrite_tree Samples.readAfterWrite_x _ _ eq_refl
           _ (list_elem_of_here _ _) eq_refl).
Defined.

Lemma struct_marker_in_five_lines_silences_witness :
  hasStructMarker "struct Node {" = true
  ∧ checkVariableUsage MoreSamples.field_lines "t.c" MoreSamples.field_tree
      MoreSamples.field_count
    = Some (MoreSamples.field_count, []).
Proof.
  split; [reflexivity|].
  exact (proj1 (proj2 (struct_marker_in_five_lines_silences
                         MoreSamples.field_lines "t.c" MoreSamples.field_tree MoreSamples.field_count
                         eq_refl eq_refl (le_S _ _ (le_S _ _ (le_n 1)))))
               eq_refl).
Defined.

End VariableDetectorInstances.

Section GroupingFacts.
Import JsString VariableDetector Notions MoreNotions.

Lemma groupInsert_keys d groups :
  (fst <$> groupInsert d groups)
  = (fst <$> groups) ++ (if bool_decide (scope d ∈ fst <$> groups) then [] else [scope d]).
Proof.
  induction groups as [|[s ds] rest IH]; [done|]. cbn [groupInsert].
  destruct (String.eqb_spec s (scope d)) as [->|Hne].
  - cbn [fmap list_fmap fst]. rewrite bool_decide_eq_true_2 by apply list_elem_of_here.
    by rewrite app_nil_r.
  - cbn [fmap list_fmap fst] in *. rewrite IH. cbn [app]. f_equal.
    rewrite (bool_decide_ext (scope d ∈ s :: rest.*1) (scope d ∈ rest.*1)); [done|].
    rewrite elem_of_cons. split; [|by right]. intros [Heq|Hin]; [by symmetry in Heq|done].
Qed.

Lemma groupInsert_concat d groups :
  concat (snd <$> groupInsert d groups) ≡ₚ concat (snd <$> groups) ++ [d].
Proof.
  induction groups as [|[s ds] rest IH]; [done|]. cbn [groupInsert].
  destruct (String.eqb s (scope d)); cbn [fmap list_fmap snd concat] in *.
  - rewrite <- !app_assoc. apply Permutation_app_head, Permutation_app_comm.
  - by rewrite IH, app_assoc.
Qed.

Lemma groupInsert_elem d groups s ds :
  NoDup (fst <$> groups) →
  (s, ds) ∈ groupInsert d groups →
  (s ≠ scope d ∧ (s, ds) ∈ groups)
  ∨ (s = scope d ∧ ∃ ds0, ds = ds0 ++ [d]
       ∧ ((s, ds0) ∈ groups ∨ (ds0 = [] ∧ s ∉ fst <$> groups))).
Proof.
  induction groups as [|[s0 ds0] rest IH]; intros Hnodup Hin; cbn [groupInsert] in Hin.
  - apply list_elem_of_singleton in Hin as [= -> ->]. right. split; [done|].
    exists []. split; [done|]. right. split; [done|]. apply not_elem_of_nil.
  - cbn [fmap list_fmap fst] in Hnodup. apply NoDup_cons in Hnodup as [Hfresh Hnodup].
    destruct (String.eqb_spec s0 (scope d)) as [->|Hne].
    + apply elem_of_cons in Hin as [[= -> ->]|Hin].
      * right. split; [done|]. exists ds0. split; [done|]. left. apply list_elem_of_here.
      * left. split; [|by apply list_elem_of_further].
        intros ->. apply Hfresh. apply list_elem_of_fmap. by exists (scope d, ds).
    + apply elem_of_cons in Hin as [[= -> ->]|Hin].
      * left. split; [done|]. apply list_elem_of_here.
      * destruct (IH Hnodup Hin) as [[Hs Hrest]|(-> & ds1 & -> & Hcase)].
        -- left. split; [done|]. by apply list_elem_of_further.
        -- right. split; [done|]. exists ds1. split; [done|].
           destruct Hcase as [Hrest|[-> Hrest]].
           ++ left. by apply list_elem_of_further.
           ++ right. split; [done|]. cbn [fmap list_fmap fst].
              rewrite elem_of_cons. intros [Heq|Hin']; [by symmetry in Heq|done].
Qed.

Lemma declaredIn_snoc s decls d :
  declaredIn s (decls ++ [d])
  = declaredIn s decls ++ (if String.eqb (scope d) s then [d] else []).
Proof. unfold declaredIn. by rewrite List.filter_app. Qed.

(** The loop of [groupVariablesByScope], with what it has seen so far. *)
Lemma grouping_invariant rest : ∀ groups seen,
  NoDup (fst <$> groups) →
  (∀ s ds, (s, ds) ∈ groups → ds = declaredIn s seen ∧ ds ≠ []) →
  (∀ d, d ∈ seen → scope d ∈ fst <$> groups) →
  let result := fold_left (fun grouped decl => groupInsert decl grouped) rest groups in
  NoDup (fst <$> result)
  ∧ (∀ s ds, (s, ds) ∈ result → ds = declaredIn s (seen ++ rest) ∧ ds ≠ [])
  ∧ (∀ d, d ∈ seen ++ rest → scope d ∈ fst <$> result).
Proof.
  induction rest as [|d rest IH]; intros groups seen Hnodup Hgroups Hseen.
  - simpl. by rewrite app_nil_r.
  - cbn [fold_left]. cbv zeta.
    replace (seen ++ d :: rest) with ((seen ++ [d]) ++ rest) by (by rewrite <- app_assoc).
    apply IH.
    + rewrite groupInsert_keys. case_bool_decide; [by rewrite app_nil_r|].
      apply NoDup_app. split; [done|]. split; [|apply NoDup_singleton].
      intros s Hs ->%list_elem_of_singleton. done.
    + intros s ds Hin.
      destruct (groupInsert_elem _ _ _ _ Hnodup Hin)
        as [[Hne Hin']|(-> & ds0 & -> & Hcase)]; clear Hin.
      * destruct (Hgroups _ _ Hin') as [-> Hnon]. split; [|done].
        rewrite declaredIn_snoc.
        destruct (String.eqb_spec (scope d) s) as [<-|]; [done|]. by rewrite app_nil_r.
      * split; [|by destruct ds0].
        rewrite declaredIn_snoc, String.eqb_refl. f_equal.
        destruct Hcase as [Hin|[-> Hfresh]]; [by apply Hgroups|].
        destruct (declaredIn (scope d) seen) as [|d' ds'] eqn:Hdecl; [done|].
        exfalso. apply Hfresh.
        assert (Hd' : In d' (declaredIn (scope d) seen)) by (rewrite Hdecl; by left).
        apply filter_In in Hd' as [Hd' Hscope%String.eqb_eq].
        rewrite <- Hscope. by apply Hseen, list_elem_of_In.
    + intros d0 Hd0. rewrite groupInsert_keys.
      apply elem_of_app in Hd0 as [Hd0 | ->%list_elem_of_singleton].
      * apply elem_of_app. left. by apply Hseen.
      * case_bool_decide; [by rewrite app_nil_r|].
        apply elem_of_app. right. apply list_elem_of_here.
Qed.

Lemma grouping_concat rest : ∀ groups,
  concat (snd <$> fold_left (fun grouped decl => groupInsert decl grouped) rest groups)
  ≡ₚ concat (snd <$> groups) ++ rest.
Proof.
  induction rest as [|d rest IH]; intros groups; cbn [fold_left].
  - by rewrite app_nil_r.
  - rewrite IH, groupInsert_concat. by rewrite <- app_assoc.
Qed.

End GroupingFacts.

Section GroupingClaims.
Import JsString VariableDetector Notions MoreNotions.

(** [groupVariablesByScope] splits the declarations by their scope: no scope
    occurs twice among the keys, every declaration has its scope among them,
    every group is not empty and holds exactly the declarations of its
    scope, in their order; so each declaration is in exactly one group. *)
Theorem groupVariablesByScope_partitions (declarations : list VariableDeclaration) :
  let groups := groupVariablesByScope declarations in
  NoDup (fst <$> groups)
  ∧ (∀ s ds, (s, ds) ∈ groups → ds = declaredIn s declarations ∧ ds ≠ [])
  ∧ (∀ d, d ∈ declarations → scope d ∈ fst <$> groups)
  ∧ concat (snd <$> groups) ≡ₚ declarations.
Proof.
  intros groups.
  destruct (grouping_invariant declarations [] []) as (Hnodup & Hgroups & Hall).
  - apply NoDup_nil_2.
  - by intros s ds ?%elem_of_nil.
  - by intros d ?%elem_of_nil.
  - split; [done|]. split; [done|]. split; [done|].
    unfold groups, groupVariablesByScope. by rewrite grouping_concat.
Qed.

End GroupingClaims.

Section AnalyzeFileFacts.
Import JsString VariableDetector Notions MoreNotions.
Variables (sourceLines : list string) (filePath : string) (ast : ASTNode).

Lemma variablesLoop_all_return variables : ∀ issues,
  Forall (fun v => is_Some (checkVariableUsage sourceLines filePath ast v)) variables →
  variablesLoop sourceLines filePath ast variables issues
  = (issues ++ flat_map (fun v => resultIssues (checkVariableUsage sourceLines filePath ast v))
                        variables, true).
Proof.
  induction variables as [|v rest IH]; intros issues Hall; cbn [variablesLoop flat_map].
  - by rewrite app_nil_r.
  - apply Forall_cons in Hall as [[[v' vIssues] Hv] Hrest].
    rewrite Hv, IH by done. cbn [resultIssues]. by rewrite <- app_assoc.
Qed.

Lemma variablesLoop_throw before v after : ∀ issues,
  Forall (fun v => is_Some (checkVariableUsage sourceLines filePath ast v)) before →
  checkVariableUsage sourceLines filePath ast v = None →
  variablesLoop sourceLines filePath ast (before ++ v :: after) issues
  = (issues ++ flat_map (fun v => resultIssues (checkVariableUsage sourceLines filePath ast v))
                        before, false).
Proof.
  induction before as [|v0 rest IH]; intros issues Hall Hv;
    cbn [variablesLoop flat_map app].
  - by rewrite Hv, app_nil_r.
  - apply Forall_cons in Hall as [[[v' vIssues] Hv0] Hrest].
    rewrite Hv0, IH by done. cbn [resultIssues]. by rewrite <- app_assoc.
Qed.

End AnalyzeFileFacts.

Section AnalyzeFileClaims.
Import JsString VariableDetector Notions MoreNotions.

(** [analyzeFile] of the variable detector.  When the parser throws, the
    result is empty.  Otherwise the declarations are checked group by group:
    if no check throws, the result is the issues of the declarations, in
    that order, followed by the issues of the null pointer check; if a check
    throws, the result is the issues of the declarations before it, and the
    null pointer check is not run.  Declarations that are initialised or
    parameters contribute nothing: if all are, the result is that of the
    null pointer check. *)
Theorem analyzeFile_collects_per_declaration
    (parse : string → option ASTNode) (filePath sourceCode : string) :
  (parse sourceCode = None → analyzeFile parse filePath sourceCode = [])
  ∧ ∀ ast, parse sourceCode = Some ast →
      let sourceLines := splitLines sourceCode in
      let variables :=
        concat (snd <$> groupVariablesByScope (extractVariableDeclarations ast)) in
      let issuesOf := fun v =>
        resultIssues (checkVariableUsage sourceLines filePath ast v) in
      (Forall (fun v => is_Some (checkVariableUsage sourceLines filePath ast v)) variables →
       analyzeFile parse filePath sourceCode
       = flat_map issuesOf variables
         ++ checkNullPointerDereference sourceLines filePath ast)
      ∧ (∀ before v after,
           variables = before ++ v :: after →
           Forall (fun v => is_Some (checkVariableUsage sourceLines filePath ast v)) before →
           checkVariableUsage sourceLines filePath ast v = None →
           analyzeFile parse filePath sourceCode = flat_map issuesOf before)
      ∧ (Forall (fun d => isInitialized d || isParameter d = true)
                (extractVariableDeclarations ast) →
         analyzeFile parse filePath sourceCode
         = checkNullPointerDereference sourceLines filePath ast).
Proof.
  split.
  - intros Hparse. unfold analyzeFile. by rewrite Hparse.
  - intros ast Hparse sourceLines variables issuesOf.
    assert (Hrun : analyzeFile parse filePath sourceCode
      = match variablesLoop sourceLines filePath ast variables [] with
        | (issues, true) => issues ++ checkNullPointerDereference sourceLines filePath ast
        | (issues, false) => issues
        end).
    { unfold analyzeFile. by rewrite Hparse. }
    split; [|split].
    + intros Hall. by rewrite Hrun, variablesLoop_all_return.
    + intros before v after Hvars Hbefore Hv.
      by rewrite Hrun, Hvars, variablesLoop_throw.
    + intros Hdone.
      assert (Hvars : Forall (fun d => isInitialized d || isParameter d = true) variables).
      { unfold variables, groupVariablesByScope. rewrite grouping_concat. done. }
      assert (Hquiet : ∀ v, isInitialized v || isParameter v = true →
        checkVariableUsage sourceLines filePath ast v = Some (v, [])).
      { intros v Hv. unfold checkVariableUsage. by rewrite Hv. }
      assert (Hnil : ∀ vs, Forall (fun d => isInitialized d || isParameter d = true) vs →
        flat_map issuesOf vs = []).
      { induction vs as [|v vs IH]; intros Hvs; [done|].
        apply Forall_cons in Hvs as [Hv Hvs]. cbn [flat_map].
        unfold issuesOf at 1. by rewrite (Hquiet _ Hv), IH. }
      rewrite Hrun, variablesLoop_all_return.
      * fold issuesOf. by rewrite app_nil_l, Hnil.
      * eapply Forall_impl; [exact Hvars|]. intros v Hv. by rewrite (Hquiet _ Hv).
Qed.

End AnalyzeFileClaims.

(** ** More on the distance of Levenshtein *)

Section LevenshteinMore.
Import JsString LibraryDetector Notions.

(** The distance between two prefixes depends on the prefixes only. *)
Lemma lev_prefixes a a' b b' i : ∀ j,
  (∀ k, k < i → String.get k a = String.get k a') →
  (∀ k, k < j → String.get k b = String.get k b') →
  lev a b i j = lev a' b' i j.
Proof.
  induction i as [|i IHi]; intros j Ha Hb; [by rewrite !lev_0_l|].
  induction j as [|j IHj]; [by rewrite !lev_0_r|].
  rewrite !lev_S_S.
  rewrite (IHi (S j)), IHj, (IHi j), (Ha i), (Hb j); try done; try lia;
    intros k Hk; try apply Ha; try apply Hb; lia.
Qed.

Lemma lev_lower a b i : ∀ j, i - j ≤ lev a b i j ∧ j - i ≤ lev a b i j.
Proof.
  induction i as [|i IHi]; intros j; [rewrite lev_0_l; lia|].
  induction j as [|j IHj]; [rewrite lev_0_r; lia|].
  rewrite lev_S_S. pose proof (IHi (S j)). pose proof (IHi j).
  destruct (decide _); lia.
Qed.

Lemma lev_upper a b i : ∀ j, lev a b i j ≤ Nat.max i j.
Proof.
  induction i as [|i IHi]; intros j; [rewrite lev_0_l; lia|].
  destruct j as [|j]; [rewrite lev_0_r; lia|].
  rewrite lev_S_S. pose proof (IHi j). destruct (decide _); lia.
Qed.

Lemma lev_zero a b i : ∀ j,
  lev a b i j = 0 → i = j ∧ ∀ k, k < i → String.get k a = String.get k b.
Proof.
  induction i as [|i IHi]; intros j.
  - rewrite lev_0_l. intros ->. split; [done|]. lia.
  - destruct j as [|j]; [by rewrite lev_0_r|].
    rewrite lev_S_S. intros Hzero.
    destruct (decide (String.get i a = String.get j b)) as [Heq|Hne]; [|lia].
    assert (Hprev : lev a b i j = 0) by lia.
    destruct (IHi _ Hprev) as [-> Hget]. split; [done|].
    intros k Hk. destruct (decide (k = j)) as [->|]; [done|]. apply Hget. lia.
Qed.

Lemma get_length_None s : String.get (String.length s) s = None.
Proof. induction s as [|c s IH]; [done|]. exact IH. Qed.

Lemma string_ext s : ∀ t,
  String.length s = String.length t →
  (∀ k, k < String.length s → String.get k s = String.get k t) →
  s = t.
Proof.
  induction s as [|c s IH]; intros [|d t] Hlen Hget; try done.
  simpl in Hlen. f_equal.
  - specialize (Hget 0 ltac:(simpl; lia)). by injection Hget.
  - apply IH; [lia|]. intros k Hk. apply (Hget (S k)). simpl. lia.
Qed.

Lemma length_snoc s c : String.length (s +:+ String c "") = S (String.length s).
Proof. induction s as [|d s IH]; [done|]. simpl. by rewrite IH. Qed.

Lemma get_snoc_before s c k :
  k < String.length s → String.get k (s +:+ String c "") = String.get k s.
Proof. intros Hk. symmetry. by apply String.append_correct1. Qed.

Lemma get_snoc_last s c : String.get (String.length s) (s +:+ String c "") = Some c.
Proof. induction s as [|d s IH]; [done|]. exact IH. Qed.


(** Going through a third string is never shorter. *)
Lemma lev_triangle a b c n : ∀ i j k,
  i + j + k ≤ n → lev a c i k ≤ lev a b i j + lev b c j k.
Proof.
  induction n as [|n IH]; intros i j k Hn.
  - assert (i = 0) as -> by lia. assert (j = 0) as -> by lia.
    assert (k = 0) as -> by lia. by rewrite !lev_0_l.
  - destruct i as [|i].
    { rewrite !lev_0_l. pose proof (lev_lower b c j k). lia. }
    destruct k as [|k].
    { rewrite !lev_0_r. pose proof (lev_lower a b (S i) j). lia. }
    destruct j as [|j].
    { rewrite lev_0_r, lev_0_l. pose proof (lev_upper a c (S i) (S k)). lia. }
    pose proof (IH i (S j) (S k) ltac:(lia)).
    pose proof (IH (S i) j (S k) ltac:(lia)).
    pose proof (IH i j (S k) ltac:(lia)).
    pose proof (IH (S i) (S j) k ltac:(lia)).
    pose proof (IH i j k ltac:(lia)).
    pose proof (lev_step_row a c i (S k)).
    pose proof (lev_step_column a c (S i) k).
    pose proof (lev_back_row b c (S k) j).
    assert (Hac : lev a c (S i) (S k)
                  ≤ lev a c i k + (if decide (String.get i a = String.get k c) then 0 else 1)).
    { rewrite lev_S_S. lia. }
    rewrite (lev_S_S a b), (lev_S_S b c).
    rewrite (lev_S_S a b) in *. rewrite (lev_S_S b c) in *.
    destruct (decide (String.get i a = String.get k c)),
             (decide (String.get i a = String.get j b)),
             (decide (String.get j b = String.get k c)); try congruence; lia.
Qed.

(** [levenshteinDistance] always returns a number, and its results obey the
    recursion that defines the distance of Levenshtein on the last code
    units: against the empty string the distance is the length; equal last
    units can be dropped; different last units cost one more than the least
    of the three distances with one or both of them dropped. *)
Theorem levenshteinDistance_recursion :
  (∀ s t, is_Some (levenshteinDistance s t))
  ∧ (∀ t, levenshteinDistance "" t = Some (String.length t))
  ∧ (∀ s, levenshteinDistance s "" = Some (String.length s))
  ∧ (∀ s t c,
       levenshteinDistance (s +:+ String c "") (t +:+ String c "")
       = levenshteinDistance s t)
  ∧ (∀ s t c d both first second,
       c ≠ d →
       levenshteinDistance s t = Some both →
       levenshteinDistance s (t +:+ String d "") = Some first →
       levenshteinDistance (s +:+ String c "") t = Some second →
       levenshteinDistance (s +:+ String c "") (t +:+ String d "")
       = Some (1 + Nat.min both (Nat.min first second))).
Proof.
  assert (Hsnoc : ∀ s t c d i j,
    i ≤ String.length s → j ≤ String.length t →
    lev (s +:+ String c "") (t +:+ String d "") i j = lev s t i j).
  { intros s t c d i j Hi Hj. apply lev_prefixes; intros k Hk; apply get_snoc_before; lia. }
  assert (Hleft : ∀ s t c i j,
    i ≤ String.length s → lev (s +:+ String c "") t i j = lev s t i j).
  { intros s t c i j Hi. apply lev_prefixes; [|done]. intros k Hk. apply get_snoc_before. lia. }
  assert (Hright : ∀ s t d i j,
    j ≤ String.length t → lev s (t +:+ String d "") i j = lev s t i j).
  { intros s t d i j Hj. apply lev_prefixes; [done|]. intros k Hk. apply get_snoc_before. lia. }
  split; [|split; [|split; [|split]]].
  - intros s t. rewrite levenshteinDistance_correct. by eexists.
  - intros t. rewrite levenshteinDistance_correct. unfold levenshtein. by rewrite lev_0_l.
  - intros s. rewrite levenshteinDistance_correct. unfold levenshtein. by rewrite lev_0_r.
  - intros s t c. rewrite !levenshteinDistance_correct. unfold levenshtein.
    rewrite !length_snoc, lev_same by (by rewrite !get_snoc_last).
    by rewrite Hsnoc.
  - intros s t c d both first second Hne.
    rewrite !levenshteinDistance_correct. unfold levenshtein.
    rewrite !length_snoc. intros Hboth Hfirst Hsecond.
    assert (both = lev s t (String.length s) (String.length t)) as -> by congruence.
    assert (first = lev s (t +:+ String d "") (String.length s) (S (String.length t)))
      as -> by congruence.
    assert (second = lev (s +:+ String c "") t (S (String.length s)) (String.length t))
      as -> by congruence.
    clear Hboth Hfirst Hsecond.
    rewrite lev_differ by (rewrite !get_snoc_last; congruence).
    rewrite Hsnoc by done.
    rewrite (lev_prefixes (s +:+ String c "") (s +:+ String c "")
               (t +:+ String d "") t (S (String.length s)) (String.length t));
      [|done|intros k Hk; by apply get_snoc_before].
    rewrite (lev_prefixes (s +:+ String c "") s
               (t +:+ String d "") (t +:+ String d "")
               (String.length s) (S (String.length t)));
      [|intros k Hk; by apply get_snoc_before|done].
    f_equal. lia.
Qed.

(** The distance does not depend on the order of the two strings. *)
Theorem levenshteinDistance_symmetric (str1 str2 : string) :
  levenshteinDistance str1 str2 = levenshteinDistance str2 str1.
Proof.
  rewrite !levenshteinDistance_correct. unfold levenshtein. f_equal. apply lev_sym.
Qed.

(** The distance is 0 exactly between equal strings. *)
Theorem levenshteinDistance_zero_iff_equal (str1 str2 : string) :
  levenshteinDistance str1 str2 = Some 0 ↔ str1 = str2.
Proof.
  rewrite levenshteinDistance_correct. unfold levenshtein. split.
  - intros [= Hzero]. apply lev_zero in Hzero as [Hlen Hget].
    by apply string_ext.
  - intros ->. f_equal. apply levenshtein_same.
Qed.

(** The distance is at least the difference of the lengths and at most the
    greater length. *)
Theorem levenshteinDistance_between_lengths (str1 str2 : string) :
  ∃ d, levenshteinDistance str1 str2 = Some d
       ∧ String.length str1 - String.length str2 ≤ d
       ∧ String.length str2 - String.length str1 ≤ d
       ∧ d ≤ Nat.max (String.length str1) (String.length str2).
Proof.
  rewrite levenshteinDistance_correct. eexists. split; [done|].
  unfold levenshtein.
  pose proof (lev_lower str1 str2 (String.length str1) (String.length str2)).
  pose proof (lev_upper str1 str2 (String.length str1) (String.length str2)). lia.
Qed.


(** The distance between two strings is at most the sum of their distances
    to any third string. *)
Theorem levenshteinDistance_triangle (str1 str2 str3 : string) :
  ∃ d12 d23 d13,
    levenshteinDistance str1 str2 = Some d12
    ∧ levenshteinDistance str2 str3 = Some d23
    ∧ levenshteinDistance str1 str3 = Some d13
    ∧ d13 ≤ d12 + d23.
Proof.
  rewrite !levenshteinDistance_correct. eexists _, _, _.
  split; [done|]. split; [done|]. split; [done|].
  unfold levenshtein. by eapply lev_triangle.
Qed.

End LevenshteinMore.

(** ** More on the library detector *)

Section HeaderCheckFacts.
Import JsString LibraryDetector Notions HeaderNotions.

(** No tabulated function is named like an inherited property, every
    tabulated function has a header, and every header of the table is a
    standard header. *)
Lemma table_facts name requiredHeaders :
  STANDARD_LIBRARY_FUNCTIONS !! name = Some requiredHeaders →
  (name ∉ objectPrototypeProperties)
  ∧ requiredHeaders ≠ []
  ∧ ∀ header, header ∈ requiredHeaders → header ∈ standardHeaders.
Proof.
  intros Hname.
  assert (Hall : forallb (fun entry =>
      negb (bool_decide (entry.1 ∈ objectPrototypeProperties))
      && negb (bool_decide (entry.2 = []))
      && forallb (fun header => bool_decide (header ∈ standardHeaders)) entry.2)
    (map_to_list STANDARD_LIBRARY_FUNCTIONS) = true) by (vm_compute; reflexivity).
  rewrite forallb_forall in Hall.
  apply elem_of_map_to_list, list_elem_of_In, Hall in Hname.
  apply andb_prop in Hname as [[Hproto Hnil]%andb_prop Hheaders]. cbn [fst snd] in *.
  apply negb_true_iff, bool_decide_eq_false_1 in Hproto.
  apply negb_true_iff, bool_decide_eq_false_1 in Hnil.
  split; [done|]. split; [done|]. intros header Hheader.
  rewrite forallb_forall in Hheaders.
  by apply list_elem_of_In, Hheaders, bool_decide_eq_true_1 in Hheader.
Qed.

Lemma tableGet_cases call :
  tableGet (call_name call)
  = match STANDARD_LIBRARY_FUNCTIONS !! call_name call with
    | Some requiredHeaders => HeaderArray requiredHeaders
    | None => if namedLikeInherited call then InheritedValue else UndefinedValue
    end.
Proof. reflexivity. Qed.

Lemma namedLikeInherited_tabulated call requiredHeaders :
  STANDARD_LIBRARY_FUNCTIONS !! call_name call = Some requiredHeaders →
  namedLikeInherited call = false.
Proof.
  intros (Hproto & _)%table_facts. by apply bool_decide_eq_false_2.
Qed.

Lemma hasRequiredHeader_names (includes : list IncludeDirective) requiredHeaders :
  existsb (fun header => bool_decide (header ∈ includedHeadersOf includes)) requiredHeaders
  = negb (forallb (fun header => negb (bool_decide (header ∈ headerName <$> includes)))
                  requiredHeaders).
Proof.
  induction requiredHeaders as [|header rest IH]; [done|]. cbn [existsb forallb].
  rewrite IH, negb_andb, negb_involutive. f_equal.
  apply bool_decide_ext. unfold includedHeadersOf. by rewrite elem_of_list_to_set.
Qed.

(** The loop over the calls, whatever their names. *)
Lemma callLoop_in_general filePath sourceLines includes functionCalls : ∀ issues,
  callLoop filePath sourceLines (includedHeadersOf includes) functionCalls issues
  = issues ++ omap (fun call =>
                      headerIssue filePath sourceLines call
                        <$> missingHeaders (headerName <$> includes) call)
                   (checkedCalls functionCalls).
Proof.
  induction functionCalls as [|call rest IH]; intros issues;
    cbn [callLoop checkedCalls].
  - cbn [omap list_omap]. by rewrite app_nil_r.
  - rewrite tableGet_cases.
    destruct (STANDARD_LIBRARY_FUNCTIONS !! call_name call) as [requiredHeaders|] eqn:Htable.
    + rewrite (namedLikeInherited_tabulated _ _ Htable). cbn [omap list_omap].
      unfold missingHeaders at 1. rewrite Htable. cbn [mbind option_bind].
      rewrite hasRequiredHeader_names.
      destruct (forallb _ requiredHeaders); cbn [negb fmap option_fmap option_map].
      * by rewrite IH, <- app_assoc.
      * by rewrite IH.
    + destruct (namedLikeInherited call); cbn [omap list_omap].
      * by rewrite app_nil_r.
      * unfold missingHeaders at 1. rewrite Htable.
        cbn [mbind option_bind fmap option_fmap option_map].
        by rewrite IH.
Qed.

Lemma omap_sublist {A B} (f g : A → option B) (l : list A) :
  (∀ x y, f x = Some y → g x = Some y) → sublist (omap f l) (omap g l).
Proof.
  intros Hfg. induction l as [|x l IH]; cbn [omap list_omap]; [constructor|].
  destruct (f x) as [y|] eqn:Hf.
  - rewrite (Hfg _ _ Hf). by constructor.
  - destruct (g x); [by constructor|done].
Qed.

Lemma toLowerCase_length s : String.length (toLowerCase s) = String.length s.
Proof. induction s as [|c s IH]; [done|]. simpl. by rewrite IH. Qed.

End HeaderCheckFacts.

Section HeaderCheckInGeneral.
Import JsString LibraryDetector Notions HeaderNotions.

(** The header check, whatever the names of the callees.  The calls are
    checked in their order up to the first one named like a property that
    every object inherits; each checked call of a tabulated function none of
    whose headers is the name of an include gets one Header issue with all
    its headers, and no other call gets an issue.  A parser that throws
    gives no issue. *)
Theorem header_check_up_to_first_inherited_name
    (parse : string → option ASTNode) (filePath sourceCode : string) :
  match parse sourceCode with
  | None => LibraryDetector.analyzeFile parse filePath sourceCode = []
  | Some ast =>
      LibraryDetector.analyzeFile parse filePath sourceCode
      = omap (fun call =>
                headerIssue filePath (splitLines sourceCode) call
                  <$> missingHeaders (headerName <$> extractIncludeDirectives ast) call)
             (checkedCalls (extractFunctionCalls ast))
  end.
Proof.
  unfold LibraryDetector.analyzeFile. destruct (parse sourceCode) as [ast|]; [|done].
  cbv zeta. by rewrite callLoop_in_general.
Qed.

(** Every issue of the header check stands for a call of the file: the
    callee is tabulated, none of its headers is the name of an include, the
    issue is on the line of the call, and it names the callee with all its
    headers, each of which is a standard header. *)
Theorem header_issue_stands_for_a_call_without_header
    (parse : string → option ASTNode) (filePath sourceCode : string) (i : DetectorIssue) :
  i ∈ LibraryDetector.analyzeFile parse filePath sourceCode →
  ∃ ast call requiredHeaders,
    parse sourceCode = Some ast
    ∧ call ∈ extractFunctionCalls ast
    ∧ STANDARD_LIBRARY_FUNCTIONS !! call_name call = Some requiredHeaders
    ∧ requiredHeaders ≠ []
    ∧ (∀ header, header ∈ requiredHeaders → header ∈ standardHeaders)
    ∧ (∀ include, include ∈ extractIncludeDirectives ast →
                  headerName include ∉ requiredHeaders)
    ∧ d_category i = "Header" ∧ d_severity i = 1 ∧ d_file i = filePath
    ∧ d_line i = row (call_position call) + 1
    ∧ d_column i = column (call_position call)
    ∧ d_message i = NeedsHeader (call_name call) requiredHeaders.
Proof.
  unfold LibraryDetector.analyzeFile.
  destruct (parse sourceCode) as [ast|]; [|by intros ?%elem_of_nil]. cbv zeta.
  rewrite callLoop_in_general, app_nil_l.
  intros (call & Hcall & Hissue)%list_elem_of_omap.
  unfold missingHeaders in Hissue.
  destruct (STANDARD_LIBRARY_FUNCTIONS !! call_name call) as [requiredHeaders|] eqn:Htable;
    [|done].
  cbn [mbind option_bind] in Hissue.
  destruct (forallb _ requiredHeaders) eqn:Hnone; [|done].
  injection Hissue as <-.
  destruct (table_facts _ _ Htable) as (_ & Hnil & Hstandard).
  exists ast, call, requiredHeaders. split; [done|]. split.
  { clear -Hcall. induction (extractFunctionCalls ast) as [|c rest IH];
      cbn [checkedCalls] in Hcall; [by apply elem_of_nil in Hcall|].
    destruct (namedLikeInherited c); [by apply elem_of_nil in Hcall|].
    apply elem_of_cons in Hcall as [->|Hcall]; [apply list_elem_of_here|].
    by apply list_elem_of_further, IH. }
  split; [exact Htable|]. split; [exact Hnil|]. split; [exact Hstandard|].
  split; [|repeat split].
  intros include Hinclude Hin. rewrite forallb_forall in Hnone.
  apply list_elem_of_In, Hnone, negb_true_iff, bool_decide_eq_false_1 in Hin.
  apply Hin, list_elem_of_fmap. exists include. split; [reflexivity|exact Hinclude].
Qed.

(** Including more headers never adds a Header issue: with the same calls
    and at least the same include names, the issues are among the former
    ones, in the same order. *)
Theorem more_includes_fewer_header_issues
    (parse parse' : string → option ASTNode) (filePath sourceCode : string)
    (ast ast' : ASTNode) :
  parse sourceCode = Some ast →
  parse' sourceCode = Some ast' →
  extractFunctionCalls ast' = extractFunctionCalls ast →
  (∀ include, include ∈ extractIncludeDirectives ast →
     ∃ include', include' ∈ extractIncludeDirectives ast'
                 ∧ headerName include' = headerName include) →
  sublist (LibraryDetector.analyzeFile parse' filePath sourceCode)
          (LibraryDetector.analyzeFile parse filePath sourceCode).
Proof.
  intros Hparse Hparse' Hcalls Hincludes. unfold LibraryDetector.analyzeFile.
  rewrite Hparse, Hparse', Hcalls. cbv zeta. rewrite !callLoop_in_general, !app_nil_l.
  apply omap_sublist. intros call issue. unfold missingHeaders.
  destruct (STANDARD_LIBRARY_FUNCTIONS !! call_name call) as [requiredHeaders|]; [|done].
  cbn [mbind option_bind].
  destruct (forallb _ requiredHeaders) eqn:Hnone'; [|done].
  intros Hissue.
  replace (forallb _ requiredHeaders) with true; [done|].
  symmetry. apply forallb_forall. intros header Hheader.
  rewrite forallb_forall in Hnone'. specialize (Hnone' _ Hheader).
  apply negb_true_iff, bool_decide_eq_false_1 in Hnone'.
  apply negb_true_iff, bool_decide_eq_false_2. intros Hin. apply Hnone'.
  apply list_elem_of_fmap in Hin as (include & -> & Hinclude).
  destruct (Hincludes _ Hinclude) as (include' & Hin' & Hname).
  apply list_elem_of_fmap. by exists include'.
Qed.

(** An include that names a header of a tabulated function satisfies both
    checks: the header check has no issue for the calls of that function,
    and the spelling check has no issue for the include, whether it is a
    system include or not. *)
Theorem included_header_satisfies_both_checks
    (parse : string → option ASTNode) (filePath sourceCode : string) (ast : ASTNode)
    (name : string) (requiredHeaders : list string) (include : IncludeDirective) :
  parse sourceCode = Some ast →
  STANDARD_LIBRARY_FUNCTIONS !! name = Some requiredHeaders →
  include ∈ extractIncludeDirectives ast →
  headerName include ∈ requiredHeaders →
  (∀ i, i ∈ LibraryDetector.analyzeFile parse filePath sourceCode →
        ∀ headers, d_message i ≠ NeedsHeader name headers)
  ∧ (∀ i, i ∈ checkHeaderSpelling parse filePath sourceCode →
          ∀ suggestion, d_message i ≠ SuspiciousHeader (headerName include) suggestion).
Proof.
  intros Hparse Htable Hinclude Hheader. split.
  - intros i Hi headers Hmessage.
    unfold LibraryDetector.analyzeFile in Hi. rewrite Hparse in Hi. cbv zeta in Hi.
    rewrite callLoop_in_general, app_nil_l in Hi.
    apply list_elem_of_omap in Hi as (call & _ & Hissue).
    unfold missingHeaders in Hissue.
    destruct (STANDARD_LIBRARY_FUNCTIONS !! call_name call) as [requiredHeaders'|] eqn:Htable';
      [|done].
    cbn [mbind option_bind] in Hissue.
    destruct (forallb _ requiredHeaders') eqn:Hnone; [|done].
    injection Hissue as <-. cbn [d_message headerIssue] in Hmessage.
    injection Hmessage as Hname _. rewrite Hname, Htable in Htable'.
    injection Htable' as <-. rewrite forallb_forall in Hnone.
    apply list_elem_of_In, Hnone, negb_true_iff, bool_decide_eq_false_1 in Hheader.
    apply Hheader, list_elem_of_fmap. exists include. split; [reflexivity|exact Hinclude].
  - intros i Hi suggestion Hmessage.
    unfold checkHeaderSpelling in Hi. rewrite Hparse in Hi. cbv zeta in Hi.
    rewrite includeLoop_spec, app_nil_l in Hi.
    apply list_elem_of_fmap in Hi as (include' & -> & Hsuspicious).
    apply list_elem_of_In, filter_In in Hsuspicious as [_ Hsuspicious].
    cbn [d_message headerSpellingIssue] in Hmessage. injection Hmessage as Hname _.
    unfold isSuspicious in Hsuspicious. apply andb_prop in Hsuspicious as [_ Hnot].
    apply negb_true_iff, bool_decide_eq_false_1 in Hnot. apply Hnot.
    rewrite Hname. by apply (table_facts _ _ Htable).
Qed.

(** The suggestion of the spelling check is a standard header whose length
    differs by at most 2 from the length of the name, so a name of more than
    12 units or of fewer than 4 gets no suggestion. *)
Theorem suggestion_within_two_units (headerName : string) :
  (∀ suggestion,
     suggestCorrectHeader headerName standardHeaders = Some suggestion →
     suggestion ∈ standardHeaders
     ∧ String.length headerName - 2 ≤ String.length suggestion
     ∧ String.length suggestion ≤ String.length headerName + 2)
  ∧ (String.length headerName < 4 ∨ 12 < String.length headerName →
     suggestCorrectHeader headerName standardHeaders = None).
Proof.
  assert (Hsome : ∀ suggestion,
    suggestCorrectHeader headerName standardHeaders = Some suggestion →
    suggestion ∈ standardHeaders
    ∧ String.length headerName - 2 ≤ String.length suggestion
    ∧ String.length suggestion ≤ String.length headerName + 2
    ∧ 6 ≤ String.length suggestion ≤ 10).
  { intros suggestion Hsuggestion.
    pose proof (suggestCorrectHeader_spec headerName standardHeaders) as Hspec.
    rewrite Hsuggestion in Hspec.
    destruct Hspec as [Hnear Hfirst%firstClosest_elem].
    assert (Hlengths : forallb (fun header =>
        (6 <=? String.length header) && (String.length header <=? 10)
        && String.eqb (toLowerCase header) header) standardHeaders = true)
      by (vm_compute; reflexivity).
    rewrite forallb_forall in Hlengths.
    specialize (Hlengths _ (proj1 (list_elem_of_In _ _) Hfirst)).
    apply andb_prop in Hlengths
      as [[Hlow%Nat.leb_le Hhigh%Nat.leb_le]%andb_prop Hlower%String.eqb_eq].
    unfold distanceTo, levenshtein in Hnear. rewrite Hlower in Hnear.
    pose proof (lev_lower (toLowerCase headerName) suggestion
                  (String.length (toLowerCase headerName)) (String.length suggestion))
      as Hbounds.
    rewrite toLowerCase_length in Hbounds, Hnear.
    split; [done|]. lia. }
  split.
  - intros suggestion Hsuggestion. destruct (Hsome _ Hsuggestion) as (? & ? & ? & _). done.
  - intros Hlength.
    destruct (suggestCorrectHeader headerName standardHeaders) as [suggestion|] eqn:Hsuggestion;
      [|done].
    destruct (Hsome _ eq_refl) as (_ & ? & ? & ?). lia.
Qed.

End HeaderCheckInGeneral.

Section HeaderCheckInstances.
Import JsString LibraryDetector Notions HeaderNotions Samples HeaderSamples.

Lemma header_issue_stands_for_a_call_without_header_witness :
  ∃ ast call requiredHeaders,
    ast = plain_tree
    ∧ call ∈ extractFunctionCalls ast
    ∧ STANDARD_LIBRARY_FUNCTIONS !! call_name call = Some requiredHeaders
    ∧ d_line (headerIssue "t.c" inherited_lines call_putchar ["stdio.h"])
      = row (call_position call) + 1.
Proof.
  destruct (header_issue_stands_for_a_call_without_header
              (fun _ => Some plain_tree) "t.c" inherited_code
              (headerIssue "t.c" inherited_lines call_putchar ["stdio.h"]))
    as (ast & call & requiredHeaders & Hparse & Hcall & Htable & _ & _ & _
        & _ & _ & _ & Hline & _).
  - vm_compute. apply list_elem_of_here.
  - exists ast, call, requiredHeaders. split; [congruence|].
    split; [exact Hcall|]. split; [exact Htable|exact Hline].
Defined.

Lemma more_includes_fewer_header_issues_witness :
  sublist (LibraryDetector.analyzeFile (fun _ => Some included_tree) "t.c" inherited_code)
          (LibraryDetector.analyzeFile (fun _ => Some plain_tree) "t.c" inherited_code).
Proof.
  apply (more_includes_fewer_header_issues
           (fun _ => Some plain_tree) (fun _ => Some included_tree) "t.c" inherited_code
           plain_tree included_tree eq_refl eq_refl eq_refl).
  intros include Hinclude. by apply elem_of_nil in Hinclude.
Defined.

Lemma included_header_satisfies_both_checks_witness :
  (∀ i, i ∈ LibraryDetector.analyzeFile (fun _ => Some included_tree) "t.c" inherited_code →
        ∀ headers, d_message i ≠ NeedsHeader "putchar" headers)
  ∧ (∀ i, i ∈ checkHeaderSpelling (fun _ => Some included_tree) "t.c" inherited_code →
          ∀ suggestion, d_message i ≠ SuspiciousHeader "stdio.h" suggestion).
Proof.
  apply (included_header_satisfies_both_checks
           (fun _ => Some included_tree) "t.c" inherited_code included_tree
           "putchar" ["stdio.h"] include_stdio eq_refl).
  - by vm_compute.
  - apply list_elem_of_here.
  - apply list_elem_of_here.
Defined.

End HeaderCheckInstances.

(** ** More on the format check *)

Section FormatBlockFacts.
Import JsString Heuristic Notions FormatNotions.
Variables (getVar : string → option VariableInfo) (filePath : string) (i : nat)
  (raw : string).

(** The loop over the arguments of [scanf] as a filter. *)
Lemma scanfAddressLoop_filter exprs : ∀ issues,
  scanfAddressLoop getVar filePath i raw exprs issues
  = issues ++ map (fun _ => formatIssue filePath i raw ScanfNeedsAddress)
                  (List.filter (wantsAddress getVar) exprs).
Proof.
  induction exprs as [|expr rest IH]; intros issues; cbn [scanfAddressLoop List.filter].
  - by rewrite app_nil_r.
  - cbv zeta. unfold wantsAddress at 1.
    destruct (isEmpty (getNameFromExpr expr)); cbn [negb andb]; [apply IH|].
    destruct (startsWith "&" (trim expr)); cbn [negb andb]; [apply IH|].
    destruct (negb _); [|apply IH].
    rewrite IH. cbn [map]. by rewrite <- app_assoc.
Qed.

(** The block on a line with a call whose text splits into parts. *)
Lemma checkPrintfScanf_parts line fmt rest :
  callsOneOf ["printf"; "scanf"] false line = true →
  getArgsFromCall line = fmt :: rest →
  checkPrintfScanf getVar filePath i raw line
  = (if length rest <? specifiersOf fmt
     then [formatIssue filePath i raw (TooFewArguments (callsOneOf ["scanf"] false line))]
     else [])
    ++ (if specifiersOf fmt <? length rest
        then [formatIssue filePath i raw (TooManyArguments (callsOneOf ["scanf"] false line))]
        else [])
    ++ (if callsOneOf ["scanf"] false line
        then map (fun _ => formatIssue filePath i raw ScanfNeedsAddress)
                 (List.filter (wantsAddress getVar) rest)
        else []).
Proof.
  intros Hcall Hargs. unfold checkPrintfScanf. rewrite Hcall, Hargs. cbv zeta.
  fold (specifiersOf fmt).
  replace (length (fmt :: rest) - 1) with (length rest) by (simpl; lia).
  destruct (callsOneOf ["scanf"] false line).
  - rewrite scanfAddressLoop_filter.
    by destruct (length rest <? specifiersOf fmt), (specifiersOf fmt <? length rest).
  - destruct (length rest <? specifiersOf fmt), (specifiersOf fmt <? length rest);
      by rewrite ?app_nil_r.
Qed.

(** What one line contributes: nothing, or what the block gives for its
    scanned text. *)
Lemma formatIssuesOfLine_cases :
  formatIssuesOfLine getVar filePath i raw = []
  ∨ (isEmpty (trim raw) = false
     ∧ startsWith "#" (trim raw) = false
     ∧ callsOneOf ["printf"; "scanf"] false (scannedText raw) = true
     ∧ ∃ fmt rest,
         getArgsFromCall (scannedText raw) = fmt :: rest
         ∧ formatIssuesOfLine getVar filePath i raw
           = checkPrintfScanf getVar filePath i raw (scannedText raw)).
Proof.
  unfold formatIssuesOfLine. cbv zeta.
  destruct (isEmpty (trim raw)); [by left|].
  destruct (startsWith "#" (trim raw)); [by left|].
  fold (scannedText raw).
  destruct (isLikelyDecl (scannedText raw)); [by left|].
  unfold checkPrintfScanf at 1.
  destruct (callsOneOf ["printf"; "scanf"] false (scannedText raw)) eqn:Hcall; [|by left].
  destruct (getArgsFromCall (scannedText raw)) as [|fmt rest] eqn:Hargs; [by left|].
  right. split; [done|]. split; [done|]. split; [done|].
  exists fmt, rest. split; [done|]. unfold checkPrintfScanf. by rewrite Hcall, Hargs.
Qed.

Lemma filter_advice_constant (exprs : list string) :
  List.filter isCountMismatch
    (map (fun _ => formatIssue filePath i raw ScanfNeedsAddress) exprs) = []
  ∧ List.filter isAddressAdvice
      (map (fun _ => formatIssue filePath i raw ScanfNeedsAddress) exprs)
    = map (fun _ => formatIssue filePath i raw ScanfNeedsAddress) exprs.
Proof.
  induction exprs as [|expr rest [IH1 IH2]]; [done|]. cbn [map List.filter].
  cbn [isCountMismatch isAddressAdvice message formatIssue]. by rewrite IH1, IH2.
Qed.

Lemma noPercentPair_step c c' rest :
  noPercentPair (String c (String c' rest))
  = negb (Ascii.eqb c "%"%char && Ascii.eqb c' "%"%char)
    && noPercentPair (String c' rest).
Proof. reflexivity. Qed.

Lemma formatSpecCount_percentSigns fmt :
  ∃ pairs, formatSpecCount fmt + 2 * pairs = percentSigns fmt
           ∧ (noPercentPair fmt = true → pairs = 0).
Proof.
  induction fmt as [fmt IH] using (induction_ltof1 _ String.length).
  unfold ltof in IH.
  destruct fmt as [|c rest]; [by exists 0|].
  cbn [formatSpecCount percentSigns].
  destruct (Ascii.eqb c "%"%char) eqn:Hc.
  - destruct rest as [|c' rest'].
    + exists 0. done.
    + destruct (Ascii.eqb c' "%"%char) eqn:Hc'.
      * destruct (IH rest') as (pairs & Hpairs & _); [simpl; lia|].
        exists (S pairs). cbn [percentSigns]. rewrite Hc'. split; [lia|].
        rewrite noPercentPair_step. by rewrite Hc, Hc'.
      * destruct (IH (String c' rest')) as (pairs & Hpairs & Hnone); [simpl; lia|].
        exists pairs. split; [lia|]. rewrite noPercentPair_step, Hc, Hc'.
        cbn [andb negb]. exact Hnone.
  - destruct (IH rest) as (pairs & Hpairs & Hnone); [simpl; lia|].
    exists pairs. split; [lia|]. destruct rest as [|c' rest']; [by intros _; apply Hnone|].
    rewrite noPercentPair_step, Hc. cbn [andb negb]. exact Hnone.
Qed.

End FormatBlockFacts.

Section FormatBlockClaims.
Import JsString Heuristic Notions FormatNotions.

(** Whatever the line, the format check pushes at most one issue about the
    number of arguments, never "too few" together with "too many"; every
    issue it pushes is a Format issue of this file, on this line, with the
    line as it is in the file; and it pushes none unless the scanned text
    holds a call of [printf] or [scanf] with an argument. *)
Theorem format_check_one_mismatch_per_line
    (getVar : string → option VariableInfo) (filePath : string) (i : nat) (raw : string) :
  let issues := formatIssuesOfLine getVar filePath i raw in
  length (List.filter isCountMismatch issues) ≤ 1
  ∧ (∀ issue, issue ∈ issues →
       file issue = filePath ∧ line issue = i + 1
       ∧ category issue = "Format" ∧ codeLine issue = raw)
  ∧ (issues ≠ [] →
       callsOneOf ["printf"; "scanf"] false (scannedText raw) = true
       ∧ getArgsFromCall (scannedText raw) ≠ []
       ∧ length issues ≤ length (getArgsFromCall (scannedText raw))).
Proof.
  intros issues. unfold issues.
  destruct (formatIssuesOfLine_cases getVar filePath i raw)
    as [-> | (_ & _ & Hcall & fmt & rest & Hargs & ->)].
  { split; [simpl; lia|]. split; [by intros issue ?%elem_of_nil|done]. }
  rewrite (checkPrintfScanf_parts _ _ _ _ _ _ _ Hcall Hargs), Hargs.
  set (advice := if callsOneOf ["scanf"] false (scannedText raw)
                 then map (fun _ => formatIssue filePath i raw ScanfNeedsAddress)
                          (List.filter (wantsAddress getVar) rest)
                 else []).
  assert (Hadvice : List.filter isCountMismatch advice = []
                    ∧ length advice ≤ length rest
                    ∧ ∀ issue, issue ∈ advice →
                        issue = formatIssue filePath i raw ScanfNeedsAddress).
  { unfold advice. destruct (callsOneOf ["scanf"] false (scannedText raw)).
    - split; [apply filter_advice_constant|]. split.
      + rewrite length_map. apply List.filter_length_le.
      + by intros issue (expr & -> & _)%list_elem_of_fmap.
    - split; [done|]. split; [simpl; lia|]. by intros issue ?%elem_of_nil. }
  destruct Hadvice as (Hnone & Hlength & Hconstant).
  split; [|split].
  - rewrite !List.filter_app, Hnone.
    destruct (Nat.ltb_spec (length rest) (specifiersOf fmt)),
             (Nat.ltb_spec (specifiersOf fmt) (length rest)); simpl; lia.
  - intros issue [Hin|[Hin|Hin]%elem_of_app]%elem_of_app.
    + destruct (length rest <? specifiersOf fmt); [|by apply elem_of_nil in Hin].
      by apply list_elem_of_singleton in Hin as ->.
    + destruct (specifiersOf fmt <? length rest); [|by apply elem_of_nil in Hin].
      by apply list_elem_of_singleton in Hin as ->.
    + by rewrite (Hconstant _ Hin).
  - intros _. split; [done|]. split; [done|]. rewrite !length_app.
    destruct (Nat.ltb_spec (length rest) (specifiersOf fmt)),
             (Nat.ltb_spec (specifiersOf fmt) (length rest)); simpl; lia.
Qed.

(** A first argument that is not a string literal counts as a format
    without specifiers: every further argument makes the call one with too
    many arguments, and none makes it one without a mismatch. *)
Theorem format_that_is_no_literal_has_no_specifier
    (getVar : string → option VariableInfo) (filePath : string) (i : nat)
    (raw fmt : string) (rest : list string) :
  isEmpty (trim raw) = false →
  startsWith "#" (trim raw) = false →
  callsOneOf ["printf"; "scanf"] false (scannedText raw) = true →
  getArgsFromCall (scannedText raw) = fmt :: rest →
  formatLiteral fmt = None →
  List.filter isCountMismatch (formatIssuesOfLine getVar filePath i raw)
  = match rest with
    | [] => []
    | _ :: _ =>
        [formatIssue filePath i raw
           (TooManyArguments (callsOneOf ["scanf"] false (scannedText raw)))]
    end.
Proof.
  intros Hline Hdirective Hcall Hargs Hfmt.
  unfold formatIssuesOfLine. cbv zeta. rewrite Hline, Hdirective.
  fold (scannedText raw). rewrite (call_line_not_declaration _ Hcall).
  rewrite (checkPrintfScanf_parts _ _ _ _ _ _ _ Hcall Hargs).
  unfold specifiersOf. rewrite Hfmt. rewrite !List.filter_app.
  replace (List.filter isCountMismatch
             (if callsOneOf ["scanf"] false (scannedText raw)
              then map (fun _ => formatIssue filePath i raw ScanfNeedsAddress)
                       (List.filter (wantsAddress getVar) rest)
              else [])) with (@nil Issue).
  - by destruct rest.
  - destruct (callsOneOf ["scanf"] false (scannedText raw)); [|done].
    symmetry. apply filter_advice_constant.
Qed.

(** The advice to pass an address is given for calls of [scanf] only, once
    for every argument after the first that holds an identifier, does not
    start with an ampersand and is not a known variable of type [char]; an
    argument that starts with an ampersand never gets it. *)
Theorem scanf_advice_per_argument
    (getVar : string → option VariableInfo) (filePath : string) (i : nat)
    (raw fmt : string) (rest : list string) :
  isEmpty (trim raw) = false →
  startsWith "#" (trim raw) = false →
  callsOneOf ["printf"; "scanf"] false (scannedText raw) = true →
  getArgsFromCall (scannedText raw) = fmt :: rest →
  List.filter isAddressAdvice (formatIssuesOfLine getVar filePath i raw)
  = (if callsOneOf ["scanf"] false (scannedText raw)
     then map (fun _ => formatIssue filePath i raw ScanfNeedsAddress)
              (List.filter (wantsAddress getVar) rest)
     else [])
  ∧ (∀ expr, startsWith "&" (trim expr) = true → wantsAddress getVar expr = false)
  ∧ (∀ expr v, getVar (getNameFromExpr expr) = Some v → typeName v = "char" →
               wantsAddress getVar expr = false).
Proof.
  intros Hline Hdirective Hcall Hargs. split; [|split].
  - unfold formatIssuesOfLine. cbv zeta. rewrite Hline, Hdirective.
    fold (scannedText raw). rewrite (call_line_not_declaration _ Hcall).
    rewrite (checkPrintfScanf_parts _ _ _ _ _ _ _ Hcall Hargs).
    rewrite !List.filter_app.
    replace (List.filter isAddressAdvice
               (if length rest <? specifiersOf fmt
                then [formatIssue filePath i raw
                        (TooFewArguments (callsOneOf ["scanf"] false (scannedText raw)))]
                else [])) with (@nil Issue) by (by destruct (_ <? _)).
    replace (List.filter isAddressAdvice
               (if specifiersOf fmt <? length rest
                then [formatIssue filePath i raw
                        (TooManyArguments (callsOneOf ["scanf"] false (scannedText raw)))]
                else [])) with (@nil Issue) by (by destruct (_ <? _)).
    destruct (callsOneOf ["scanf"] false (scannedText raw)); [|done].
    apply filter_advice_constant.
  - intros expr Hamp. unfold wantsAddress. rewrite Hamp.
    by rewrite andb_false_r.
  - intros expr v Hv Htype. unfold wantsAddress. rewrite Hv, Htype.
    by rewrite andb_false_r.
Qed.

(** [formatSpecCount] never counts more specifiers than the text has
    percent signs; the difference is twice the number of pairs it skips,
    and there is none when no two percent signs are next to each other. *)
Theorem formatSpecCount_against_percent_signs (fmt : string) :
  formatSpecCount fmt ≤ percentSigns fmt
  ∧ Nat.even (percentSigns fmt - formatSpecCount fmt) = true
  ∧ (noPercentPair fmt = true → formatSpecCount fmt = percentSigns fmt)
  ∧ (percentSigns fmt = 0 → formatSpecCount fmt = 0).
Proof.
  destruct (formatSpecCount_percentSigns fmt) as (pairs & Hpairs & Hnone).
  split; [lia|]. split; [|split].
  - replace (percentSigns fmt - formatSpecCount fmt) with (2 * pairs) by lia.
    apply Nat.even_spec. by exists pairs.
  - intros Hno. specialize (Hnone Hno). lia.
  - lia.
Qed.

End FormatBlockClaims.

Section FormatBlockInstances.
Import JsString Heuristic Notions FormatNotions FormatSamples.

Lemma format_that_is_no_literal_has_no_specifier_witness :
  getArgsFromCall (scannedText variable_format_line) = ["fmt"; "x"]
  ∧ List.filter isCountMismatch
      (formatIssuesOfLine (fun _ => None) "t.c" 0 variable_format_line)
    = [formatIssue "t.c" 0 variable_format_line (TooManyArguments false)].
Proof.
  split; [reflexivity|].
  exact (format_that_is_no_literal_has_no_specifier (fun _ => None) "t.c" 0
           variable_format_line "fmt" ["x"] eq_refl eq_refl eq_refl eq_refl eq_refl).
Defined.

Lemma scanf_advice_per_argument_witness :
  List.filter isAddressAdvice (formatIssuesOfLine (fun _ => None) "t.c" 0 scanf_line)
  = [formatIssue "t.c" 0 scanf_line ScanfNeedsAddress].
Proof.
  exact (proj1 (scanf_advice_per_argument (fun _ => None) "t.c" 0 scanf_line
                  (String dquote "%d %d" +:+ String dquote "") ["n"; "&m"]
                  eq_refl eq_refl eq_refl eq_refl)).
Defined.

End FormatBlockInstances.

(** ** The text analysis of the front end *)

Section TextFallbackFacts.
Import JsString Regex TextFallback TextNotions.

Lemma isFunctionParameter_from_total sourceLines varName n :
  n ≤ length sourceLines →
  is_Some (isFunctionParameter_from sourceLines varName n).
Proof.
  induction n as [|i IH]; intros Hn; [by eexists|]. cbn [isFunctionParameter_from].
  destruct (lookup_lt_is_Some_2 sourceLines i) as [raw Hraw]; [lia|].
  rewrite Hraw. cbn [mbind option_bind]. cbv zeta.
  destruct (match exec functionHead (trim raw) with Some _ => _ | None => _ end);
    [by eexists|].
  destruct (_ || _); [by eexists|]. apply IH. lia.
Qed.

Lemma enclosingFunction_total sourceLines n : ∀ braceCount,
  n ≤ length sourceLines → is_Some (enclosingFunction sourceLines braceCount n).
Proof.
  induction n as [|j IH]; intros braceCount Hn; [by eexists|]. cbn [enclosingFunction].
  destruct (lookup_lt_is_Some_2 sourceLines j) as [raw Hraw]; [lia|].
  rewrite Hraw. cbn [mbind option_bind]. cbv zeta.
  destruct (_ <? 0)%Z; [by eexists|].
  destruct (test functionDefinition (trim raw)); [by eexists|]. apply IH. lia.
Qed.

Lemma isInFunctionContext_from_total sourceLines n :
  n ≤ length sourceLines → is_Some (isInFunctionContext_from sourceLines n).
Proof.
  induction n as [|i IH]; intros Hn; [by eexists|]. cbn [isInFunctionContext_from].
  destruct (lookup_lt_is_Some_2 sourceLines i) as [raw Hraw]; [lia|].
  rewrite Hraw. cbn [mbind option_bind]. cbv zeta.
  destruct (test functionDefinition (trim raw)); [by eexists|].
  destruct (_ && _); [by apply enclosingFunction_total|].
  destruct (_ || _); [by eexists|]. apply IH. lia.
Qed.

Lemma isGlobalVariable_from_total sourceLines n :
  n ≤ length sourceLines → is_Some (isGlobalVariable_from sourceLines n).
Proof.
  induction n as [|i IH]; intros Hn; [by eexists|]. cbn [isGlobalVariable_from].
  destruct (lookup_lt_is_Some_2 sourceLines i) as [raw Hraw]; [lia|].
  rewrite Hraw. cbn [mbind option_bind]. cbv zeta.
  destruct (test functionDefinition (trim raw)); [by eexists|].
  destruct (includes (trim raw) "{"); [by eexists|].
  destruct (_ || _); [apply IH; lia|].
  destruct (test declarationStart (trim raw)); [by eexists|]. apply IH. lia.
Qed.

Lemma declarationIsReported_total sourceLines contexts i line :
  i < length sourceLines →
  is_Some (declarationIsReported sourceLines contexts i line).
Proof.
  intros Hi. unfold declarationIsReported.
  destruct (negb _); [|by eexists].
  destruct (exec variableDeclaration line) as [varMatch|]; [|by eexists].
  destruct (_ && _); [|by eexists]. cbv zeta.
  destruct (negb (isArrayDeclaration line)); [|by eexists].
  destruct (isFunctionParameter_from_total sourceLines
              (default "" (group 2 varMatch)) (S i)) as [isParameter Hparameter]; [lia|].
  unfold isFunctionParameter. rewrite Hparameter. cbn [mbind option_bind].
  destruct (negb isParameter); [|by eexists].
  destruct (isGlobalVariable_from_total sourceLines (S i)) as [isGlobal Hglobal]; [lia|].
  unfold isGlobalVariable. rewrite Hglobal. cbn [mbind option_bind].
  destruct isGlobal; [by eexists|]. apply isInFunctionContext_from_total. lia.
Qed.

(** The second loop, when every index it reaches is one of a line. *)
Lemma linesLoop_issuesFrom filePath sourceCode sourceLines contexts lines :
  ∀ i issues,
    i + length lines ≤ length sourceLines →
    linesLoop filePath sourceCode sourceLines contexts i lines issues
    = Some (issues ++ issuesFrom filePath sourceCode sourceLines contexts i lines).
Proof.
  induction lines as [|line rest IH]; intros i issues Hi;
    cbn [linesLoop issuesFrom].
  - by rewrite app_nil_r.
  - cbn [length] in Hi. unfold issuesAt, lineIssues.
    destruct (declarationIsReported_total sourceLines contexts i line)
      as [reported Hreported]; [lia|].
    rewrite Hreported. cbn [mbind option_bind default]. cbv zeta.
    rewrite IH by lia. by rewrite <- app_assoc.
Qed.

Lemma linesLoop2_issuesFrom2 filePath sourceCode lines : ∀ i issues,
  linesLoop2 filePath sourceCode i lines issues
  = issues ++ issuesFrom2 filePath sourceCode i lines.
Proof.
  induction lines as [|line rest IH]; intros i issues; cbn [linesLoop2 issuesFrom2].
  - by rewrite app_nil_r.
  - by rewrite IH, <- app_assoc.
Qed.

(** What the issues of one line look like. *)
Lemma headerIssues_elem filePath sourceCode lineNumber raw codeLine0 issue :
  issue ∈ headerIssues filePath sourceCode lineNumber raw codeLine0 →
  file issue = filePath ∧ line issue = lineNumber ∧ codeLine issue = codeLine0
  ∧ category issue = "Header"
  ∧ ((message issue = mallocWithoutHeader
      ∧ test (callOf ["malloc"]) raw = true
      ∧ includes sourceCode "#include <stdlib.h>" = false)
     ∨ (message issue = printfWithoutHeader
        ∧ test (callOf ["printf"]) raw = true
        ∧ includes sourceCode "#include <stdio.h>" = false)
     ∨ (message issue = freeWithoutHeader
        ∧ test (callOf ["free"]) raw = true
        ∧ includes sourceCode "#include <stdlib.h>" = false)
     ∨ (message issue = stdioWithoutHeader
        ∧ test (callOf ["scanf"; "fprintf"; "fprintf"]) raw = true
        ∧ includes sourceCode "#include <stdio.h>" = false)
     ∨ (message issue = mathWithoutHeader
        ∧ test (callOf ["sin"; "cos"; "tan"; "sqrt"; "pow"]) raw = true
        ∧ includes sourceCode "#include <math.h>" = false)).
Proof.
  unfold headerIssues. rewrite !elem_of_app.
  intros [Hin|[Hin|[Hin|[Hin|Hin]]]].
  - destruct (test (callOf ["malloc"]) raw) eqn:Htest; [|by apply elem_of_nil in Hin].
    destruct (includes sourceCode "#include <stdlib.h>") eqn:Hinc;
      [by apply elem_of_nil in Hin|].
    apply list_elem_of_singleton in Hin as ->. do 4 (split; [done|]). by left.
  - destruct (test (callOf ["printf"]) raw) eqn:Htest; [|by apply elem_of_nil in Hin].
    destruct (includes sourceCode "#include <stdio.h>") eqn:Hinc;
      [by apply elem_of_nil in Hin|].
    apply list_elem_of_singleton in Hin as ->. do 4 (split; [done|]). right. by left.
  - destruct (test (callOf ["free"]) raw) eqn:Htest; [|by apply elem_of_nil in Hin].
    destruct (includes sourceCode "#include <stdlib.h>") eqn:Hinc;
      [by apply elem_of_nil in Hin|].
    apply list_elem_of_singleton in Hin as ->. do 4 (split; [done|]).
    right. right. by left.
  - destruct (test (callOf ["scanf"; "fprintf"; "fprintf"]) raw) eqn:Htest;
      [|by apply elem_of_nil in Hin].
    destruct (includes sourceCode "#include <stdio.h>") eqn:Hinc;
      [by apply elem_of_nil in Hin|].
    apply list_elem_of_singleton in Hin as ->. do 4 (split; [done|]).
    right. right. right. by left.
  - destruct (test (callOf ["sin"; "cos"; "tan"; "sqrt"; "pow"]) raw) eqn:Htest;
      [|by apply elem_of_nil in Hin].
    destruct (includes sourceCode "#include <math.h>") eqn:Hinc;
      [by apply elem_of_nil in Hin|].
    apply list_elem_of_singleton in Hin as ->. do 4 (split; [done|]).
    right. right. right. by right.
Qed.

Lemma issuesAt_elem filePath sourceCode sourceLines contexts i raw issue :
  issue ∈ issuesAt filePath sourceCode sourceLines contexts i raw →
  file issue = filePath ∧ line issue = i + 1 ∧ codeLine issue = trim raw
  ∧ ((category issue = "Uninitialized" ∧ message issue = declaredNotInitialized
      ∧ declarationIsReported sourceLines contexts i raw = Some true)
     ∨ (category issue = "Header"
        ∧ issue ∈ headerIssues filePath sourceCode (i + 1) raw (trim raw))).
Proof.
  unfold issuesAt, lineIssues.
  destruct (declarationIsReported sourceLines contexts i raw) as [reported|];
    cbn [mbind option_bind default]; [|by intros ?%elem_of_nil].
  cbv zeta. intros [Hin|Hin]%elem_of_app.
  - destruct reported; [|by apply elem_of_nil in Hin].
    apply list_elem_of_singleton in Hin as ->. split; [done|]. split; [done|].
    split; [done|]. by left.
  - destruct (headerIssues_elem _ _ _ _ _ _ Hin) as (? & ? & ? & ? & _).
    split; [done|]. split; [done|]. split; [done|]. by right.
Qed.

Lemma issuesFrom_elem filePath sourceCode sourceLines contexts lines : ∀ i issue,
  issue ∈ issuesFrom filePath sourceCode sourceLines contexts i lines →
  ∃ j raw, lines !! j = Some raw
           ∧ issue ∈ issuesAt filePath sourceCode sourceLines contexts (i + j) raw.
Proof.
  induction lines as [|raw rest IH]; intros i issue; cbn [issuesFrom].
  - by intros ?%elem_of_nil.
  - intros [Hin|Hin]%elem_of_app.
    + exists 0, raw. split; [done|]. by rewrite Nat.add_0_r.
    + destruct (IH _ _ Hin) as (j & raw' & Hraw' & Hin').
      exists (S j), raw'. split; [done|]. by replace (i + S j) with (S i + j) by lia.
Qed.

Lemma issuesFrom_ordered filePath sourceCode sourceLines contexts lines : ∀ i a b x y,
  a ≤ b →
  issuesFrom filePath sourceCode sourceLines contexts i lines !! a = Some x →
  issuesFrom filePath sourceCode sourceLines contexts i lines !! b = Some y →
  i < line x ∧ line x ≤ line y.
Proof.
  induction lines as [|raw rest IH]; intros i a b x y Hab; cbn [issuesFrom]; [done|].
  intros Hx Hy.
  set (here := issuesAt filePath sourceCode sourceLines contexts i raw) in *.
  assert (Hhere : ∀ c z, here !! c = Some z → line z = i + 1).
  { intros c z Hz. apply list_elem_of_lookup_2 in Hz.
    by apply issuesAt_elem in Hz as (_ & ? & _). }
  assert (Hlater : ∀ c z,
    issuesFrom filePath sourceCode sourceLines contexts (S i) rest !! c = Some z →
    S i < line z).
  { intros c z Hz. by destruct (IH (S i) c c z z (le_n _) Hz Hz). }
  destruct (decide (a < length here)) as [Ha|Ha];
    destruct (decide (b < length here)) as [Hb|Hb].
  - rewrite lookup_app_l in Hx, Hy by done.
    rewrite (Hhere _ _ Hx), (Hhere _ _ Hy). lia.
  - rewrite lookup_app_l in Hx by done. rewrite lookup_app_r in Hy by lia.
    rewrite (Hhere _ _ Hx). specialize (Hlater _ _ Hy). lia.
  - lia.
  - rewrite lookup_app_r in Hx, Hy by lia.
    assert (Hab' : a - length here ≤ b - length here) by lia.
    destruct (IH (S i) _ _ x y Hab' Hx Hy). lia.
Qed.

(** The first loop from a line that starts a structure on, when braces
    stay open after every such line. *)
Lemma braceSum_snoc lines raw :
  braceSum (lines ++ [raw]) = (braceSum lines + braceDelta raw)%Z.
Proof. induction lines as [|l lines IH]; cbn [app braceSum]; lia. Qed.

Lemma braceSum_firstn_0 lines : braceSum (firstn 0 lines) = 0%Z.
Proof. reflexivity. Qed.

Lemma braceSum_firstn_S n raw lines :
  braceSum (firstn (S n) (raw :: lines)) = (braceDelta raw + braceSum (firstn n lines))%Z.
Proof. reflexivity. Qed.

Lemma neverClosesMore_prefix lines n :
  neverClosesMore lines = true → (0 ≤ braceSum (firstn n lines))%Z.
Proof.
  intros Hall. unfold neverClosesMore in Hall. rewrite forallb_forall in Hall.
  destruct (decide (n ≤ length lines)) as [Hn|Hn].
  - apply Z.leb_le, Hall, in_seq. lia.
  - rewrite firstn_all2 by lia.
    rewrite <- (firstn_all lines). apply Z.leb_le, Hall, in_seq. lia.
Qed.

Lemma structuresStayOpen_at lines i raw :
  structuresStayOpen lines = true →
  lines !! i = Some raw →
  isStructHeaderLine raw = true →
  neverClosesMore (skipn i lines) = true.
Proof.
  intros Hall Hraw Hheader. unfold structuresStayOpen in Hall.
  rewrite forallb_forall in Hall.
  specialize (Hall i). rewrite Hraw, Hheader in Hall. apply Hall, in_seq.
  apply lookup_lt_Some in Hraw. lia.
Qed.

Lemma structScanStep_contexts scan i raw x :
  x ∈ structContexts scan → x ∈ structContexts (structScanStep scan i raw).
Proof.
  intros Hx. unfold structScanStep. cbv zeta.
  destruct (test typedefStructHeader (trim raw) || test structHeader (trim raw));
    cbn [inStruct braceCount structContexts].
  - destruct (_ <=? 0)%Z; cbn [inStruct braceCount structContexts]; [done|].
    apply elem_of_union. by right.
  - destruct (inStruct scan) eqn:Hin; cbn [inStruct braceCount structContexts].
    + destruct (_ <=? 0)%Z; cbn [inStruct braceCount structContexts]; [done|].
      apply elem_of_union. by right.
    + by rewrite Hin.
Qed.

Lemma structScanLoop_contexts lines : ∀ i scan x,
  x ∈ structContexts scan → x ∈ structContexts (structScanLoop i lines scan).
Proof.
  induction lines as [|raw rest IH]; intros i scan x Hx; cbn [structScanLoop]; [done|].
  by apply IH, structScanStep_contexts.
Qed.

Lemma structScanLoop_app before rest : ∀ i scan,
  structScanLoop i (before ++ rest) scan
  = structScanLoop (i + length before) rest (structScanLoop i before scan).
Proof.
  induction before as [|raw before IH]; intros i scan; cbn [app structScanLoop length].
  - by rewrite Nat.add_0_r.
  - rewrite IH. by replace (S i + length before) with (i + S (length before)) by lia.
Qed.

(** One iteration on a line that starts a structure, or with a structure
    open: the structure is open afterwards, the line is marked, and the
    count has moved by the braces of the line. *)
Lemma structScanStep_open scan i raw (count : Z) :
  (isStructHeaderLine raw = true ∧ count = 1%Z)
  ∨ (isStructHeaderLine raw = false ∧ inStruct scan = true ∧ count = braceCount scan) →
  (1 ≤ count + braceDelta raw)%Z →
  inStruct (structScanStep scan i raw) = true
  ∧ braceCount (structScanStep scan i raw) = (count + braceDelta raw)%Z
  ∧ i + 1 ∈ structContexts (structScanStep scan i raw).
Proof.
  unfold isStructHeaderLine, braceDelta, structScanStep. cbv zeta.
  intros [[-> ->]|(-> & Hin & ->)] Hcount; cbn [inStruct braceCount structContexts].
  - destruct (Z.leb_spec (1 + (Z.of_nat (countChar "{" (trim raw))
                               - Z.of_nat (countChar "}" (trim raw)))) 0); [lia|].
    cbn [inStruct braceCount structContexts].
    split; [done|]. split; [done|]. apply elem_of_union. left. by apply elem_of_singleton.
  - rewrite Hin.
    destruct (Z.leb_spec (braceCount scan + (Z.of_nat (countChar "{" (trim raw))
                                             - Z.of_nat (countChar "}" (trim raw)))) 0);
      [lia|].
    cbn [inStruct braceCount structContexts].
    split; [done|]. split; [done|]. apply elem_of_union. left. by apply elem_of_singleton.
Qed.

Lemma structScanLoop_open lines : ∀ i scan,
  (∀ k raw, lines !! k = Some raw → isStructHeaderLine raw = true →
            neverClosesMore (skipn k lines) = true) →
  match lines with
  | [] => True
  | raw :: _ =>
      isStructHeaderLine raw = true
      ∨ (inStruct scan = true
         ∧ ∀ n, (1 ≤ braceCount scan + braceSum (firstn n lines))%Z)
  end →
  ∀ j, j < length lines → i + j + 1 ∈ structContexts (structScanLoop i lines scan).
Proof.
  induction lines as [|raw rest IH]; intros i scan Hopen Hstart j Hj;
    cbn [length] in Hj; [lia|].
  cbn [structScanLoop].
  assert (Hstep : inStruct (structScanStep scan i raw) = true
                  ∧ (∀ n, (1 ≤ braceCount (structScanStep scan i raw)
                               + braceSum (firstn n rest))%Z)
                  ∧ i + 1 ∈ structContexts (structScanStep scan i raw)).
  { destruct (isStructHeaderLine raw) eqn:Hheader.
    - pose proof (Hopen 0 raw eq_refl Hheader) as Hnever. cbn [skipn] in Hnever.
      assert (Hfirst : (1 ≤ 1 + braceDelta raw)%Z).
      { pose proof (neverClosesMore_prefix _ 1 Hnever) as H1.
        rewrite braceSum_firstn_S, braceSum_firstn_0 in H1. lia. }
      destruct (structScanStep_open scan i raw 1) as (Hin & Hcount & Hmark);
        [by left|done|].
      split; [done|]. split; [|done]. intros n. rewrite Hcount.
      pose proof (neverClosesMore_prefix _ (S n) Hnever) as Hn.
      rewrite braceSum_firstn_S in Hn. lia.
    - destruct Hstart as [?|[Hin Hsums]]; [done|].
      assert (Hfirst : (1 ≤ braceCount scan + braceDelta raw)%Z).
      { specialize (Hsums 1). rewrite braceSum_firstn_S, braceSum_firstn_0 in Hsums. lia. }
      destruct (structScanStep_open scan i raw (braceCount scan)) as (Hin' & Hcount & Hmark);
        [by right|done|].
      split; [done|]. split; [|done]. intros n. rewrite Hcount.
      specialize (Hsums (S n)). rewrite braceSum_firstn_S in Hsums. lia. }
  destruct Hstep as (Hin & Hsums & Hmark).
  destruct j as [|j].
  - rewrite Nat.add_0_r. by apply structScanLoop_contexts.
  - replace (i + S j + 1) with (S i + j + 1) by lia. apply IH; [| |lia].
    + intros k raw' Hraw' Hheader. apply (Hopen (S k) raw' Hraw' Hheader).
    + destruct rest as [|raw' rest']; [done|]. right. by split.
Qed.

(** One line in the two versions, as far as [malloc] and [printf] go. *)
Lemma versions_agree_on_a_line filePath sourceCode sourceLines contexts i raw :
  i < length sourceLines →
  (fun issue => (line issue, message issue))
    <$> List.filter (fun issue => hasMessage mallocWithoutHeader issue
                                  || hasMessage printfWithoutHeader issue)
          (issuesAt filePath sourceCode sourceLines contexts i raw)
  = (fun issue => (line issue, message issue))
      <$> List.filter (hasCategory "Header") (lineIssues2 filePath sourceCode i raw).
Proof.
  intros Hi. unfold issuesAt, lineIssues, lineIssues2, headerIssues.
  destruct (declarationIsReported_total sourceLines contexts i raw Hi)
    as [reported ->]. cbn [mbind option_bind default]. cbv zeta.
  destruct reported, (test intDeclaration raw && negb (includes raw "=")),
    (test (callOf ["malloc"]) raw && negb (includes sourceCode "#include <stdlib.h>")),
    (test (callOf ["printf"]) raw && negb (includes sourceCode "#include <stdio.h>")),
    (test (callOf ["free"]) raw && negb (includes sourceCode "#include <stdlib.h>")),
    (test (callOf ["scanf"; "fprintf"; "fprintf"]) raw
     && negb (includes sourceCode "#include <stdio.h>")),
    (test (callOf ["sin"; "cos"; "tan"; "sqrt"; "pow"]) raw
     && negb (includes sourceCode "#include <math.h>")); reflexivity.
Qed.

Lemma versions_agree_from filePath sourceCode sourceLines contexts lines : ∀ i,
  i + length lines ≤ length sourceLines →
  (fun issue => (line issue, message issue))
    <$> List.filter (fun issue => hasMessage mallocWithoutHeader issue
                                  || hasMessage printfWithoutHeader issue)
          (issuesFrom filePath sourceCode sourceLines contexts i lines)
  = (fun issue => (line issue, message issue))
      <$> List.filter (hasCategory "Header") (issuesFrom2 filePath sourceCode i lines).
Proof.
  induction lines as [|raw rest IH]; intros i Hi; cbn [issuesFrom issuesFrom2]; [done|].
  cbn [length] in Hi.
  rewrite !List.filter_app, !fmap_app, IH by lia. f_equal.
  apply versions_agree_on_a_line. lia.
Qed.

End TextFallbackFacts.

Section TextFallbackClaims.
Import JsString Regex TextFallback TextNotions.

(** The first version never throws.  Its issues come in the order of the
    lines; each is on a line of the file and has that line, trimmed, as its
    code line; each is an Uninitialized issue with the text of that check or
    a Header issue. *)
Theorem fallbackTextAnalysis_returns_located_issues
    (filePath sourceCode : string) (sourceLines : list string) :
  ∃ issues,
    fallbackTextAnalysis filePath sourceCode sourceLines = Some issues
    ∧ (∀ issue, issue ∈ issues →
         file issue = filePath
         ∧ (∃ raw, sourceLines !! (line issue - 1) = Some raw
                   ∧ codeLine issue = trim raw)
         ∧ 1 ≤ line issue ≤ length sourceLines
         ∧ ((category issue = "Uninitialized"
             ∧ message issue = declaredNotInitialized)
            ∨ category issue = "Header"))
    ∧ (∀ a b x y, a ≤ b → issues !! a = Some x → issues !! b = Some y →
                  line x ≤ line y).
Proof.
  unfold fallbackTextAnalysis. cbv zeta.
  rewrite linesLoop_issuesFrom, app_nil_l by (simpl; lia).
  eexists. split; [done|]. split.
  - intros issue (j & raw & Hraw & Hin)%issuesFrom_elem. cbn [Nat.add] in Hin.
    apply issuesAt_elem in Hin as (Hfile & Hline & Hcode & Hkind).
    split; [done|]. rewrite Hline. replace (j + 1 - 1) with j by lia.
    split; [by exists raw|]. apply lookup_lt_Some in Hraw as Hj. split; [lia|].
    destruct Hkind as [(? & ? & _)|[? _]]; [by left|by right].
  - intros a b x y Hab Hx Hy.
    by destruct (issuesFrom_ordered _ _ _ _ _ _ _ _ _ _ Hab Hx Hy).
Qed.

(** The checks for headers are searches for three texts in the source:
    where the text of an include is found, no issue about the functions of
    that header is pushed; with all three texts, no Header issue at all. *)
Theorem include_text_silences_header_issues
    (filePath sourceCode : string) (sourceLines : list string) (issues : list Issue) :
  fallbackTextAnalysis filePath sourceCode sourceLines = Some issues →
  (includes sourceCode "#include <stdlib.h>" = true →
   ∀ issue, issue ∈ issues →
     message issue ≠ mallocWithoutHeader ∧ message issue ≠ freeWithoutHeader)
  ∧ (includes sourceCode "#include <stdio.h>" = true →
     ∀ issue, issue ∈ issues →
       message issue ≠ printfWithoutHeader ∧ message issue ≠ stdioWithoutHeader)
  ∧ (includes sourceCode "#include <math.h>" = true →
     ∀ issue, issue ∈ issues → message issue ≠ mathWithoutHeader)
  ∧ (includes sourceCode "#include <stdlib.h>" = true →
     includes sourceCode "#include <stdio.h>" = true →
     includes sourceCode "#include <math.h>" = true →
     ∀ issue, issue ∈ issues → category issue = "Uninitialized").
Proof.
  unfold fallbackTextAnalysis. cbv zeta.
  rewrite linesLoop_issuesFrom, app_nil_l by (simpl; lia). intros [= <-].
  assert (Hcases : ∀ issue,
    issue ∈ issuesFrom filePath sourceCode sourceLines
              (structContexts (structScan sourceLines)) 0 sourceLines →
    (category issue = "Uninitialized" ∧ message issue = declaredNotInitialized)
    ∨ (message issue = mallocWithoutHeader
       ∧ includes sourceCode "#include <stdlib.h>" = false)
    ∨ (message issue = printfWithoutHeader
       ∧ includes sourceCode "#include <stdio.h>" = false)
    ∨ (message issue = freeWithoutHeader
       ∧ includes sourceCode "#include <stdlib.h>" = false)
    ∨ (message issue = stdioWithoutHeader
       ∧ includes sourceCode "#include <stdio.h>" = false)
    ∨ (message issue = mathWithoutHeader
       ∧ includes sourceCode "#include <math.h>" = false)).
  { intros issue (j & raw & _ & Hin)%issuesFrom_elem.
    apply issuesAt_elem in Hin as (_ & _ & _ & [(? & ? & _)|[_ Hin]]); [by left|].
    apply headerIssues_elem in Hin
      as (_ & _ & _ & _ & [(? & _ & ?)|[(? & _ & ?)|[(? & _ & ?)|[(? & _ & ?)|(? & _ & ?)]]]]);
      auto 10. }
  split; [|split; [|split]].
  - intros Hinc issue Hissue.
    destruct (Hcases _ Hissue) as [[_ ->]|[[-> ?]|[[-> _]|[[-> ?]|[[-> _]|[-> _]]]]]];
      by (congruence || split).
  - intros Hinc issue Hissue.
    destruct (Hcases _ Hissue) as [[_ ->]|[[-> _]|[[-> ?]|[[-> _]|[[-> ?]|[-> _]]]]]];
      by (congruence || split).
  - intros Hinc issue Hissue.
    destruct (Hcases _ Hissue) as [[_ ->]|[[-> _]|[[-> _]|[[-> _]|[[-> _]|[-> ?]]]]]];
      by (congruence || idtac).
  - intros Hstdlib Hstdio Hmath issue Hissue.
    destruct (Hcases _ Hissue) as [[? _]|[[_ ?]|[[_ ?]|[[_ ?]|[[_ ?]|[_ ?]]]]]];
      [done|congruence..].
Qed.

(** Once a line starts a structure, no declaration on that line or after it
    is reported, as long as, from every line that starts a structure on,
    there are never more closing braces than opening ones: the count that is
    to tell where the structure ends starts at 1 and is then increased by
    the brace of the starting line itself. *)
Theorem no_declaration_reported_after_a_structure
    (filePath sourceCode : string) (before rest : list string) (raw : string)
    (issues : list Issue) :
  head rest = Some raw →
  isStructHeaderLine raw = true →
  structuresStayOpen rest = true →
  fallbackTextAnalysis filePath sourceCode (before ++ rest) = Some issues →
  (∀ j, length before ≤ j < length (before ++ rest) →
        j + 1 ∈ structContexts (structScan (before ++ rest)))
  ∧ (∀ issue, issue ∈ issues → category issue = "Uninitialized" →
              line issue ≤ length before).
Proof.
  intros Hhead Hheader Hopen.
  assert (Hmarked : ∀ j, length before ≤ j < length (before ++ rest) →
                         j + 1 ∈ structContexts (structScan (before ++ rest))).
  { intros j Hj. rewrite length_app in Hj. unfold structScan.
    rewrite structScanLoop_app. cbn [Nat.add].
    replace (j + 1) with (length before + (j - length before) + 1) by lia.
    apply structScanLoop_open.
    - intros k raw' Hraw' Hheader'. by apply (structuresStayOpen_at rest k raw').
    - destruct rest as [|raw' rest']; [done|]. left. by injection Hhead as ->.
    - lia. }
  unfold fallbackTextAnalysis. cbv zeta.
  rewrite linesLoop_issuesFrom, app_nil_l by (simpl; lia). intros [= <-].
  split; [done|].
  intros issue (j & raw' & Hraw' & Hin)%issuesFrom_elem Hcategory. cbn [Nat.add] in Hin.
  apply issuesAt_elem in Hin as (_ & Hline & _ & [(_ & _ & Hreported)|[Hheader' _]]);
    [|congruence].
  rewrite Hline. destruct (decide (j < length before)) as [Hj|Hj]; [lia|]. exfalso.
  unfold declarationIsReported in Hreported.
  rewrite bool_decide_eq_true_2 in Hreported; [done|].
  apply Hmarked. apply lookup_lt_Some in Hraw'. lia.
Qed.

(** The two versions agree on the issues about [malloc] and [printf]: the
    same lines with the same texts in the same order; the second version
    has no other Header issue. *)
Theorem versions_agree_on_malloc_and_printf
    (filePath sourceCode : string) (sourceLines : list string) :
  ∃ issues,
    fallbackTextAnalysis filePath sourceCode sourceLines = Some issues
    ∧ (fun issue => (line issue, message issue))
        <$> List.filter (fun issue => hasMessage mallocWithoutHeader issue
                                      || hasMessage printfWithoutHeader issue) issues
      = (fun issue => (line issue, message issue))
          <$> List.filter (hasCategory "Header")
                (fallbackTextAnalysis2 filePath sourceCode sourceLines).
Proof.
  unfold fallbackTextAnalysis, fallbackTextAnalysis2. cbv zeta.
  rewrite linesLoop_issuesFrom, app_nil_l by (simpl; lia).
  rewrite linesLoop2_issuesFrom2, app_nil_l.
  eexists. split; [done|]. apply versions_agree_from. simpl. lia.
Qed.

End TextFallbackClaims.

Section TextFallbackInstances.
Import JsString Regex TextFallback TextNotions TextSamples.

Lemma include_text_silences_header_issues_witness :
  fallbackTextAnalysis "t.c" (code_of malloc_lines) malloc_lines = Some []
  ∧ ∀ issue, issue ∈ @nil Issue →
      message issue ≠ mallocWithoutHeader ∧ message issue ≠ freeWithoutHeader.
Proof.
  split; [by vm_compute|].
  apply (proj1 (include_text_silences_header_issues "t.c" (code_of malloc_lines)
                  malloc_lines [] ltac:(by vm_compute))).
  by vm_compute.
Defined.

Lemma no_declaration_reported_after_a_structure_witness :
  map line <$> fallbackTextAnalysis "t.c" (code_of main_lines) main_lines = Some [2]
  ∧ fallbackTextAnalysis "t.c" (code_of struct_lines) struct_lines = Some []
  ∧ ∀ j, 0 ≤ j < 4 → j + 1 ∈ structContexts (structScan struct_lines).
Proof.
  split; [by vm_compute|]. split; [by vm_compute|].
  apply (proj1 (no_declaration_reported_after_a_structure "t.c" (code_of struct_lines)
                  [] struct_lines "struct P { int x; };" []
                  eq_refl ltac:(by vm_compute) ltac:(by vm_compute)
                  ltac:(by vm_compute))).
Defined.

End TextFallbackInstances.

(** ** The scan of the heuristic engine *)

Section TableFacts.
Import JsString Regex Heuristic HeuristicScan ScanNotions.

Lemma tableGet_tableSet table key v : tableGet (tableSet table key v) key = Some v.
Proof.
  unfold tableGet. induction table as [|[k w] rest IH]; cbn [tableSet List.find fst].
  - by rewrite String.eqb_refl.
  - destruct (String.eqb k key) eqn:Hk; cbn [List.find fst]; rewrite Hk; [done|].
    exact IH.
Qed.

Lemma tableGet_tableSet_other table key v other :
  other ≠ key → tableGet (tableSet table key v) other = tableGet table other.
Proof.
  intros Hother. unfold tableGet.
  induction table as [|[k w] rest IH]; cbn [tableSet List.find fst].
  - by destruct (String.eqb_spec key other) as [->|].
  - destruct (String.eqb_spec k key) as [->|Hk]; cbn [List.find fst].
    + by destruct (String.eqb_spec key other) as [->|].
    + destruct (String.eqb k other); [done|]. exact IH.
Qed.

Lemma tableGet_elem table key v :
  tableGet table key = Some v → ∃ k, (k, v) ∈ table.
Proof.
  unfold tableGet. induction table as [|[k w] rest IH]; cbn [List.find fst]; [done|].
  destruct (String.eqb k key).
  - intros [= <-]. exists k. apply list_elem_of_here.
  - intros (k' & Hin)%IH. exists k'. by apply list_elem_of_further.
Qed.

Lemma tableSet_initialised table key v :
  initialisedTable table → isInitialized v = true →
  initialisedTable (tableSet table key v).
Proof.
  intros Htable Hv. induction Htable as [|[k w] rest Hw Hrest IH]; cbn [tableSet].
  - by repeat constructor.
  - destruct (String.eqb k key); constructor; done.
Qed.

Lemma length_removelast {A} (l : list A) : length (removelast l) = length l - 1.
Proof.
  induction l as [|x [|y l] IH]; [done|done|].
  change (removelast (x :: y :: l)) with (x :: removelast (y :: l)).
  cbn [length] in *. lia.
Qed.

Lemma removelast_snoc {A} (l : list A) x : removelast (l ++ [x]) = l.
Proof. apply removelast_last. Qed.

Lemma last_removelast {A} (l : list A) x : last l = Some x → removelast l ++ [x] = l.
Proof.
  intros Hlast. destruct l as [|y l] using rev_ind; [done|].
  rewrite last_snoc in Hlast. injection Hlast as ->. by rewrite removelast_snoc.
Qed.

Lemma Forall_removelast {A} (P : A → Prop) (l : list A) :
  Forall P l → Forall P (removelast l).
Proof.
  intros Hl. destruct l as [|y l _] using rev_ind; [done|].
  rewrite removelast_snoc. by apply Forall_app in Hl as [? _].
Qed.

Lemma updateIn_length tables name f tables' :
  updateIn tables name f = Some tables' → length tables' = length tables.
Proof.
  revert tables'. induction tables as [|table outer IH]; intros tables';
    cbn [updateIn]; [done|].
  destruct (tableGet table name); [by intros [= <-]|].
  destruct (updateIn outer name f) as [outer'|]; [|done].
  intros [= <-]. cbn [length]. by rewrite (IH outer').
Qed.

Lemma updateIn_initialised tables name f tables' :
  (∀ v, isInitialized v = true → isInitialized (f v) = true) →
  Forall initialisedTable tables →
  updateIn tables name f = Some tables' →
  Forall initialisedTable tables'.
Proof.
  intros Hf Htables. revert tables'.
  induction Htables as [|table outer Htable Houter IH]; intros tables';
    cbn [updateIn]; [done|].
  destruct (tableGet table name) as [v|] eqn:Hv.
  - intros [= <-]. constructor; [|done]. apply tableSet_initialised; [done|].
    apply Hf. apply tableGet_elem in Hv as [k Hk].
    unfold initialisedTable in Htable. rewrite Forall_forall in Htable.
    exact (Htable _ Hk).
  - destruct (updateIn outer name f) as [outer'|]; [|done].
    intros [= <-]. constructor; [done|]. by apply IH.
Qed.

End TableFacts.

Section ScanStepFacts.
Import JsString Regex Heuristic HeuristicScan ScanNotions.

Lemma sameShape_refl st : sameShape st st.
Proof. by repeat split. Qed.

Lemma sameShape_trans st1 st2 st3 :
  sameShape st1 st2 → sameShape st2 st3 → sameShape st1 st3.
Proof. unfold sameShape. intros (? & ? & ?) (? & ? & ?). repeat split; congruence. Qed.

Lemma sameShape_inStep st st' : sameShape st st' → inStep st → inStep st'.
Proof. unfold sameShape, inStep. intros (? & ? & ?) [? ?]. split; congruence. Qed.

Lemma sameShape_fold {A} (f : ScanState → A → ScanState) (items : list A) :
  (∀ st x, sameShape st (f st x)) → ∀ st, sameShape st (fold_left f items st).
Proof.
  intros Hf. induction items as [|x rest IH]; intros st; cbn [fold_left].
  - apply sameShape_refl.
  - eapply sameShape_trans; [apply Hf|apply IH].
Qed.

(** *** The scopes *)

Lemma braceStep_inStep st ch : inStep st → inStep (braceStep st ch).
Proof.
  unfold inStep, braceStep. intros [Hdepth Hfunc]. cbv zeta.
  destruct (Ascii.eqb ch "{"%char), (Ascii.eqb ch "}"%char);
    cbn [braceDepth localsStack funcStack];
    rewrite ?length_removelast, ?length_app; cbn [length]; lia.
Qed.

Lemma trackScopes_inStep raw : ∀ st, inStep st → inStep (trackScopes st raw).
Proof.
  unfold trackScopes.
  induction (String.list_ascii_of_string raw) as [|ch rest IH]; intros st Hst;
    cbn [fold_left]; [done|]. by apply IH, braceStep_inStep.
Qed.

Lemma braceStep_initialised st ch : allInitialised st → allInitialised (braceStep st ch).
Proof.
  unfold allInitialised, braceStep. intros [Hglobals Hlocals]. cbv zeta.
  assert (Hpushed : Forall initialisedTable (localsStack st ++ [[]])).
  { apply Forall_app. split; [done|]. by repeat constructor. }
  destruct (Ascii.eqb ch "{"%char), (Ascii.eqb ch "}"%char);
    cbn [globals localsStack]; (split; [done|]); try done;
    by apply Forall_removelast.
Qed.

Lemma trackScopes_initialised raw : ∀ st,
  allInitialised st → allInitialised (trackScopes st raw).
Proof.
  unfold trackScopes.
  induction (String.list_ascii_of_string raw) as [|ch rest IH]; intros st Hst;
    cbn [fold_left]; [done|]. by apply IH, braceStep_initialised.
Qed.

(** *** Entries *)

Lemma setInCurrentLocals_shape st key v : sameShape st (setInCurrentLocals st key v).
Proof.
  unfold setInCurrentLocals, currentLocals.
  destruct (last (localsStack st)) as [locals|] eqn:Hlast; [|apply sameShape_refl].
  unfold sameShape. cbn [braceDepth localsStack funcStack].
  split; [done|]. split; [|done].
  rewrite <- (last_removelast _ _ Hlast) at 2. by rewrite !length_app.
Qed.

Lemma setInCurrentLocals_initialised st key v :
  allInitialised st → isInitialized v = true →
  allInitialised (setInCurrentLocals st key v).
Proof.
  unfold setInCurrentLocals, currentLocals, allInitialised. intros [Hglobals Hlocals] Hv.
  destruct (last (localsStack st)) as [locals|] eqn:Hlast; [|done].
  cbn [globals localsStack]. split; [done|].
  rewrite <- (last_removelast _ _ Hlast) in Hlocals.
  apply Forall_app in Hlocals as [Houter Hinner].
  apply Forall_app. split; [done|]. constructor; [|done].
  apply tableSet_initialised; [|done]. by apply Forall_inv in Hinner.
Qed.

Lemma setInGlobals_shape st key v : sameShape st (setInGlobals st key v).
Proof. by repeat split. Qed.

Lemma setInGlobals_initialised st key v :
  allInitialised st → isInitialized v = true → allInitialised (setInGlobals st key v).
Proof.
  unfold allInitialised, setInGlobals. intros [Hglobals Hlocals] Hv.
  cbn [globals localsStack]. split; [|done]. by apply tableSet_initialised.
Qed.

Lemma addParameter_shape st p : sameShape st (addParameter st p).
Proof.
  unfold addParameter. cbv zeta.
  destruct (isEmpty (trim p)); [apply sameShape_refl|].
  destruct (exec lastName (trim p)); [|apply sameShape_refl].
  apply setInCurrentLocals_shape.
Qed.

Lemma addParameter_initialised st p : allInitialised st → allInitialised (addParameter st p).
Proof.
  intros Hst. unfold addParameter. cbv zeta.
  destruct (isEmpty (trim p)); [done|].
  destruct (exec lastName (trim p)); [|done].
  by apply setInCurrentLocals_initialised.
Qed.

Lemma enterParameters_shape st raw : sameShape st (enterParameters st raw).
Proof.
  unfold enterParameters.
  destruct (_ && _); [|apply sameShape_refl].
  destruct (search "(" raw); [|apply sameShape_refl].
  destruct (lastIndexOf raw ")"); [|apply sameShape_refl].
  destruct (_ <? _); [|apply sameShape_refl]. cbv zeta.
  destruct (_ && _); [|apply sameShape_refl].
  destruct (currentLocals st); [|apply sameShape_refl].
  apply sameShape_fold. apply addParameter_shape.
Qed.

Lemma enterParameters_initialised st raw :
  allInitialised st → allInitialised (enterParameters st raw).
Proof.
  intros Hst. unfold enterParameters.
  destruct (_ && _); [|done].
  destruct (search "(" raw); [|done].
  destruct (lastIndexOf raw ")"); [|done].
  destruct (_ <? _); [|done]. cbv zeta.
  destruct (_ && _); [|done].
  destruct (currentLocals st); [|done].
  revert st Hst. induction (getArgsFromCall raw) as [|p rest IH]; intros st Hst;
    cbn [fold_left]; [done|]. by apply IH, addParameter_initialised.
Qed.

Lemma declare_shape st vi : sameShape st (declare st vi).
Proof.
  unfold declare. destruct (braceDepth st =? 0); [apply setInGlobals_shape|].
  destruct (currentLocals st); [apply setInCurrentLocals_shape|apply setInGlobals_shape].
Qed.

Lemma declare_initialised st vi :
  allInitialised st → isInitialized vi = true → allInitialised (declare st vi).
Proof.
  intros Hst Hvi. unfold declare.
  destruct (braceDepth st =? 0); [by apply setInGlobals_initialised|].
  destruct (currentLocals st);
    [by apply setInCurrentLocals_initialised|by apply setInGlobals_initialised].
Qed.

Lemma updateVar_shape st name f : sameShape st (updateVar st name f).
Proof.
  unfold updateVar.
  destruct (updateIn (List.rev (localsStack st)) name f) as [tables|] eqn:Hupdate.
  - unfold sameShape. cbn [braceDepth localsStack funcStack].
    split; [done|]. split; [|done].
    rewrite length_rev, (updateIn_length _ _ _ _ Hupdate). by rewrite length_rev.
  - destruct (tableGet (globals st) name); [by repeat split|apply sameShape_refl].
Qed.

Lemma updateVar_initialised st name f :
  (∀ v, isInitialized v = true → isInitialized (f v) = true) →
  allInitialised st → allInitialised (updateVar st name f).
Proof.
  intros Hf [Hglobals Hlocals]. unfold updateVar.
  destruct (updateIn (List.rev (localsStack st)) name f) as [tables|] eqn:Hupdate.
  - split; [done|]. cbn [localsStack]. apply Forall_rev.
    apply (updateIn_initialised _ _ _ _ Hf) in Hupdate; [done|]. by apply Forall_rev.
  - destruct (tableGet (globals st) name) as [v|] eqn:Hv; [|done].
    split; [|done]. cbn [globals]. apply tableSet_initialised; [done|].
    apply Hf. apply tableGet_elem in Hv as [k Hk].
    unfold initialisedTable in Hglobals. rewrite Forall_forall in Hglobals.
    exact (Hglobals _ Hk).
Qed.

Lemma markAssigned_shape line st name : sameShape st (markAssigned line st name).
Proof.
  unfold markAssigned, markInit. destruct (_ && _); [|apply sameShape_refl].
  destruct (getVar st name); [apply updateVar_shape|apply sameShape_refl].
Qed.

Lemma markAssigned_initialised line st name :
  allInitialised st → allInitialised (markAssigned line st name).
Proof.
  intros Hst. unfold markAssigned, markInit. destruct (_ && _); [|done].
  destruct (getVar st name); [|done]. cbn [fst].
  by apply updateVar_initialised.
Qed.

Lemma getVarIn_initialised tables name v :
  Forall initialisedTable tables → getVarIn tables name = Some v →
  isInitialized v = true.
Proof.
  intros Htables. induction Htables as [|table outer Htable Houter IH];
    cbn [getVarIn]; [done|].
  destruct (tableGet table name) as [w|] eqn:Hw; [|exact IH].
  intros [= <-]. apply tableGet_elem in Hw as [k Hk].
  unfold initialisedTable in Htable. rewrite Forall_forall in Htable.
  exact (Htable _ Hk).
Qed.

Lemma getVar_initialised st name v :
  allInitialised st → getVar st name = Some v → isInitialized v = true.
Proof.
  intros [Hglobals Hlocals]. unfold getVar.
  destruct (getVarIn (List.rev (localsStack st)) name) as [w|] eqn:Hw.
  - intros [= <-]. eapply getVarIn_initialised; [|exact Hw]. by apply Forall_rev.
  - intros Hv. apply tableGet_elem in Hv as [k Hk].
    unfold initialisedTable in Hglobals. rewrite Forall_forall in Hglobals.
    exact (Hglobals _ Hk).
Qed.

(** *** The loop over the uses *)

Lemma reportUse_fold filePath i raw line names : ∀ st issues,
  ∃ st' pushed,
    fold_left (reportUse filePath i raw line) names (st, issues) = (st', issues ++ pushed)
    ∧ sameShape st st'
    ∧ Forall (fun issue =>
                issue = scanIssue filePath i raw "Wild pointer" wildPointerMessage
                ∨ issue = scanIssue filePath i raw "Uninitialized" usedBeforeInitMessage)
             pushed
    ∧ (allInitialised st → st' = st ∧ pushed = []).
Proof.
  induction names as [|name rest IH]; intros st issues; cbn [fold_left].
  - exists st, []. rewrite app_nil_r. split; [done|]. split; [apply sameShape_refl|].
    split; [constructor|done].
  - assert (Hone : ∃ st1 pushed1,
      reportUse filePath i raw line (st, issues) name = (st1, issues ++ pushed1)
      ∧ sameShape st st1
      ∧ Forall (fun issue =>
                  issue = scanIssue filePath i raw "Wild pointer" wildPointerMessage
                  ∨ issue = scanIssue filePath i raw "Uninitialized" usedBeforeInitMessage)
               pushed1
      ∧ (allInitialised st → st1 = st ∧ pushed1 = [])).
    { assert (Hsame : ∃ st1 pushed1,
        (st, issues) = (st1, issues ++ pushed1) ∧ sameShape st st1
        ∧ Forall (fun issue =>
                    issue = scanIssue filePath i raw "Wild pointer" wildPointerMessage
                    ∨ issue = scanIssue filePath i raw "Uninitialized" usedBeforeInitMessage)
                 pushed1
        ∧ (allInitialised st → st1 = st ∧ pushed1 = [])).
      { exists st, []. rewrite app_nil_r. split; [done|].
        split; [apply sameShape_refl|]. split; [constructor|done]. }
      unfold reportUse. destruct (negb (tokenContains line name)); [exact Hsame|].
      destruct (getVar st name) as [v|] eqn:Hv; [|exact Hsame].
      destruct (isInitialized v) eqn:Hinit; cbn [negb]; [exact Hsame|]. cbv zeta.
      eexists _, [_]. split; [reflexivity|]. split.
      { destruct (firstUseLine v); [apply sameShape_refl|apply updateVar_shape]. }
      split.
      { constructor; [|constructor]. destruct (_ && _); [by left|by right]. }
      intros Hall. rewrite (getVar_initialised _ _ _ Hall Hv) in Hinit. done. }
    destruct Hone as (st1 & pushed1 & -> & Hshape1 & Hpushed1 & Hinit1).
    destruct (IH st1 (issues ++ pushed1)) as (st' & pushed & -> & Hshape & Hpushed & Hinit).
    exists st', (pushed1 ++ pushed). split; [by rewrite app_assoc|].
    split; [by eapply sameShape_trans|]. split; [by apply Forall_app|].
    intros Hall. destruct (Hinit1 Hall) as [-> ->]. by destruct (Hinit Hall) as [-> ->].
Qed.

End ScanStepFacts.

Section ScanLineFacts.
Import JsString Regex Heuristic HeuristicScan ScanNotions.

Lemma checkPrintfScanf_elem getVar filePath i raw line issue :
  issue ∈ checkPrintfScanf getVar filePath i raw line →
  ∃ message, issue = formatIssue filePath i raw message.
Proof.
  destruct (callsOneOf ["printf"; "scanf"] false line) eqn:Hcall.
  2:{ unfold checkPrintfScanf. rewrite Hcall. by intros ?%elem_of_nil. }
  destruct (getArgsFromCall line) as [|fmt rest] eqn:Hargs.
  { unfold checkPrintfScanf. rewrite Hcall, Hargs. by intros ?%elem_of_nil. }
  rewrite (checkPrintfScanf_parts _ _ _ _ _ _ _ Hcall Hargs).
  intros [Hin|[Hin|Hin]%elem_of_app]%elem_of_app.
  - destruct (_ <? _); [|by apply elem_of_nil in Hin].
    apply list_elem_of_singleton in Hin as ->. by eexists.
  - destruct (_ <? _); [|by apply elem_of_nil in Hin].
    apply list_elem_of_singleton in Hin as ->. by eexists.
  - destruct (callsOneOf ["scanf"] false line); [|by apply elem_of_nil in Hin].
    apply list_elem_of_fmap in Hin as (expr & -> & _). by eexists.
Qed.

Lemma checkPrintfScanf_categories getVar filePath i raw line :
  List.filter isUseIssue (checkPrintfScanf getVar filePath i raw line) = []
  ∧ List.filter isFormatIssue (checkPrintfScanf getVar filePath i raw line)
    = checkPrintfScanf getVar filePath i raw line.
Proof.
  assert (Hall : Forall (fun issue => ∃ message, issue = formatIssue filePath i raw message)
                        (checkPrintfScanf getVar filePath i raw line)).
  { apply Forall_forall. intros issue. apply checkPrintfScanf_elem. }
  induction Hall as [|issue rest [message ->] _ [IH1 IH2]]; [done|].
  cbn [List.filter]. rewrite IH1, IH2. by split.
Qed.

(** The three ways through one iteration. *)
Lemma scanLine_cases filePath i raw st :
  (isSkipped raw = true ∧ scanLine filePath i raw st = (st, []))
  ∨ (isSkipped raw = false ∧ isLikelyDecl (scanned raw) = true
     ∧ scanLine filePath i raw st
       = (fold_left declare (parseDecl (scanned raw))
            (enterParameters (trackScopes st raw) raw), []))
  ∨ (isSkipped raw = false ∧ isLikelyDecl (scanned raw) = false
     ∧ ∃ st' uses,
         scanLine filePath i raw st
         = (st', endlessLoopIssues filePath i raw (scanned raw) ++ uses
                 ++ checkPrintfScanf (getVar st') filePath i raw (scanned raw))
         ∧ sameShape (trackScopes st raw) st'
         ∧ Forall (fun issue =>
                     issue = scanIssue filePath i raw "Wild pointer" wildPointerMessage
                     ∨ issue = scanIssue filePath i raw "Uninitialized"
                                 usedBeforeInitMessage) uses
         ∧ (allInitialised st → allInitialised st' ∧ uses = [])).
Proof.
  unfold scanLine, isSkipped, scanned, Notions.scannedText. cbv zeta.
  destruct (isEmpty (trim raw)); [by left|].
  destruct (startsWith "#" (trim raw)); [by left|]. right. cbn [orb].
  set (line := if includes (trim raw) "//" then beforeFirst (trim raw) "//" else trim raw).
  destruct (isLikelyDecl line); [by left|]. right.
  split; [done|]. split; [done|].
  set (st2 := enterParameters (trackScopes st raw) raw).
  set (st3 := fold_left (markAssigned line) (knownNames st2) st2).
  destruct (reportUse_fold filePath i raw line (knownNames st3) st3
              (endlessLoopIssues filePath i raw line))
    as (st' & uses & Hfold & Hshape & Huses & Hinit).
  rewrite Hfold. exists st', uses.
  split; [by rewrite <- app_assoc|]. split.
  - eapply sameShape_trans; [apply enterParameters_shape|].
    eapply sameShape_trans; [|exact Hshape].
    apply sameShape_fold. intros s x. apply markAssigned_shape.
  - split; [done|]. intros Hall.
    assert (Hall3 : allInitialised st3).
    { unfold st3. assert (Hall2 : allInitialised st2)
        by by apply enterParameters_initialised, trackScopes_initialised.
      revert Hall2. generalize (knownNames st2) as names. generalize st2 as s.
      intros s names. revert s. induction names as [|name rest IH];
        intros s Hs; cbn [fold_left]; [done|]. by apply IH, markAssigned_initialised. }
    destruct (Hinit Hall3) as [Hst' Huses']. rewrite Hst', Huses'. by split.
Qed.

Lemma scanLine_inStep filePath i raw st :
  inStep st → inStep (fst (scanLine filePath i raw st)).
Proof.
  intros Hst.
  destruct (scanLine_cases filePath i raw st)
    as [[_ ->]|[(_ & _ & ->)|(_ & _ & st' & uses & -> & Hshape & _)]]; cbn [fst].
  - done.
  - eapply sameShape_inStep; [apply sameShape_fold; apply declare_shape|].
    eapply sameShape_inStep; [apply enterParameters_shape|]. by apply trackScopes_inStep.
  - eapply sameShape_inStep; [exact Hshape|]. by apply trackScopes_inStep.
Qed.

Lemma scanLine_initialised filePath i raw st :
  declaresUninitialised raw = false →
  allInitialised st →
  allInitialised (fst (scanLine filePath i raw st))
  ∧ List.filter isUseIssue (snd (scanLine filePath i raw st)) = [].
Proof.
  intros Hdeclares Hst. unfold declaresUninitialised in Hdeclares.
  destruct (scanLine_cases filePath i raw st)
    as [[_ ->]|[(Hskip & Hdecl & ->)|(_ & _ & st' & uses & -> & _ & _ & Hinit)]];
    cbn [fst snd].
  - done.
  - split; [|done]. rewrite Hskip, Hdecl in Hdeclares. cbn [negb andb] in Hdeclares.
    apply negb_false_iff in Hdeclares. rewrite forallb_forall in Hdeclares.
    assert (Hstart : allInitialised (enterParameters (trackScopes st raw) raw))
      by by apply enterParameters_initialised, trackScopes_initialised.
    revert Hstart. generalize (enterParameters (trackScopes st raw) raw).
    induction (parseDecl (scanned raw)) as [|vi rest IH]; intros s Hs;
      cbn [fold_left]; [done|].
    apply IH.
    + intros x Hx. apply Hdeclares. by right.
    + apply declare_initialised; [done|]. apply Hdeclares. by left.
  - destruct (Hinit Hst) as [Hall ->]. split; [done|].
    rewrite !List.filter_app. cbn [List.filter app].
    assert (Hloop : List.filter isUseIssue (endlessLoopIssues filePath i raw (scanned raw))
                    = []).
    { unfold endlessLoopIssues. destruct (_ || _); [|done].
      destruct (test leavesLoop (scanned raw)); reflexivity. }
    rewrite Hloop. cbn [app].
    apply checkPrintfScanf_categories.
Qed.

(** What an issue of one iteration looks like. *)
Lemma scanLine_elem filePath i raw st issue :
  issue ∈ snd (scanLine filePath i raw st) →
  file issue = filePath ∧ line issue = i + 1 ∧ codeLine issue = raw
  ∧ isSkipped raw = false ∧ isLikelyDecl (scanned raw) = false
  ∧ (category issue = "Infinite loop" ∨ category issue = "Wild pointer"
     ∨ category issue = "Uninitialized" ∨ category issue = "Format").
Proof.
  destruct (scanLine_cases filePath i raw st)
    as [[_ ->]|[(_ & _ & ->)|(Hskip & Hdecl & st' & uses & -> & _ & Huses & _)]];
    cbn [snd]; [by intros ?%elem_of_nil..|].
  intros [Hin|[Hin|Hin]%elem_of_app]%elem_of_app.
  - unfold endlessLoopIssues in Hin.
    destruct (_ || _); [|by apply elem_of_nil in Hin].
    destruct (negb _); [|by apply elem_of_nil in Hin].
    apply list_elem_of_singleton in Hin as ->. repeat split; auto.
  - rewrite Forall_forall in Huses.
    destruct (Huses _ Hin) as [-> | ->]; repeat split; auto.
  - apply checkPrintfScanf_elem in Hin as [message ->]. repeat split; auto.
Qed.

(** The loop over the lines. *)
Lemma scanLines_unfold filePath lines : ∀ i st issues,
  scanLines filePath i lines st issues
  = (stateAfter filePath i lines st, issues ++ issuesOfLines filePath i lines st).
Proof.
  unfold stateAfter, issuesOfLines.
  induction lines as [|raw rest IH]; intros i st issues; cbn [scanLines].
  - by rewrite app_nil_r.
  - destruct (scanLine filePath i raw st) as [st1 pushed].
    rewrite (IH (S i) st1 (issues ++ pushed)), (IH (S i) st1 ([] ++ pushed)).
    cbn [fst snd app]. by rewrite app_assoc.
Qed.

Lemma issuesOfLines_cons filePath i raw rest st :
  issuesOfLines filePath i (raw :: rest) st
  = snd (scanLine filePath i raw st)
    ++ issuesOfLines filePath (S i) rest (fst (scanLine filePath i raw st)).
Proof.
  unfold issuesOfLines at 1. cbn [scanLines].
  destruct (scanLine filePath i raw st) as [st1 pushed]. cbn [fst snd app].
  by rewrite scanLines_unfold.
Qed.

Lemma stateAfter_cons filePath i raw rest st :
  stateAfter filePath i (raw :: rest) st
  = stateAfter filePath (S i) rest (fst (scanLine filePath i raw st)).
Proof.
  unfold stateAfter at 1. cbn [scanLines].
  destruct (scanLine filePath i raw st) as [st1 pushed]. cbn [fst snd app].
  by rewrite scanLines_unfold.
Qed.

Lemma stateAfter_inStep filePath lines : ∀ i st,
  inStep st → inStep (stateAfter filePath i lines st).
Proof.
  induction lines as [|raw rest IH]; intros i st Hst; [done|].
  rewrite stateAfter_cons. by apply IH, scanLine_inStep.
Qed.

Lemma issuesOfLines_elem filePath lines : ∀ i st issue,
  issue ∈ issuesOfLines filePath i lines st →
  ∃ j raw st', lines !! j = Some raw
               ∧ issue ∈ snd (scanLine filePath (i + j) raw st').
Proof.
  induction lines as [|raw rest IH]; intros i st issue.
  - by intros ?%elem_of_nil.
  - rewrite issuesOfLines_cons. intros [Hin|Hin]%elem_of_app.
    + exists 0, raw, st. split; [done|]. by rewrite Nat.add_0_r.
    + destruct (IH _ _ _ Hin) as (j & raw' & st' & Hraw' & Hin').
      exists (S j), raw', st'. split; [done|].
      by replace (i + S j) with (S i + j) by lia.
Qed.

Lemma issuesOfLines_ordered filePath lines : ∀ i st a b x y,
  a ≤ b →
  issuesOfLines filePath i lines st !! a = Some x →
  issuesOfLines filePath i lines st !! b = Some y →
  i < line x ∧ line x ≤ line y.
Proof.
  induction lines as [|raw rest IH]; intros i st a b x y Hab; [done|].
  rewrite issuesOfLines_cons. intros Hx Hy.
  set (here := snd (scanLine filePath i raw st)) in *.
  set (st1 := fst (scanLine filePath i raw st)) in *.
  assert (Hhere : ∀ c z, here !! c = Some z → line z = i + 1).
  { intros c z Hz. apply list_elem_of_lookup_2 in Hz.
    by apply scanLine_elem in Hz as (_ & ? & _). }
  assert (Hlater : ∀ c z, issuesOfLines filePath (S i) rest st1 !! c = Some z →
                          S i < line z).
  { intros c z Hz. by destruct (IH (S i) st1 c c z z (le_n _) Hz Hz). }
  destruct (decide (a < length here)) as [Ha|Ha];
    destruct (decide (b < length here)) as [Hb|Hb].
  - rewrite lookup_app_l in Hx, Hy by done.
    rewrite (Hhere _ _ Hx), (Hhere _ _ Hy). lia.
  - rewrite lookup_app_l in Hx by done. rewrite lookup_app_r in Hy by lia.
    rewrite (Hhere _ _ Hx). specialize (Hlater _ _ Hy). lia.
  - lia.
  - rewrite lookup_app_r in Hx, Hy by lia.
    assert (Hab' : a - length here ≤ b - length here) by lia.
    destruct (IH (S i) st1 _ _ x y Hab' Hx Hy). lia.
Qed.

Lemma issuesOfLines_initialised filePath lines : ∀ i st,
  Forall (fun raw => declaresUninitialised raw = false) lines →
  allInitialised st →
  allInitialised (stateAfter filePath i lines st)
  ∧ List.filter isUseIssue (issuesOfLines filePath i lines st) = [].
Proof.
  induction lines as [|raw rest IH]; intros i st Hlines Hst; [done|].
  apply Forall_cons in Hlines as [Hraw Hrest].
  rewrite stateAfter_cons, issuesOfLines_cons, List.filter_app.
  destruct (scanLine_initialised filePath i raw st Hraw Hst) as [Hst1 ->].
  by apply IH.
Qed.

Lemma issuesOfLines_app filePath before rest : ∀ i st,
  issuesOfLines filePath i (before ++ rest) st
  = issuesOfLines filePath i before st
    ++ issuesOfLines filePath (i + length before) rest (stateAfter filePath i before st).
Proof.
  induction before as [|raw before IH]; intros i st; cbn [app length].
  - by rewrite Nat.add_0_r.
  - rewrite !issuesOfLines_cons, stateAfter_cons, IH, <- app_assoc.
    by replace (S i + length before) with (i + S (length before)) by lia.
Qed.

End ScanLineFacts.

Section ScanClaims.
Import JsString Regex Heuristic HeuristicScan ScanNotions.

(** After any number of lines of any file, the depth is the number of open
    tables, and [funcStack] has as many entries: a closing brace without an
    open one leaves all three as they are.  So the depth is 0 exactly when
    there is no innermost table. *)
Theorem scan_keeps_depth_and_tables_in_step
    (filePath content : string) (n : nat) :
  let st := stateAfter filePath 0 (firstn n (splitLines content)) initialState in
  braceDepth st = length (localsStack st)
  ∧ length (funcStack st) = length (localsStack st)
  ∧ (braceDepth st = 0 ↔ currentLocals st = None).
Proof.
  intros st.
  assert (Hstep : inStep st) by (by apply stateAfter_inStep).
  destruct Hstep as [Hdepth Hfunc]. split; [done|]. split; [done|].
  rewrite Hdepth. unfold currentLocals.
  destruct (localsStack st) as [|table tables] using rev_ind; [done|].
  rewrite last_snoc, length_app. cbn [length]. split; [lia|done].
Qed.

(** In a state in which the depth is the number of open tables, a
    declaration enters its variable into the innermost open table, or into
    the globals when no table is open; [getVar] then finds this variable
    under its name, before any variable of that name further out, and finds
    under every other name what it found before. *)
Theorem declared_variable_is_found (st : ScanState) (vi : VariableInfo) :
  inStep st →
  getVar (declare st vi) (name vi) = Some vi
  ∧ (∀ other, other ≠ name vi → getVar (declare st vi) other = getVar st other)
  ∧ match currentLocals st with
    | None =>
        globals (declare st vi) = tableSet (globals st) (name vi) vi
        ∧ localsStack (declare st vi) = localsStack st
    | Some locals =>
        globals (declare st vi) = globals st
        ∧ localsStack (declare st vi)
          = removelast (localsStack st) ++ [tableSet locals (name vi) vi]
    end
  ∧ inStep (declare st vi).
Proof.
  intros Hstep.
  assert (Hafter : inStep (declare st vi))
    by (eapply sameShape_inStep; [apply declare_shape|done]).
  cut (getVar (declare st vi) (name vi) = Some vi
       ∧ (∀ other, other ≠ name vi → getVar (declare st vi) other = getVar st other)
       ∧ match currentLocals st with
         | None =>
             globals (declare st vi) = tableSet (globals st) (name vi) vi
             ∧ localsStack (declare st vi) = localsStack st
         | Some locals =>
             globals (declare st vi) = globals st
             ∧ localsStack (declare st vi)
               = removelast (localsStack st) ++ [tableSet locals (name vi) vi]
         end).
  { intros (Hfound & Hothers & Hwhere). done. }
  clear Hafter. destruct Hstep as [Hdepth Hfunc]. unfold declare, currentLocals, getVar.
  destruct (localsStack st) as [|locals outer _] eqn:Hstack using rev_ind.
  - rewrite Hdepth. cbn [length Nat.eqb last]. unfold setInGlobals.
    cbn [globals localsStack]. rewrite Hstack. cbn [List.rev getVarIn].
    split; [apply tableGet_tableSet|]. split; [|done].
    intros other Hother. by apply tableGet_tableSet_other.
  - rewrite Hdepth, length_app, last_snoc. cbn [length].
    replace (length outer + 1 =? 0) with false by (symmetry; apply Nat.eqb_neq; lia).
    unfold setInCurrentLocals, currentLocals. rewrite Hstack, last_snoc.
    cbn [globals localsStack]. rewrite removelast_snoc, !rev_app_distr.
    cbn [List.rev app getVarIn]. rewrite tableGet_tableSet.
    split; [done|]. split; [|done].
    intros other Hother. by rewrite tableGet_tableSet_other.
Qed.

(** Every issue of the scan of a file has the path of the file, a line
    number of the file and that line as it is, and one of four categories;
    the line is neither empty nor a directive nor taken for a declaration;
    the issues come in the order of the lines. *)
Theorem scanFile_returns_located_issues (filePath content : string) :
  let issues := scanFile filePath content in
  (∀ issue, issue ∈ issues →
     file issue = filePath
     ∧ 1 ≤ line issue ≤ length (splitLines content)
     ∧ (∃ raw, splitLines content !! (line issue - 1) = Some raw
               ∧ codeLine issue = raw
               ∧ isSkipped raw = false
               ∧ isLikelyDecl (scanned raw) = false)
     ∧ (category issue = "Infinite loop" ∨ category issue = "Wild pointer"
        ∨ category issue = "Uninitialized" ∨ category issue = "Format"))
  ∧ (∀ a b x y, a ≤ b → issues !! a = Some x → issues !! b = Some y →
                line x ≤ line y).
Proof.
  intros issues. unfold issues, scanFile. rewrite scanLines_unfold.
  cbn [snd app]. split.
  - intros issue (j & raw & st' & Hraw & Hin)%issuesOfLines_elem.
    cbn [Nat.add] in Hin.
    apply scanLine_elem in Hin as (Hfile & Hline & Hcode & Hskip & Hdecl & Hcategory).
    apply lookup_lt_Some in Hraw as Hj.
    split; [done|]. rewrite Hline. split; [lia|]. split; [|done].
    exists raw. replace (j + 1 - 1) with j by lia. done.
  - intros a b x y Hab Hx Hy.
    by destruct (issuesOfLines_ordered _ _ _ _ _ _ _ _ Hab Hx Hy).
Qed.

(** Only a declaration brings a variable that is not initialised into the
    tables: the parameters of a function are entered as initialised.  So on
    the lines before the first declaration of a variable without
    initialiser, nothing is reported as Uninitialized or as Wild pointer. *)
Theorem no_use_reported_before_a_declaration
    (filePath content : string) (before rest : list string) :
  splitLines content = before ++ rest →
  Forall (fun raw => declaresUninitialised raw = false) before →
  ∀ issue, issue ∈ scanFile filePath content → isUseIssue issue = true →
    length before < line issue.
Proof.
  intros Hlines Hbefore issue. unfold scanFile.
  rewrite scanLines_unfold, Hlines, issuesOfLines_app. cbn [snd app Nat.add].
  assert (Hinitial : allInitialised initialState) by (split; constructor).
  destruct (issuesOfLines_initialised filePath before 0 initialState Hbefore Hinitial)
    as [_ Hnone].
  intros [Hin|Hin]%elem_of_app Huse.
  - exfalso.
    assert (Hfiltered : issue ∈ List.filter isUseIssue
                                  (issuesOfLines filePath 0 before initialState)).
    { apply list_elem_of_In, filter_In. split; [by apply list_elem_of_In|done]. }
    rewrite Hnone in Hfiltered. by apply elem_of_nil in Hfiltered.
  - apply list_elem_of_lookup_1 in Hin as [a Ha].
    by destruct (issuesOfLines_ordered _ _ _ _ _ _ _ _ (le_n a) Ha Ha).
Qed.

(** The Format issues of one iteration of the scan are those of the block
    for [printf] and [scanf] alone, run with the symbol tables as the
    iteration leaves them: the blocks before it push no Format issue. *)
Theorem format_issues_are_those_of_the_block
    (filePath : string) (i : nat) (raw : string) (st : ScanState) :
  List.filter isFormatIssue (snd (scanLine filePath i raw st))
  = formatIssuesOfLine (getVar (fst (scanLine filePath i raw st))) filePath i raw.
Proof.
  unfold formatIssuesOfLine. cbv zeta. fold (Notions.scannedText raw). fold (scanned raw).
  destruct (scanLine_cases filePath i raw st)
    as [[Hskip ->]|[(Hskip & Hdecl & ->)|(Hskip & Hdecl & st' & uses & -> & _ & Huses & _)]];
    cbn [fst snd]; unfold isSkipped in Hskip.
  - apply orb_prop in Hskip as [-> | Hskip]; [done|].
    destruct (isEmpty (trim raw)); [done|]. by rewrite Hskip.
  - apply orb_false_elim in Hskip as [-> ->]. by rewrite Hdecl.
  - apply orb_false_elim in Hskip as [-> ->]. rewrite Hdecl.
    rewrite !List.filter_app.
    replace (List.filter isFormatIssue (endlessLoopIssues filePath i raw (scanned raw)))
      with (@nil Issue).
    2:{ unfold endlessLoopIssues. destruct (_ || _); [|done].
        destruct (test leavesLoop (scanned raw)); reflexivity. }
    replace (List.filter isFormatIssue uses) with (@nil Issue).
    2:{ clear -Huses. induction Huses as [|issue rest [-> | ->] _ IH]; [done|..];
          cbn [List.filter]; exact IH. }
    apply checkPrintfScanf_categories.
Qed.

End ScanClaims.

Section ScanInstances.
Import JsString Regex Heuristic HeuristicScan ScanNotions ScanSamples.

Lemma declared_variable_is_found_witness :
  getVar (declare (trackScopes initialState "int main(void) {") variable_n) "n"
  = Some variable_n.
Proof.
  apply (declared_variable_is_found (trackScopes initialState "int main(void) {")
           variable_n).
  split; reflexivity.
Defined.

Lemma no_use_reported_before_a_declaration_witness :
  scanFile "t.c" (TextSamples.code_of parameters_lines) = []
  ∧ ∀ issue, issue ∈ scanFile "t.c" (TextSamples.code_of parameters_lines) →
      isUseIssue issue = true → 3 < line issue.
Proof.
  split; [by vm_compute|].
  apply (no_use_reported_before_a_declaration "t.c" (TextSamples.code_of parameters_lines)
           parameters_lines []).
  - by vm_compute.
  - repeat constructor.
Defined.

End ScanInstances.

(** ** The regular expressions of the text analysis and the check of the context *)

Section MatcherFacts.
Import JsString Regex RegexNotions.

Lemma append_cons c (a b : string) : String c a +:+ b = String c (a +:+ b).
Proof. reflexivity. Qed.

Lemma append_nil_l (a : string) : "" +:+ a = a.
Proof. reflexivity. Qed.

Lemma append_nil_r (a : string) : a +:+ "" = a.
Proof. induction a as [|x a IH]; [done|]. by rewrite append_cons, IH. Qed.

Lemma append_assoc (a b c : string) : (a +:+ b) +:+ c = a +:+ (b +:+ c).
Proof.
  induction a as [|x a IH]; [done|]. by rewrite !append_cons, IH.
Qed.

Lemma length_append (a b : string) :
  String.length (a +:+ b) = String.length a + String.length b.
Proof.
  induction a as [|x a IH]; [done|]. rewrite append_cons. cbn [String.length].
  by rewrite IH.
Qed.

Lemma isSuffixOf_refl s : isSuffixOf s s.
Proof. by exists "". Qed.

Lemma isSuffixOf_trans t s u : isSuffixOf t s → isSuffixOf s u → isSuffixOf t u.
Proof.
  intros [a ->] [b ->]. exists (b +:+ a). by rewrite append_assoc.
Qed.

Lemma isSuffixOf_tail c s : isSuffixOf s (String c s).
Proof. by exists (String c ""). Qed.

Lemma isSuffixOf_length t s : isSuffixOf t s → String.length t ≤ String.length s.
Proof. intros [a ->]. rewrite length_append. lia. Qed.

Lemma furtherOn_refl st : furtherOn st st.
Proof. split; [apply isSuffixOf_refl|done]. Qed.

Lemma furtherOn_trans st1 st2 st3 :
  furtherOn st1 st2 → furtherOn st2 st3 → furtherOn st1 st3.
Proof.
  intros [Hs1 Hp1] [Hs2 Hp2]. split; [by eapply isSuffixOf_trans|lia].
Qed.

Lemma furtherOn_step st c s' : rest st = String c s' → furtherOn st (step st c s').
Proof.
  intros Hrest. split; cbn [step rest pos]; rewrite Hrest.
  - apply isSuffixOf_tail.
  - cbn [String.length]. lia.
Qed.

Lemma furtherOn_skip n : ∀ st, furtherOn st (skip n st).
Proof.
  induction n as [|n IH]; intros st; cbn [skip]; [apply furtherOn_refl|].
  destruct (rest st) as [|c s'] eqn:Hrest; [apply furtherOn_refl|].
  eapply furtherOn_trans; [by apply furtherOn_step|apply IH].
Qed.

Lemma furtherOn_capture n st st' : furtherOn st st' → furtherOn st (capture n st st').
Proof. by intros [? ?]. Qed.

Lemma furtherOn_moved st st' :
  furtherOn st st' → pos st' ≠ pos st → String.length (rest st') < String.length (rest st).
Proof.
  intros [Hsuffix Hpos] Hmoved. apply isSuffixOf_length in Hsuffix. lia.
Qed.

Lemma is_Some_orElse {A} (x y : option A) :
  is_Some (match x with Some m => Some m | None => y end) ↔ is_Some x ∨ is_Some y.
Proof.
  destruct x as [m|]; split.
  - intros _. left. by eexists.
  - intros _. by eexists.
  - intros Hy. by right.
  - intros [[m Hm]|Hy]; [done|done].
Qed.

Lemma run_Star greedy r1 st k :
  run (Star greedy r1) st k = iterateStar greedy r1 k (String.length (rest st)) st.
Proof. reflexivity. Qed.

Lemma iterateStar_S greedy r1 k fuel st :
  iterateStar greedy r1 k (S fuel) st
  = if greedy
    then match run r1 st (fun st' => if pos st' =? pos st then None
                                     else iterateStar greedy r1 k fuel st') with
         | Some m => Some m
         | None => k st
         end
    else match k st with
         | Some m => Some m
         | None => run r1 st (fun st' => if pos st' =? pos st then None
                                         else iterateStar greedy r1 k fuel st')
         end.
Proof. reflexivity. Qed.

(** What a successful run is made of: the continuation succeeded on a
    state further on in the text, and any continuation that succeeds on
    that state makes the run succeed. *)
Lemma run_sound r : ∀ st k m,
  run r st k = Some m →
  ∃ st', k st' = Some m
         ∧ furtherOn st st'
         ∧ ∀ k', is_Some (k' st') → is_Some (run r st k').
Proof.
  induction r as [|p|text|r1 IH1 r2 IH2|r1 IH1 r2 IH2|greedy r1 IH1|r1 IH1|n r1 IH1| | |];
    intros st k m.
  - cbn [run]. intros Hk. exists st. split; [done|]. split; [apply furtherOn_refl|done].
  - cbn [run]. destruct (rest st) as [|c s'] eqn:Hrest; [done|].
    destruct (p c) eqn:Hp; [|done]. intros Hk. exists (step st c s').
    split; [done|]. split; [by apply furtherOn_step|].
    intros k' Hk'. exact Hk'.
  - cbn [run]. destruct (startsWith text (rest st)) eqn:Hstart; [|done]. intros Hk.
    exists (skip (String.length text) st). split; [done|]. split; [apply furtherOn_skip|].
    intros k' Hk'. exact Hk'.
  - cbn [run]. intros Hrun. apply IH1 in Hrun as (st1 & Hrun & Hfurther1 & Hreplay1).
    apply IH2 in Hrun as (st2 & Hk & Hfurther2 & Hreplay2).
    exists st2. split; [done|]. split; [by eapply furtherOn_trans|].
    intros k' Hk'. cbn [run]. by apply Hreplay1, Hreplay2.
  - cbn [run]. destruct (run r1 st k) as [m1|] eqn:Hfirst.
    + intros [= <-]. apply IH1 in Hfirst as (st' & Hk & Hfurther & Hreplay).
      exists st'. split; [done|]. split; [done|].
      intros k' Hk'. cbn [run]. apply is_Some_orElse. left. by apply Hreplay.
    + intros Hrun. apply IH2 in Hrun as (st' & Hk & Hfurther & Hreplay).
      exists st'. split; [done|]. split; [done|].
      intros k' Hk'. cbn [run]. apply is_Some_orElse. right. by apply Hreplay.
  - rewrite run_Star.
    assert (Hloop : ∀ fuel st m,
      iterateStar greedy r1 k fuel st = Some m →
      ∃ st', k st' = Some m ∧ furtherOn st st'
             ∧ ∀ k' fuel', String.length (rest st) ≤ fuel' → is_Some (k' st') →
                           is_Some (iterateStar greedy r1 k' fuel' st)).
    { clear st m. induction fuel as [|fuel IHfuel]; intros st m.
      - cbn [iterateStar]. intros Hk. exists st. split; [done|].
        split; [apply furtherOn_refl|].
        intros k' fuel' _ Hk'. destruct fuel' as [|fuel']; [done|].
        rewrite iterateStar_S. destruct greedy; apply is_Some_orElse; [by right|by left].
      - rewrite iterateStar_S.
        assert (Hdirect : k st = Some m →
          ∃ st', k st' = Some m ∧ furtherOn st st'
                 ∧ ∀ k' fuel', String.length (rest st) ≤ fuel' → is_Some (k' st') →
                               is_Some (iterateStar greedy r1 k' fuel' st)).
        { intros Hk. exists st. split; [done|]. split; [apply furtherOn_refl|].
          intros k' fuel' _ Hk'. destruct fuel' as [|fuel']; [done|].
          rewrite iterateStar_S. destruct greedy; apply is_Some_orElse; [by right|by left]. }
        assert (Hagain : run r1 st (fun st' => if pos st' =? pos st then None
                                              else iterateStar greedy r1 k fuel st')
                         = Some m →
          ∃ st', k st' = Some m ∧ furtherOn st st'
                 ∧ ∀ k' fuel', String.length (rest st) ≤ fuel' → is_Some (k' st') →
                               is_Some (iterateStar greedy r1 k' fuel' st)).
        { intros Hrun. apply IH1 in Hrun as (st1 & Hrun & Hfurther1 & Hreplay1).
          destruct (Nat.eqb_spec (pos st1) (pos st)) as [|Hmoved]; [done|].
          apply IHfuel in Hrun as (st' & Hk & Hfurther & Hreplay).
          exists st'. split; [done|]. split; [by eapply furtherOn_trans|].
          intros k' fuel' Hfuel' Hk'.
          pose proof (furtherOn_moved _ _ Hfurther1 Hmoved) as Hshorter.
          destruct fuel' as [|fuel']; [lia|]. rewrite iterateStar_S.
          assert (Hinner : is_Some (run r1 st (fun st' => if pos st' =? pos st then None
                                     else iterateStar greedy r1 k' fuel' st'))).
          { apply Hreplay1. destruct (Nat.eqb_spec (pos st1) (pos st)); [done|].
            apply Hreplay; [lia|done]. }
          destruct greedy; apply is_Some_orElse; [by left|by right]. }
        destruct greedy.
        + destruct (run r1 st _) as [m1|] eqn:Hrun.
          * intros [= <-]. by apply Hagain.
          * exact Hdirect.
        + destruct (k st) as [m1|] eqn:Hk.
          * intros [= <-]. by apply Hdirect.
          * exact Hagain. }
    intros Hrun. apply Hloop in Hrun as (st' & Hk & Hfurther & Hreplay).
    exists st'. split; [done|]. split; [done|].
    intros k' Hk'. rewrite run_Star. by apply Hreplay.
  - cbn [run]. destruct (run r1 st k) as [m1|] eqn:Hfirst.
    + intros [= <-]. apply IH1 in Hfirst as (st' & Hk & Hfurther & Hreplay).
      exists st'. split; [done|]. split; [done|].
      intros k' Hk'. cbn [run]. apply is_Some_orElse. left. by apply Hreplay.
    + intros Hk. exists st. split; [done|]. split; [apply furtherOn_refl|].
      intros k' Hk'. cbn [run]. apply is_Some_orElse. by right.
  - cbn [run]. intros Hrun. apply IH1 in Hrun as (st1 & Hk & Hfurther & Hreplay).
    exists (capture n st st1). split; [done|]. split; [by apply furtherOn_capture|].
    intros k' Hk'. cbn [run]. by apply Hreplay.
  - cbn [run]. destruct (pos st =? 0) eqn:Hpos; [|done]. intros Hk.
    exists st. split; [done|]. split; [apply furtherOn_refl|].
    intros k' Hk'. exact Hk'.
  - cbn [run]. destruct (isEmpty (rest st)) eqn:Hend; [|done]. intros Hk.
    exists st. split; [done|]. split; [apply furtherOn_refl|].
    intros k' Hk'. exact Hk'.
  - cbn [run]. destruct (atWordBoundary st) eqn:Hboundary; [|done]. intros Hk.
    exists st. split; [done|]. split; [apply furtherOn_refl|].
    intros k' Hk'. exact Hk'.
Qed.


Lemma run_Seq r1 r2 st k : run (Seq r1 r2) st k = run r1 st (fun st' => run r2 st' k).
Proof. reflexivity. Qed.

Lemma run_Alt r1 r2 st k :
  run (Alt r1 r2) st k
  = match run r1 st k with Some m => Some m | None => run r2 st k end.
Proof. reflexivity. Qed.

Lemma run_Group n r1 st k :
  run (Group n r1) st k = run r1 st (fun st' => k (capture n st st')).
Proof. reflexivity. Qed.

Lemma run_Lit text st k :
  run (Lit text) st k
  = if startsWith text (rest st) then k (skip (String.length text) st) else None.
Proof. reflexivity. Qed.

Lemma run_Class p st k :
  run (Class p) st k
  = match rest st with
    | String c s' => if p c then k (step st c s') else None
    | EmptyString => None
    end.
Proof. reflexivity. Qed.

Lemma run_Alt_is_Some r1 r2 st k :
  is_Some (run (Alt r1 r2) st k) ↔ is_Some (run r1 st k) ∨ is_Some (run r2 st k).
Proof. rewrite run_Alt. apply is_Some_orElse. Qed.

Lemma run_Lit_Some text st :
  is_Some (run (Lit text) st Some) ↔ startsWith text (rest st) = true.
Proof.
  rewrite run_Lit. destruct (startsWith text (rest st)).
  - split; [done|]. intros _. by eexists.
  - split; [|done]. by intros [? ?].
Qed.

Lemma run_Lit_starts text st k :
  is_Some (run (Lit text) st k) → startsWith text (rest st) = true.
Proof. rewrite run_Lit. destruct (startsWith text (rest st)); [done|by intros [? ?]]. Qed.

(** Between two states of a sequence. *)
Lemma run_Seq_sound r1 r2 st k :
  is_Some (run (Seq r1 r2) st k) →
  ∃ st1, furtherOn st st1 ∧ is_Some (run r2 st1 k)
         ∧ ∀ k', is_Some (k' st1) → is_Some (run r1 st k').
Proof.
  rewrite run_Seq. intros [m Hrun].
  apply run_sound in Hrun as (st1 & Hrun & Hfurther & Hreplay).
  exists st1. split; [done|]. split; [by eexists|done].
Qed.

(** The search for a match. *)
Lemma searchFrom_is_Some r s : ∀ p prev,
  is_Some (searchFrom r p prev s)
  ↔ is_Some (run r {| pos := p; previous := prev; rest := s; captures := [] |} Some)
    ∨ match s with
      | EmptyString => False
      | String c s' => is_Some (searchFrom r (S p) (Some c) s')
      end.
Proof.
  intros p prev. destruct s as [|c s']; cbn [searchFrom].
  - destruct (run r _ Some) as [m|].
    + split; intros _; [left|]; by eexists.
    + split; [by intros [? ?]|]. intros [[? ?]|[]]. done.
  - destruct (run r _ Some) as [m|].
    + split; intros _; [left|]; by eexists.
    + split; [intros Hlater; by right|]. intros [[? ?]|?]; done.
Qed.

Lemma test_is_Some r s : test r s = true ↔ is_Some (searchFrom r 0 None s).
Proof.
  unfold test, exec. destruct (searchFrom r 0 None s).
  - split; [|done]. intros _. by eexists.
  - split; [done|]. by intros [? ?].
Qed.

Lemma searchFrom_weaken r r' :
  (∀ st, is_Some (run r st Some) → is_Some (run r' st Some)) →
  ∀ s p prev, is_Some (searchFrom r p prev s) → is_Some (searchFrom r' p prev s).
Proof.
  intros Hweaker. induction s as [|c s' IH]; intros p prev.
  - rewrite (searchFrom_is_Some r "" p prev), (searchFrom_is_Some r' "" p prev).
    intros [Hrun|[]]. left. by apply Hweaker.
  - rewrite (searchFrom_is_Some r (String c s') p prev),
      (searchFrom_is_Some r' (String c s') p prev).
    intros [Hrun|Hlater]; [left; by apply Hweaker|right; by apply IH].
Qed.

(** Where a match was found, the text from some position on made the
    expression run. *)
Lemma searchFrom_position r s : ∀ p prev,
  is_Some (searchFrom r p prev s) →
  ∃ st, isSuffixOf (rest st) s ∧ is_Some (run r st Some).
Proof.
  induction s as [|c s' IH]; intros p prev.
  - rewrite (searchFrom_is_Some r "" p prev).
    intros [Hrun|[]]. eexists. split; [|exact Hrun]. apply isSuffixOf_refl.
  - rewrite (searchFrom_is_Some r (String c s') p prev). intros [Hrun|Hlater].
    + eexists. split; [|exact Hrun]. apply isSuffixOf_refl.
    + destruct (IH _ _ Hlater) as (st & Hsuffix & Hrun). exists st. split; [|done].
      eapply isSuffixOf_trans; [exact Hsuffix|apply isSuffixOf_tail].
Qed.

End MatcherFacts.

Section DeclarationExpressions.
Import JsString Regex TextFallback RegexNotions.

Lemma fourTypeDeclaration_shape :
  fourTypeDeclaration
  = Seq lead (Seq (Group 1 (Alt (Lit "int") (Alt (Lit "char")
                              (Alt (Lit "float") (Lit "double")))))
                  declarationTail).
Proof. reflexivity. Qed.

Lemma variableDeclaration_shape :
  variableDeclaration
  = Seq lead (Seq (Group 1 (Alt (Lit "int") (Alt (Lit "char")
                              (Alt (Lit "float") (Alt (Lit "double")
                                (Alt (Lit "long") (Lit "short")))))))
                  declarationTail).
Proof. reflexivity. Qed.

Lemma declarationStart_shape :
  declarationStart
  = Seq lead (Alt (Lit "int") (Alt (Lit "void") (Alt (Lit "char") (Alt (Lit "float")
                (Alt (Lit "double") (Alt (Lit "struct") (Lit "typedef"))))))).
Proof. reflexivity. Qed.

(** A line with a declaration of one of the four types has a match of the
    expression of the check. *)
Lemma four_types_among_six st :
  is_Some (run fourTypeDeclaration st Some) → is_Some (run variableDeclaration st Some).
Proof.
  rewrite fourTypeDeclaration_shape, variableDeclaration_shape.
  intros (st1 & _ & Hrun & Hreplay)%run_Seq_sound.
  rewrite run_Seq. apply Hreplay.
  rewrite run_Seq, run_Group in Hrun. rewrite run_Seq, run_Group.
  rewrite !run_Alt_is_Some in Hrun. rewrite !run_Alt_is_Some. tauto.
Qed.

(** And it has a match of the expression of [isGlobalVariable]. *)
Lemma four_types_among_start_words st :
  is_Some (run fourTypeDeclaration st Some) → is_Some (run declarationStart st Some).
Proof.
  rewrite fourTypeDeclaration_shape, declarationStart_shape.
  intros (st1 & _ & Hrun & Hreplay)%run_Seq_sound.
  rewrite run_Seq. apply Hreplay.
  rewrite run_Seq, run_Group in Hrun. rewrite !run_Alt_is_Some in Hrun.
  rewrite !run_Alt_is_Some, !run_Lit_Some.
  destruct Hrun as [Hrun|[Hrun|[Hrun|Hrun]]]; apply run_Lit_starts in Hrun; tauto.
Qed.

Lemma run_startWords st :
  is_Some (run (Alt (Lit "int") (Alt (Lit "void") (Alt (Lit "char") (Alt (Lit "float")
             (Alt (Lit "double") (Alt (Lit "struct") (Lit "typedef"))))))) st Some)
  ↔ startsWithType (rest st) = true.
Proof.
  rewrite !run_Alt_is_Some, !run_Lit_Some. unfold startsWithType, startWords.
  cbn [existsb]. rewrite !orb_true_iff. intuition congruence.
Qed.

Lemma blank_starts_no_type c s :
  isWhiteSpace c = true → startsWithType (String c s) = false.
Proof.
  intros Hc. unfold startsWithType, startWords. cbn [existsb startsWith].
  assert (Hletters : ∀ d, existsb (Ascii.eqb d) (String.list_ascii_of_string "ivcfdst") = true →
                          Ascii.eqb d c = false).
  { intros d Hd. destruct (Ascii.eqb_spec d c) as [<-|]; [|done].
    cbn [String.list_ascii_of_string existsb] in Hd.
    rewrite !orb_true_iff in Hd.
    destruct Hd as [Hd|[Hd|[Hd|[Hd|[Hd|[Hd|[Hd|Hd]]]]]]]; try done;
      apply Ascii.eqb_eq in Hd; subst d; by vm_compute in Hc. }
  rewrite !Hletters by reflexivity. reflexivity.
Qed.


(** The blanks of [(?:^|\s+)] before one of the words: the loop gives up
    blanks in vain, the word can only stand after the last of them. *)
Lemma blanks_then_start_word k fuel : ∀ st,
  (∀ st', is_Some (k st') ↔ startsWithType (rest st') = true) →
  String.length (rest st) ≤ fuel →
  is_Some (iterateStar true space k fuel st)
  ↔ startsWithType (trimStart (rest st)) = true.
Proof.
  induction fuel as [|fuel IH]; intros st Hk Hfuel.
  - cbn [iterateStar]. destruct (rest st) as [|c s'] eqn:Hrest; [|simpl in Hfuel; lia].
    by rewrite Hk, Hrest.
  - rewrite iterateStar_S. cbn [negb]. rewrite is_Some_orElse. unfold space at 1.
    cbn [run]. destruct (rest st) as [|c s'] eqn:Hrest.
    + rewrite Hk, Hrest. cbn [trimStart]. split; [|by right].
      by intros [[? ?]|?].
    + cbn [trimStart]. destruct (isWhiteSpace c) eqn:Hc.
      * cbn [step pos]. replace (S (pos st) =? pos st) with false
          by (symmetry; apply Nat.eqb_neq; lia).
        rewrite IH; [|done|cbn [step rest]; simpl in Hfuel; lia].
        cbn [step rest]. rewrite Hk, Hrest, (blank_starts_no_type _ _ Hc).
        split; [by intros [?|?]|by left].
      * rewrite Hk, Hrest. split; [|by right]. by intros [[? ?]|?].
Qed.

(** The expression of [isGlobalVariable] from one position. *)
Lemma run_declarationStart st :
  is_Some (run declarationStart st Some)
  ↔ (pos st = 0 ∧ startsWithType (rest st) = true)
    ∨ match rest st with
      | EmptyString => False
      | String c s' => isWhiteSpace c = true ∧ startsWithType (trimStart s') = true
      end.
Proof.
  rewrite declarationStart_shape, run_Seq. unfold lead, Plus.
  rewrite run_Alt_is_Some, run_Seq.
  set (k := fun st' => run _ st' Some).
  assert (Hk : ∀ st', is_Some (k st') ↔ startsWithType (rest st') = true)
    by (intros st'; apply run_startWords).
  assert (Hstart : is_Some (run Bol st k)
                   ↔ pos st = 0 ∧ startsWithType (rest st) = true).
  { cbn [run]. destruct (pos st =? 0) eqn:Hpos.
    - apply Nat.eqb_eq in Hpos. rewrite Hk. tauto.
    - apply Nat.eqb_neq in Hpos. split; [by intros [? ?]|tauto]. }
  assert (Hblank : is_Some (run space st (fun st' => run (Star true space) st' k))
                   ↔ match rest st with
                     | EmptyString => False
                     | String c s' =>
                         isWhiteSpace c = true ∧ startsWithType (trimStart s') = true
                     end).
  { unfold space at 1. rewrite run_Class. destruct (rest st) as [|c s'] eqn:Hrest.
    - split; [by intros [? ?]|done].
    - destruct (isWhiteSpace c) eqn:Hc.
      + rewrite run_Star, blanks_then_start_word; [|exact Hk|done].
        cbn [step rest]. tauto.
      + split; [by intros [? ?]|]. by intros [? _]. }
  rewrite Hstart, Hblank. done.
Qed.

(** The search for it in a text. *)
Lemma searchFrom_declarationStart s : ∀ p prev,
  is_Some (searchFrom declarationStart p prev s) ↔ typeAfterBlank (p =? 0) s = true.
Proof.
  induction s as [|c s' IH]; intros p prev.
  - rewrite (searchFrom_is_Some declarationStart "" p prev), run_declarationStart.
    cbn [pos rest typeAfterBlank]. rewrite orb_false_r, andb_true_iff, Nat.eqb_eq. tauto.
  - rewrite (searchFrom_is_Some declarationStart (String c s') p prev),
      run_declarationStart, IH.
    cbn [pos rest typeAfterBlank Nat.eqb].
    rewrite !orb_true_iff, !andb_true_iff, Nat.eqb_eq. tauto.
Qed.

Lemma test_declarationStart s : test declarationStart s = typeAfterBlank true s.
Proof.
  apply eq_true_iff_eq. rewrite test_is_Some. apply searchFrom_declarationStart.
Qed.

(** The expression for the head of a function needs an opening
    parenthesis. *)
Lemma functionDefinition_parenthesis s :
  test functionDefinition s = true →
  ∃ t, isSuffixOf t s ∧ startsWith "(" t = true.
Proof.
  rewrite test_is_Some. intros (st & Hsuffix & Hrun)%searchFrom_position.
  assert (Hshape : ∃ r1 r2 r3 r4 r5 r6,
    functionDefinition
    = Seq r1 (Seq r2 (Seq r3 (Seq r4 (Seq r5 (Seq (chr "(") r6)))))).
  { by eexists _, _, _, _, _, _. }
  destruct Hshape as (r1 & r2 & r3 & r4 & r5 & r6 & Hshape). rewrite Hshape in Hrun.
  apply run_Seq_sound in Hrun as (st1 & [Hs1 _] & Hrun & _).
  apply run_Seq_sound in Hrun as (st2 & [Hs2 _] & Hrun & _).
  apply run_Seq_sound in Hrun as (st3 & [Hs3 _] & Hrun & _).
  apply run_Seq_sound in Hrun as (st4 & [Hs4 _] & Hrun & _).
  apply run_Seq_sound in Hrun as (st5 & [Hs5 _] & Hrun & _).
  rewrite run_Seq in Hrun. unfold chr at 1 in Hrun. cbn [run] in Hrun.
  exists (rest st5). split.
  - eapply isSuffixOf_trans; [exact Hs5|]. eapply isSuffixOf_trans; [exact Hs4|].
    eapply isSuffixOf_trans; [exact Hs3|]. eapply isSuffixOf_trans; [exact Hs2|].
    eapply isSuffixOf_trans; [exact Hs1|]. exact Hsuffix.
  - destruct (rest st5) as [|c s']; [by destruct Hrun|].
    cbn [startsWith]. by destruct (Ascii.eqb "(" c); [|destruct Hrun].
Qed.

End DeclarationExpressions.

Section TrimFacts.
Import JsString Regex TextFallback RegexNotions.

Lemma takeWhile_trimStart s :
  s = takeWhile isWhiteSpace s +:+ trimStart s
  ∧ all isWhiteSpace (takeWhile isWhiteSpace s) = true.
Proof.
  induction s as [|c s [IH1 IH2]]; [done|]. cbn [takeWhile trimStart].
  destruct (isWhiteSpace c) eqn:Hc; [|done].
  rewrite append_cons. cbn [all]. rewrite Hc, IH2. split; [|done]. by rewrite <- IH1.
Qed.

Lemma list_of_append (a b : string) :
  String.list_ascii_of_string (a +:+ b)
  = String.list_ascii_of_string a ++ String.list_ascii_of_string b.
Proof.
  induction a as [|x a IH]; [done|]. rewrite append_cons.
  cbn [String.list_ascii_of_string app]. by rewrite IH.
Qed.

Lemma string_of_app (l1 l2 : list ascii) :
  String.string_of_list_ascii (l1 ++ l2)
  = String.string_of_list_ascii l1 +:+ String.string_of_list_ascii l2.
Proof.
  induction l1 as [|x l1 IH]; [done|].
  cbn [app String.string_of_list_ascii]. by rewrite append_cons, IH.
Qed.

Lemma rev_append (a b : string) : rev (a +:+ b) = rev b +:+ rev a.
Proof. unfold rev. by rewrite list_of_append, rev_app_distr, string_of_app. Qed.

Lemma rev_rev (s : string) : rev (rev s) = s.
Proof.
  unfold rev. rewrite String.list_ascii_of_string_of_list_ascii, rev_involutive.
  apply String.string_of_list_ascii_of_string.
Qed.

Lemma all_forallb f s : all f s = forallb f (String.list_ascii_of_string s).
Proof.
  induction s as [|c s IH]; [done|].
  cbn [all String.list_ascii_of_string forallb]. by rewrite IH.
Qed.

Lemma all_rev f s : all f (rev s) = all f s.
Proof.
  unfold rev. rewrite !all_forallb, String.list_ascii_of_string_of_list_ascii.
  induction (String.list_ascii_of_string s) as [|c l IH]; [done|].
  cbn [List.rev forallb]. rewrite forallb_app, IH. cbn [forallb].
  rewrite andb_true_r. apply andb_comm.
Qed.

Lemma trimEnd_tail x :
  ∃ tail, x = trimEnd x +:+ tail ∧ all isWhiteSpace tail = true.
Proof.
  destruct (takeWhile_trimStart (rev x)) as [Hsplit Hblank].
  exists (rev (takeWhile isWhiteSpace (rev x))). split.
  - unfold trimEnd. rewrite <- rev_append, <- Hsplit. by rewrite rev_rev.
  - by rewrite all_rev.
Qed.

Lemma trim_between raw :
  ∃ front tail, raw = front +:+ trim raw +:+ tail
                ∧ all isWhiteSpace front = true ∧ all isWhiteSpace tail = true.
Proof.
  destruct (takeWhile_trimStart raw) as [Hsplit Hfront].
  destruct (trimEnd_tail (trimStart raw)) as (tail & Htail & Hblank).
  exists (takeWhile isWhiteSpace raw), tail. split; [|done].
  unfold trim. by rewrite <- Htail.
Qed.

Lemma startsWith_decompose p : ∀ s, startsWith p s = true → ∃ after, s = p +:+ after.
Proof.
  induction p as [|a p IH]; intros s; cbn [startsWith]; [by exists s|].
  destruct s as [|b s]; [done|]. destruct (Ascii.eqb_spec a b) as [<-|]; [|done].
  intros (after & ->)%IH. by exists after.
Qed.

Lemma includes_decompose s p :
  includes s p = true → ∃ before after, s = before +:+ p +:+ after.
Proof.
  unfold includes. induction s as [|c s IH]; rewrite search_unfold.
  - destruct (startsWith p "") eqn:Hstart; [|done]. intros _.
    apply startsWith_decompose in Hstart as [after ->]. by exists "", after.
  - destruct (startsWith p (String c s)) eqn:Hstart.
    + intros _. apply startsWith_decompose in Hstart as [after Hafter].
      exists "", after. by rewrite Hafter.
    + destruct (search p s) as [k|]; [|done]. intros _.
      destruct (IH eq_refl) as (before & after & ->).
      by exists (String c before), after.
Qed.

Lemma includes_between front s tail p :
  includes s p = true → includes (front +:+ s +:+ tail) p = true.
Proof.
  intros (before & after & ->)%includes_decompose.
  replace (front +:+ (before +:+ p +:+ after) +:+ tail)
    with ((front +:+ before) +:+ p +:+ (after +:+ tail))
    by (by rewrite !append_assoc).
  apply includes_app.
Qed.

Lemma includes_trim raw p : includes (trim raw) p = true → includes raw p = true.
Proof.
  intros Hin. destruct (trim_between raw) as (front & tail & Hraw & _).
  rewrite Hraw. by apply includes_between.
Qed.

Lemma includes_suffix t s p :
  isSuffixOf t s → startsWith p t = true → includes s p = true.
Proof.
  intros [before ->] (after & ->)%startsWith_decompose. apply includes_app.
Qed.

(** The words hold no blank, so blanks at the end of a text take no part
    in them. *)
Lemma startsWith_blank_tail t : ∀ y tail,
  all (fun c => negb (isWhiteSpace c)) t = true →
  all isWhiteSpace tail = true →
  startsWith t (y +:+ tail) = true → startsWith t y = true.
Proof.
  induction t as [|a t IH]; intros y tail Ht Htail; [done|].
  cbn [all] in Ht. apply andb_prop in Ht as [Ha Ht].
  destruct y as [|b y].
  - rewrite append_nil_l. destruct tail as [|b tail]; [done|].
    cbn [all] in Htail. apply andb_prop in Htail as [Hb _]. cbn [startsWith].
    destruct (Ascii.eqb_spec a b) as [<-|]; [|done]. by rewrite Hb in Ha.
  - rewrite append_cons. cbn [startsWith].
    destruct (Ascii.eqb a b); [|done]. by apply IH.
Qed.

Lemma startsWithType_blank_tail y tail :
  all isWhiteSpace tail = true →
  startsWithType (y +:+ tail) = true → startsWithType y = true.
Proof.
  intros Htail. unfold startsWithType. rewrite !existsb_exists.
  intros (t & Ht & Hstart). exists t. split; [done|].
  apply (startsWith_blank_tail t y tail); [|done..].
  assert (Hwords : forallb (all (fun c => negb (isWhiteSpace c))) startWords = true)
    by reflexivity.
  rewrite forallb_forall in Hwords. by apply Hwords.
Qed.

Lemma trimStart_blank s : all isWhiteSpace s = true → trimStart s = "".
Proof.
  induction s as [|c s IH]; [done|]. cbn [all trimStart].
  intros [-> Hs]%andb_prop. by apply IH.
Qed.

Lemma trimStart_append s tail :
  trimStart (s +:+ tail)
  = if all isWhiteSpace s then trimStart tail else trimStart s +:+ tail.
Proof.
  induction s as [|c s IH]; [done|]. rewrite append_cons. cbn [trimStart all].
  destruct (isWhiteSpace c); [exact IH|]. by rewrite append_cons.
Qed.

Lemma typeAfterBlank_blank s :
  all isWhiteSpace s = true → typeAfterBlank false s = false.
Proof.
  induction s as [|c s IH]; [done|]. cbn [all]. intros [Hc Hs]%andb_prop.
  cbn [typeAfterBlank andb orb]. rewrite (trimStart_blank _ Hs).
  change (startsWithType "") with false. rewrite andb_false_r. cbn [orb]. by apply IH.
Qed.

Lemma typeAfterBlank_blank_tail y : ∀ atStart tail,
  all isWhiteSpace tail = true →
  typeAfterBlank atStart (y +:+ tail) = true → typeAfterBlank atStart y = true.
Proof.
  induction y as [|c y IH]; intros atStart tail Htail.
  - rewrite append_nil_l. destruct tail as [|b tail]; [done|].
    cbn [all] in Htail. apply andb_prop in Htail as [Hb Htail].
    cbn [typeAfterBlank]. rewrite (blank_starts_no_type _ _ Hb), andb_false_r.
    rewrite (trimStart_blank _ Htail), (typeAfterBlank_blank _ Htail).
    change (startsWithType "") with false. by rewrite andb_false_r.
  - rewrite append_cons. cbn [typeAfterBlank]. rewrite !orb_true_iff, !andb_true_iff.
    intros [[Hstart Htype]|[[Hc Htype]|Hlater]].
    + left. split; [done|].
      apply (startsWithType_blank_tail (String c y) tail); [done|].
      by rewrite append_cons.
    + right. left. split; [done|]. rewrite trimStart_append in Htype.
      destruct (all isWhiteSpace y).
      * by rewrite (trimStart_blank _ Htail) in Htype.
      * by apply (startsWithType_blank_tail _ tail).
    + right. right. by apply (IH false tail).
Qed.

Lemma typeAfterBlank_atStart s :
  typeAfterBlank false s = true → typeAfterBlank true s = true.
Proof.
  destruct s as [|c s]; cbn [typeAfterBlank andb orb]; [done|].
  intros ->. by rewrite orb_true_r.
Qed.

Lemma typeAfterBlank_trimStart s : ∀ atStart,
  typeAfterBlank atStart s = true → typeAfterBlank true (trimStart s) = true.
Proof.
  induction s as [|c s IH]; intros atStart.
  - cbn [trimStart typeAfterBlank]. rewrite !orb_false_r, !andb_true_iff. tauto.
  - cbn [trimStart]. destruct (isWhiteSpace c) eqn:Hc.
    + cbn [typeAfterBlank]. rewrite (blank_starts_no_type _ _ Hc), andb_false_r, Hc.
      cbn [orb andb]. intros [Htype|Hlater]%orb_prop.
      * destruct (trimStart s) as [|d t]; cbn [typeAfterBlank andb]; by rewrite Htype.
      * by apply (IH false).
    + destruct atStart; [done|]. apply typeAfterBlank_atStart.
Qed.

Lemma typeAfterBlank_trim raw :
  typeAfterBlank true raw = true → typeAfterBlank true (trim raw) = true.
Proof.
  intros Hraw%typeAfterBlank_trimStart.
  destruct (trimEnd_tail (trimStart raw)) as (tail & Hsplit & Htail).
  rewrite Hsplit in Hraw. by apply typeAfterBlank_blank_tail in Hraw.
Qed.

End TrimFacts.

Section ContextClaims.
Import JsString Regex TextFallback TextNotions RegexNotions.

(** A line that holds a declaration of type [int], [char], [float] or
    [double] is reported whatever stands before it: for such a line
    [isGlobalVariable] answers [true] at the line itself, whose text has the
    type at its start or after a blank, and [isInFunctionContext] is not
    asked.  The line is to be outside the marked structures and without
    equals sign, parenthesis, brace or the text [return], not a directive,
    not an array, and its name not taken for a parameter. *)
Theorem declaration_reported_whatever_the_context
    (sourceLines : list string) (contexts : gset nat) (i : nat) (raw : string) :
  sourceLines !! i = Some raw →
  i + 1 ∉ contexts →
  test fourTypeDeclaration raw = true →
  includes raw "=" = false →
  includes raw "(" = false →
  includes raw "return" = false →
  includes raw "{" = false →
  startsWith "#" (trim raw) = false →
  isArrayDeclaration raw = false →
  (∀ varMatch, exec variableDeclaration raw = Some varMatch →
     isFunctionParameter sourceLines i (default "" (group 2 varMatch)) = Some false) →
  isGlobalVariable sourceLines i = Some true
  ∧ declarationIsReported sourceLines contexts i raw = Some true.
Proof.
  intros Hraw Hcontext Hfour Hequals Hparenthesis Hreturn Hbrace Hdirective Harray
    Hparameter.
  apply test_is_Some in Hfour.
  assert (Hsix : is_Some (exec variableDeclaration raw)).
  { unfold exec. revert Hfour. apply searchFrom_weaken. apply four_types_among_six. }
  assert (Hstart : typeAfterBlank true (trim raw) = true).
  { apply typeAfterBlank_trim. rewrite <- test_declarationStart. apply test_is_Some.
    revert Hfour. apply searchFrom_weaken. apply four_types_among_start_words. }
  assert (Hglobal : isGlobalVariable sourceLines i = Some true).
  { unfold isGlobalVariable. cbn [isGlobalVariable_from]. rewrite Hraw.
    cbn [mbind option_bind]. cbv zeta.
    destruct (test functionDefinition (trim raw)) eqn:Hfunction.
    { apply functionDefinition_parenthesis in Hfunction as (t & Hsuffix & Ht).
      pose proof (includes_trim raw "(" (includes_suffix _ _ _ Hsuffix Ht)). congruence. }
    destruct (includes (trim raw) "{") eqn:Hbrace'.
    { apply includes_trim in Hbrace'. congruence. }
    rewrite Hdirective.
    destruct (trim raw) as [|c line] eqn:Hline; [done|]. cbn [isEmpty orb].
    by rewrite test_declarationStart, Hstart. }
  split; [done|]. unfold declarationIsReported.
  rewrite bool_decide_eq_false_2 by done. cbn [negb].
  destruct Hsix as [varMatch Hmatch]. rewrite Hmatch, Hequals, Hparenthesis, Hreturn.
  cbn [negb andb]. cbv zeta. rewrite Harray. cbn [negb].
  rewrite (Hparameter _ Hmatch). cbn [mbind option_bind negb]. by rewrite Hglobal.
Qed.

End ContextClaims.

Section ContextInstances.
Import JsString Regex TextFallback TextNotions RegexNotions RegexSamples.

Lemma declaration_reported_whatever_the_context_witness :
  isInFunctionContext block_lines 2 = Some true
  ∧ isGlobalVariable block_lines 2 = Some true
  ∧ declarationIsReported block_lines ∅ 2 "    int count;" = Some true.
Proof.
  split; [by vm_compute|].
  apply (declaration_reported_whatever_the_context block_lines ∅ 2 "    int count;"
           eq_refl (not_elem_of_empty _)); by vm_compute.
Defined.

End ContextInstances.
